(** * Receipt scanner backend: the extraction service and the upload pipeline

    A shallow embedding of [AiService] (text parser, response validation,
    tiered extraction), [StorageService] and [ReceiptService], and the
    properties of the specification that concern them.

    Conventions of the model.
    - A JavaScript string is the list of its UTF-16 code units ([text]).
    - A JavaScript number is carried in the records as the decimal value
      it stands for, an exact rational ([Q]).  The totals that the text
      parser computes are, besides, modelled bit for bit in [Binary64]:
      IEEE-754 binary64 values with round-to-nearest-even arithmetic and
      infinities.
    - A regular expression literal is a term of [regex], transcribed
      symbol for symbol, and run by a backtracking matcher that follows the
      ECMAScript priority order (leftmost start, greedy quantifiers,
      alternatives from left to right). *)

From Stdlib Require Import Ascii String.
From Stdlib Require Import List Bool Arith NArith ZArith QArith Qround Qpower.
From Stdlib Require Import Lia Lqa SpecFloat.
Import ListNotations.

Set Implicit Arguments.
Close Scope Q_scope.
Close Scope string_scope.
Open Scope list_scope.

(* ================================================================== *)
(** * JavaScript strings *)
(* ================================================================== *)

Module Js.

Definition char := N.
Definition text := list char.

(** An ASCII literal as a list of code units. *)
Definition str (s : string) : text :=
  List.map N_of_ascii (list_ascii_of_string s).
Arguments str s%_string.

Definition char_eqb (a b : char) : bool := N.eqb a b.
Arguments char_eqb (a b)%_N.

Fixpoint text_eqb (a b : text) : bool :=
  match a, b with
  | [], [] => true
  | x :: a', y :: b' => char_eqb x y && text_eqb a' b'
  | _, _ => false
  end.

Definition in_range (lo hi c : char) : bool :=
  (N.leb lo c && N.leb c hi)%bool.
Arguments in_range (lo hi c)%_N.

(** [\d] *)
Definition is_digit (c : char) : bool := in_range 48 57 c.

(** [\s], which is also the set removed by [String.prototype.trim]:
    WhiteSpace and LineTerminator code units. *)
Definition is_space (c : char) : bool :=
  (in_range 9 13 c || char_eqb c 32 || char_eqb c 160 || char_eqb c 5760
   || in_range 8192 8202 c || char_eqb c 8232 || char_eqb c 8233
   || char_eqb c 8239 || char_eqb c 8287 || char_eqb c 12288
   || char_eqb c 65279)%bool.

(** [\w], used by the word boundary [\b] *)
Definition is_word (c : char) : bool :=
  (in_range 65 90 c || in_range 97 122 c || is_digit c || char_eqb c 95)%bool.

(** Canonicalisation under the [i] flag (no [u] flag).  Every pattern
    character of the regular expressions below is ASCII, and a code unit
    above 127 never canonicalises to an ASCII one, so upper-casing the
    ASCII letters decides the comparison. *)
Definition canon (c : char) : char :=
  if in_range 97 122 c then (c - 32)%N else c.

(** [toLowerCase], on the ASCII letters.  It is only applied to a file
    extension that is then looked up among ".jpg", ".jpeg" and ".png",
    and no character outside ASCII lower-cases to one of their letters. *)
Definition lower (c : char) : char :=
  if in_range 65 90 c then (c + 32)%N else c.

Definition toLowerCase (s : text) : text := List.map lower s.

Fixpoint drop_space (s : text) : text :=
  match s with
  | [] => []
  | c :: r => if is_space c then drop_space r else s
  end.

(** [s.trim()] *)
Definition trim (s : text) : text :=
  rev (drop_space (rev (drop_space s))).

(** [s.split(sep)] for a one-character separator: never the empty list. *)
Fixpoint split (sep : char) (s : text) : list text :=
  match s with
  | [] => [[]]
  | c :: r =>
      if char_eqb c sep then [] :: split sep r
      else match split sep r with
           | l :: ls => (c :: l) :: ls
           | [] => [[c]]
           end
  end.

(** [s.substring(i, j)] for [i <= j] *)
Definition sub (s : text) (i j : nat) : text := firstn (j - i) (skipn i s).

Fixpoint is_prefix (p s : text) : bool :=
  match p, s with
  | [], _ => true
  | x :: p', y :: s' => char_eqb x y && is_prefix p' s'
  | _ :: _, [] => false
  end.

(** [s.indexOf(p)] *)
Fixpoint index_of (p s : text) : option nat :=
  if is_prefix p s then Some 0
  else match s with
       | [] => None
       | _ :: r => option_map S (index_of p r)
       end.

(** [s.replace(p, r)] with a string pattern and a replacement free of
    [$]: the first occurrence only. *)
Definition replace_str (p r s : text) : text :=
  match index_of p s with
  | Some i => firstn i s ++ r ++ skipn (i + length p) s
  | None => s
  end.

End Js.

(* ================================================================== *)
(** * Regular expressions *)
(* ================================================================== *)

Module Re.
Import Js.

(** Members of a character class. *)
Inductive atom : Type :=
| ALit (c : char)          (* a literal character *)
| ARange (lo hi : char)    (* [lo-hi] *)
| ADigit                   (* \d *)
| ASpace.                  (* \s *)
Arguments ALit c%_N.
Arguments ARange (lo hi)%_N.

Definition atom_mem (a : atom) (c : char) : bool :=
  match a with
  | ALit x => char_eqb x c
  | ARange lo hi => in_range lo hi c
  | ADigit => is_digit c
  | ASpace => is_space c
  end.

Definition cls_mem (cs : list atom) (c : char) : bool :=
  existsb (fun a => atom_mem a c) cs.

(** The fragment of the pattern language that the service uses.  A
    quantifier is only ever applied to a character class or escape, or is
    the [?] of an optional group. *)
Inductive regex : Type :=
| Eps                                        (* empty pattern *)
| Chr (c : char)                             (* literal character *)
| Cls (cs : list atom)                       (* class or escape *)
| Seq (r1 r2 : regex)
| Alt (r1 r2 : regex)                        (* r1|r2 *)
| Rep (lo : nat) (hi : option nat) (cs : list atom)  (* cs{lo,hi}, greedy *)
| Cap (r : regex)                            (* capture group 1 *)
| Bol                                        (* ^ *)
| Eol                                        (* $ *)
| WordB.                                     (* \b *)
Arguments Chr c%_N.

(** [r?] for a group that cannot match the empty string. *)
Definition Opt (r : regex) : regex := Alt r Eps.

(** A literal word. *)
Fixpoint lit_text (s : text) : regex :=
  match s with
  | [] => Eps
  | [c] => Chr c
  | c :: r => Seq (Chr c) (lit_text r)
  end.
Definition lit (s : string) : regex := lit_text (str s).
Arguments lit s%_string.

(** [a|b|c|...] *)
Fixpoint alts (rs : list regex) : regex :=
  match rs with
  | [] => Eps
  | [r] => r
  | r :: rs' => Alt r (alts rs')
  end.

(** [r1 r2 r3 ...] *)
Fixpoint seqs (rs : list regex) : regex :=
  match rs with
  | [] => Eps
  | [r] => r
  | r :: rs' => Seq r (seqs rs')
  end.

Definition capture := option (nat * nat).

Section Matcher.
Variable ci : bool.      (* the i flag *)
Variable s : text.       (* the subject *)

Definition chr_eq (p c : char) : bool :=
  if ci then char_eqb (canon p) (canon c) else char_eqb p c.

Definition word_at (i : nat) : bool :=
  match nth_error s i with Some c => is_word c | None => false end.

Definition word_before (i : nat) : bool :=
  match i with O => false | S j => word_at j end.

(** Length of the run of class members at the head of [rest], at most
    [hi] of them. *)
Fixpoint run (cs : list atom) (hi : option nat) (rest : text) : nat :=
  match rest with
  | [] => 0
  | c :: rest' =>
      if cls_mem cs c then
        match hi with
        | Some 0 => 0
        | Some (S h) => S (run cs (Some h) rest')
        | None => S (run cs None rest')
        end
      else 0
  end.

(** Greedy backtracking: the continuation is tried after [n]
    repetitions, then [n-1], ... down to [lo]. *)
Fixpoint backoff (A : Type) (k : nat -> option A) (i lo n : nat)
  : option A :=
  if n <? lo then None
  else match k (i + n) with
       | Some a => Some a
       | None =>
           match n with
           | O => None
           | S n' => backoff k i lo n'
           end
       end.

(** [rmatch r i cap k]: match [r] at position [i], then the
    continuation [k]; [None] when every alternative fails. *)
Fixpoint rmatch (A : Type) (r : regex) (i : nat) (cap : capture)
         (k : nat -> capture -> option A) : option A :=
  match r with
  | Eps => k i cap
  | Chr p =>
      match nth_error s i with
      | Some c => if chr_eq p c then k (S i) cap else None
      | None => None
      end
  | Cls cs =>
      match nth_error s i with
      | Some c => if cls_mem cs c then k (S i) cap else None
      | None => None
      end
  | Seq r1 r2 => rmatch r1 i cap (fun j cap' => rmatch r2 j cap' k)
  | Alt r1 r2 =>
      match rmatch r1 i cap k with
      | Some a => Some a
      | None => rmatch r2 i cap k
      end
  | Rep lo hi cs =>
      backoff (fun j => k j cap) i lo (run cs hi (skipn i s))
  | Cap r1 => rmatch r1 i cap (fun j _ => k j (Some (i, j)))
  | Bol => if i =? 0 then k i cap else None
  | Eol => if i =? length s then k i cap else None
  | WordB => if xorb (word_before i) (word_at i) then k i cap else None
  end.

(** A match of the whole pattern starting at [i]: its end and capture. *)
Definition match_at (r : regex) (i : nat) : option (nat * capture) :=
  rmatch r i None (fun j cap => Some (j, cap)).

(** The leftmost match starting at [i] or later; [fuel] further start
    positions are tried after [i]. *)
Fixpoint search_from (r : regex) (fuel i : nat)
  : option (nat * nat * capture) :=
  match match_at r i with
  | Some (j, cap) => Some (i, j, cap)
  | None =>
      match fuel with
      | O => None
      | S f => search_from r f (S i)
      end
  end.

(** [r.exec(s)] from the start: every position [0 .. length s]. *)
Definition exec (r : regex) : option (nat * nat * capture) :=
  search_from r (length s) 0.

End Matcher.

(** [r.test(s)] *)
Definition test (ci : bool) (r : regex) (s : text) : bool :=
  match exec ci s r with Some _ => true | None => false end.

(** [s.match(r)[0]]: the text of the leftmost match (with or without the
    [g] flag the first element is the same). *)
Definition match0 (ci : bool) (r : regex) (s : text) : option text :=
  match exec ci s r with
  | Some (i, j, _) => Some (sub s i j)
  | None => None
  end.

(** [s.replace(r, repl)] without the [g] flag. *)
Definition replace (ci : bool) (r : regex) (repl s : text) : text :=
  match exec ci s r with
  | Some (i, j, _) => firstn i s ++ repl ++ skipn j s
  | None => s
  end.

(** [s.replace(r, repl)] with the [g] flag: [copied] is the end of the
    previous match, [from] the next start position to try.  After an empty
    match the search resumes one position further. *)
Fixpoint replace_g_from (ci : bool) (r : regex) (repl s : text)
         (fuel copied from : nat) : text :=
  match fuel with
  | O => skipn copied s
  | S f =>
      if length s <? from then skipn copied s else
      match search_from ci s r (length s - from) from with
      | None => skipn copied s
      | Some (i, j, _) =>
          sub s copied i ++ repl
          ++ replace_g_from ci r repl s f j (if j =? i then S i else j)
      end
  end.

Definition replace_g (ci : bool) (r : regex) (repl s : text) : text :=
  replace_g_from ci r repl s (S (length s)) 0 0.

End Re.

(* ================================================================== *)
(** * Exceptions and the result of a call that may throw *)
(* ================================================================== *)

Module Exn.
Import Js.

Inductive exn : Type :=
| TypeError                                   (* property of null, ... *)
| Error (msg : text)                          (* new Error(msg), library errors *)
| BadRequestException (msg : text)            (* client fault *)
| InternalServerErrorException (msg : text).  (* server fault *)

Inductive result (A : Type) : Type :=
| Ok (a : A)
| Throw (e : exn).
Arguments Ok {A} a.
Arguments Throw {A} e.

Definition rbind (A B : Type) (m : result A) (f : A -> result B) : result B :=
  match m with
  | Ok a => f a
  | Throw e => Throw e
  end.

End Exn.

(* ================================================================== *)
(** * JSON values and the extracted record *)
(* ================================================================== *)

Module Json.
Import Js Exn.

(** What [JSON.parse] can return.  The fields of an object are kept in
    source order. *)
#[local] Set Warnings "-register-all".
Inductive jsval : Type :=
| JNull
| JBool (b : bool)
| JNum (q : Q)
| JStr (s : text)
| JArr (l : list jsval)
| JObj (fields : list (text * jsval)).

Fixpoint lookup (k : text) (fs : list (text * jsval)) : option jsval :=
  match fs with
  | [] => None
  | (k', v) :: fs' =>
      match lookup k fs' with
      | Some w => Some w            (* a later duplicate key wins *)
      | None => if text_eqb k k' then Some v else None
      end
  end.

(** [v.k] for one of the keys the service reads: [undefined] ([None]) on
    anything but an object that has the key, a [TypeError] on [null]. *)
Definition get (v : jsval) (k : text) : result (option jsval) :=
  match v with
  | JNull => Throw TypeError
  | JObj fs => Ok (lookup k fs)
  | _ => Ok None
  end.

(** ToBoolean *)
Definition truthy (v : jsval) : bool :=
  match v with
  | JNull => false
  | JBool b => b
  | JNum q => negb (Qeq_bool q 0)
  | JStr s => match s with [] => false | _ => true end
  | JArr _ => true
  | JObj _ => true
  end.

(** [x || d] where [x] may be [undefined] *)
Definition or_default (x : option jsval) (d : jsval) : jsval :=
  match x with
  | Some v => if truthy v then v else d
  | None => d
  end.

(** [typeof x === 'number' ? x : 0] *)
Definition number_or_zero (x : option jsval) : Q :=
  match x with
  | Some (JNum q) => q
  | _ => 0%Q
  end.

Definition is_string (v : jsval) : bool :=
  match v with JStr _ => true | _ => false end.

End Json.

Module Data.
Import Js Json.

(** [ExtractedReceiptData].  The three text fields are declared [string]
    but hold whatever value the response carried, so they are values;
    [receipt_items], [item_cost], [tax] and [total] are always built with
    the declared type. *)
Record item : Type := mkItem {
  item_name : jsval;
  item_cost : Q
}.

Record ExtractedReceiptData : Type := mkData {
  date : jsval;
  currency : jsval;
  vendor_name : jsval;
  receipt_items : list item;
  tax : Q;
  total : Q
}.

(** [new Date()] as the service reads it. *)
Record Clock : Type := mkClock {
  today_iso : text;       (* new Date().toISOString().split('T')[0] *)
  today_locale : text     (* new Date().toLocaleDateString() *)
}.

(** [items.reduce((sum, item) => sum + item.item_cost, 0)] on the decimal
    values; the sum of the Numbers is in [Binary64.calculateTotals]. *)
Definition subtotal_of (items : list item) : Q :=
  fold_left (fun sum it => (sum + item_cost it)%Q) items 0%Q.

End Data.

(* ================================================================== *)
(** * AiService *)
(* ================================================================== *)

Module AiService.
Import Js Re Exn Json Data.

(** ** The text parser *)

Definition is_empty (s : text) : bool :=
  match s with [] => true | _ => false end.

(** [text.split('\n').filter(line => line.trim())] *)
Definition split_lines (t : text) : list text :=
  filter (fun line => negb (is_empty (trim line))) (split 10%N t).

(** [/^\d/] *)
Definition re_leading_digit : regex := Seq Bol (Cls [ADigit]).

(** [/^[A-Z\s]+$/] *)
Definition re_upper_only : regex :=
  seqs [Bol; Rep 1 None [ARange 65 90; ASpace]; Eol].

(** [/^(Rech|Receipt|Invoice|Bill|Date|Time|Table|Tisch)/i] *)
Definition re_header : regex :=
  Seq Bol (Cap (alts [lit "Rech"; lit "Receipt"; lit "Invoice"; lit "Bill";
                      lit "Date"; lit "Time"; lit "Table"; lit "Tisch"])).

(** [/\s+/g] *)
Definition re_spaces : regex := Rep 1 None [ASpace].

(** [/\s+(GmbH|AG|Ltd|Inc|Corp|LLC|Restaurant|Hotel|Cafe|Bar)$/i] *)
Definition re_suffix : regex :=
  seqs [Rep 1 None [ASpace];
        Cap (alts [lit "GmbH"; lit "AG"; lit "Ltd"; lit "Inc"; lit "Corp";
                   lit "LLC"; lit "Restaurant"; lit "Hotel"; lit "Cafe";
                   lit "Bar"]);
        Eol].

(** The test of the loop body of [extractVendorName] on the trimmed
    line. *)
Definition vendor_candidate (line : text) : bool :=
  (negb (is_empty line) && (3 <? length line)
   && negb (test false re_leading_digit line)
   && negb (test false re_upper_only line)
   && negb (test true re_header line))%bool.

Definition clean_vendor (line : text) : text :=
  let vendorName := trim (replace_g false re_spaces (str " ") line) in
  replace true re_suffix [] vendorName.

(** The [for] loop over the indices [0 .. min(5, lines.length) - 1]. *)
Fixpoint vendor_loop (ls : list text) : option text :=
  match ls with
  | [] => None
  | l :: rest =>
      let line := trim l in
      if vendor_candidate line then Some (clean_vendor line)
      else vendor_loop rest
  end.

Definition extractVendorName (lines : list text) : text :=
  match vendor_loop (firstn 5 lines) with
  | Some v => v
  | None => str "Unknown Vendor"
  end.

Definition sep : regex := Cls [ALit 47; ALit 45].   (* [\/\-] *)

Definition months_short : regex :=
  Cap (alts [lit "Jan"; lit "Feb"; lit "Mar"; lit "Apr"; lit "May";
             lit "Jun"; lit "Jul"; lit "Aug"; lit "Sep"; lit "Oct";
             lit "Nov"; lit "Dec"]).

Definition months_long : regex :=
  Cap (alts [lit "January"; lit "February"; lit "March"; lit "April";
             lit "May"; lit "June"; lit "July"; lit "August";
             lit "September"; lit "October"; lit "November";
             lit "December"]).

(** [/\d{1,2}[\/\-]\d{1,2}[\/\-]\d{2,4}/g] *)
Definition re_date_dmy : regex :=
  seqs [Rep 1 (Some 2) [ADigit]; sep; Rep 1 (Some 2) [ADigit]; sep;
        Rep 2 (Some 4) [ADigit]].

(** [/\d{4}[\/\-]\d{1,2}[\/\-]\d{1,2}/g] *)
Definition re_date_ymd : regex :=
  seqs [Rep 4 (Some 4) [ADigit]; sep; Rep 1 (Some 2) [ADigit]; sep;
        Rep 1 (Some 2) [ADigit]].

(** [/\d{1,2}\s+(Jan|...|Dec)\s+\d{2,4}/gi] *)
Definition re_date_short : regex :=
  seqs [Rep 1 (Some 2) [ADigit]; Rep 1 None [ASpace]; months_short;
        Rep 1 None [ASpace]; Rep 2 (Some 4) [ADigit]].

(** [/\d{1,2}\s+(January|...|December)\s+\d{2,4}/gi] *)
Definition re_date_long : regex :=
  seqs [Rep 1 (Some 2) [ADigit]; Rep 1 None [ASpace]; months_long;
        Rep 1 None [ASpace]; Rep 2 (Some 4) [ADigit]].

(** The patterns with their [i] flag, in the order of the array. *)
Definition datePatterns : list (bool * regex) :=
  [(false, re_date_dmy); (false, re_date_ymd);
   (true, re_date_short); (true, re_date_long)].

Fixpoint first_date (ps : list (bool * regex)) (t : text) : option text :=
  match ps with
  | [] => None
  | (ci, r) :: ps' =>
      match match0 ci r t with
      | Some m => Some m
      | None => first_date ps' t
      end
  end.

Definition extractDate (clk : Clock) (t : text) : text :=
  match first_date datePatterns t with
  | Some m => m
  | None => today_locale clk
  end.

Definition word (s : string) : regex := seqs [WordB; lit s; WordB].
Arguments word s%_string.

(** [currencyPatterns], in the insertion order of its keys. *)
Definition currencyPatterns : list (text * regex) :=
  [ (str "CHF", alts [word "CHF"; word "Swiss"; word "Schweiz"]);
    (str "USD", alts [Chr 36; word "USD";
                      seqs [WordB; lit "US"; Chr 36; WordB]]);
    (str "EUR", alts [Chr 8364; word "EUR"]);
    (str "GBP", alts [Chr 163; word "GBP"]);
    (str "CAD", word "CAD");
    (str "AUD", word "AUD") ].

Fixpoint first_currency (ps : list (text * regex)) (t : text)
  : option text :=
  match ps with
  | [] => None
  | (code, pattern) :: ps' =>
      if test false pattern t then Some code else first_currency ps' t
  end.

Definition extractCurrency (t : text) : text :=
  match first_currency currencyPatterns t with
  | Some code => code
  | None => str "USD"
  end.

(** [/(?:CHF|USD|EUR|£|\$)?\s*(\d+[.,]\d{2})/] *)
Definition re_price : regex :=
  seqs [Opt (alts [lit "CHF"; lit "USD"; lit "EUR"; Chr 163; Chr 36]);
        Rep 0 None [ASpace];
        Cap (seqs [Rep 1 None [ADigit]; Cls [ALit 46; ALit 44];
                   Rep 2 (Some 2) [ADigit]])].

(** [/^(TOTAL|TAX|SUBTOTAL|BALANCE|MwSt|VAT)/i] *)
Definition re_aggregate : regex :=
  Seq Bol (Cap (alts [lit "TOTAL"; lit "TAX"; lit "SUBTOTAL"; lit "BALANCE";
                      lit "MwSt"; lit "VAT"])).

Fixpoint span_digits (s : text) : text * text :=
  match s with
  | c :: r =>
      if is_digit c then let (ds, rest) := span_digits r in (c :: ds, rest)
      else ([], s)
  | [] => ([], [])
  end.

Definition digits_value (ds : text) : Z :=
  fold_left (fun acc c => (acc * 10 + Z.of_N (c - 48))%Z) ds 0%Z.

Definition pow10 (k : nat) : positive := Z.to_pos (10 ^ Z.of_nat k).

(** [parseFloat] on an unsigned decimal literal: digits, then optionally a
    dot and digits.  These are the only arguments it receives (the capture
    of [re_price] with its comma turned into a dot); on a string with no
    leading digit, where JavaScript gives [NaN], the value here is that of
    the fraction alone.  The result is the decimal value of the literal;
    the Number JavaScript returns for it is [Binary64.of_Q] of that
    value. *)
Definition parseFloat (s : text) : Q :=
  let (ip, rest) := span_digits s in
  match rest with
  | c :: rest' =>
      if char_eqb c 46 then
        let (fp, _) := span_digits rest' in
        Qmake (digits_value ip * Zpos (pow10 (length fp)) + digits_value fp)
              (pow10 (length fp))
      else inject_Z (digits_value ip)
  | [] => inject_Z (digits_value ip)
  end.

(** The body of the [forEach] callback of [extractItems], apart from the
    test on the index: the item a line yields, if any. *)
Definition line_item (line : text) : option item :=
  match exec false line re_price with
  | Some (i, j, Some (ci, cj)) =>
      let price := parseFloat (replace_str [44%N] [46%N] (sub line ci cj)) in
      let itemName := trim (replace_str (sub line i j) [] line) in
      if (negb (is_empty itemName) && (2 <? length itemName)
          && negb (test true re_aggregate itemName))%bool
      then Some (mkItem (JStr itemName) price)
      else None
  | _ => None
  end.

(** The [forEach] over [lines]: [len] is [lines.length], [index] the index
    of the head of [ls]. *)
Fixpoint items_loop (len index : nat) (ls : list text) : list item :=
  match ls with
  | [] => []
  | line :: rest =>
      let pushed :=
        if (Z.of_nat index <? Z.of_nat len - 1)%Z then
          match line_item line with
          | Some it => [it]
          | None => []
          end
        else [] in
      pushed ++ items_loop len (S index) rest
  end.

Definition general_items : list item :=
  [mkItem (JStr (str "General Items")) 0%Q].

Definition extractItems (lines : list text) : list item :=
  match items_loop (length lines) 0 lines with
  | [] => general_items
  | items => items
  end.

(** [Math.round]: the nearest integer, a half going up.  This and the two
    definitions after it work on the decimal values, in exact arithmetic;
    the same computation on Numbers, with the rounding of every
    operation, is [Binary64.calculateTotals]. *)
Definition Math_round (x : Q) : Z := Qfloor (x + (1 # 2))%Q.

Definition round2 (x : Q) : Q := (inject_Z (Math_round (x * 100)) / 100)%Q.

Definition calculateTotals (items : list item) : Q * Q :=
  let subtotal := subtotal_of items in
  let tax := (subtotal * (1 # 10))%Q in
  let total := (subtotal + tax)%Q in
  (round2 tax, round2 total).

Definition parseReceiptText (clk : Clock) (t : text) : ExtractedReceiptData :=
  let lines := split_lines t in
  let vendorName := extractVendorName lines in
  let date := extractDate clk t in
  let currency := extractCurrency t in
  let items := extractItems lines in
  let (tax, total) := calculateTotals items in
  mkData (JStr date) (JStr currency) (JStr vendorName) items tax total.

(** ** Validation of the structured response *)

Definition sentinel (cs : list item) : list item :=
  match cs with [] => general_items | _ => cs end.

(** The callback of [data.receipt_items.map]. *)
Definition coerce_item (it : jsval) : result item :=
  rbind (get it (str "item_name")) (fun n =>
  rbind (get it (str "item_cost")) (fun c =>
  Ok (mkItem (or_default n (JStr (str "Unknown Item"))) (number_or_zero c)))).

Fixpoint coerce_items (l : list jsval) : result (list item) :=
  match l with
  | [] => Ok []
  | it :: rest =>
      rbind (coerce_item it) (fun x =>
      rbind (coerce_items rest) (fun xs => Ok (x :: xs)))
  end.

Definition validateAndTransformGptResponse (clk : Clock) (data : jsval)
  : result ExtractedReceiptData :=
  rbind (get data (str "date")) (fun d =>
  rbind (get data (str "currency")) (fun c =>
  rbind (get data (str "vendor_name")) (fun v =>
  rbind (get data (str "receipt_items")) (fun ri =>
  rbind (match ri with
         | Some (JArr l) => coerce_items l
         | _ => Ok general_items
         end) (fun items =>
  rbind (get data (str "tax")) (fun tx =>
  rbind (get data (str "total")) (fun tt =>
  let validated :=
    mkData (or_default d (JStr (today_iso clk)))
           (or_default c (JStr (str "USD")))
           (or_default v (JStr (str "Unknown Vendor")))
           items (number_or_zero tx) (number_or_zero tt) in
  (* receipt_items must not be empty *)
  let items1 := sentinel (receipt_items validated) in
  (* a total of 0 with items present is computed *)
  let total1 :=
    if (Qeq_bool (total validated) 0 && (0 <? length items1))%bool
    then (subtotal_of items1 + tax validated)%Q
    else total validated in
  Ok (mkData (date validated) (currency validated) (vendor_name validated)
             items1 (tax validated) total1)))))))).

(** ** The tiered extraction *)

(** What the remote and local engines answer.  The logger calls of the
    service do not throw and are left out. *)
Inductive gpt_reply : Type :=
| GptRejects (e : exn)             (* chat.completions.create rejects *)
| GptNoContent                     (* no content in the first choice *)
| GptContent (parsed : result jsval).
                                   (* some content, and JSON.parse of it *)

Record Engines : Type := mkEngines {
  (** [this.openaiClient], with the reply it would give; [None] is null *)
  openaiClient : option gpt_reply;
  (** [this.visionClient], with [result.fullTextAnnotation?.text || '']
      or the rejection of [textDetection]; [None] is null *)
  visionClient : option (result text);
  (** [Tesseract.recognize], by call number: [result.data.text], or
      whatever the [try] block of [fallbackParsing] throws *)
  recognize : nat -> result text
}.

(** A computation that may throw and counts the calls to the local OCR
    engine. *)
Definition M (A : Type) : Type := nat -> result A * nat.

Definition ret (A : Type) (a : A) : M A := fun n => (Ok a, n).

Definition try_catch (A : Type) (m : M A) (h : exn -> M A) : M A :=
  fun n =>
    match m n with
    | (Ok a, n') => (Ok a, n')
    | (Throw e, n') => h e n'
    end.

Definition msg_no_response := str "No response from GPT-4 Vision".
Definition msg_invalid_format := str "Invalid response format from GPT-4 Vision".
Definition msg_gpt_unavailable :=
  str "GPT-4 Vision service temporarily unavailable".
Definition msg_ai_unavailable := str "AI service temporarily unavailable".

Definition extractWithGpt4Vision (clk : Clock) (g : gpt_reply)
  : result ExtractedReceiptData :=
  let body :=
    match g with
    | GptRejects e => Throw e
    | GptNoContent => Throw (Error msg_no_response)
    | GptContent parsed =>
        match rbind parsed (validateAndTransformGptResponse clk) with
        | Ok d => Ok d
        | Throw _ => Throw (Error msg_invalid_format)
        end
    end in
  match body with
  | Ok d => Ok d
  | Throw _ => Throw (InternalServerErrorException msg_gpt_unavailable)
  end.

Definition extractWithVisionApi (clk : Clock) (v : result text)
  : result ExtractedReceiptData :=
  match v with
  | Ok t => Ok (parseReceiptText clk t)
  | Throw _ => Throw (InternalServerErrorException msg_ai_unavailable)
  end.

(** The record returned when the local OCR pass throws. *)
Definition ocr_failed (clk : Clock) : ExtractedReceiptData :=
  mkData (JStr (today_locale clk)) (JStr (str "USD"))
         (JStr (str "Unknown Vendor (OCR failed)"))
         [mkItem (JStr (str "Receipt Items")) 0%Q] 0%Q 0%Q.

Definition fallbackParsing (clk : Clock) (en : Engines)
  : M ExtractedReceiptData :=
  fun n =>
    match recognize en n with
    | Ok extractedText => (Ok (parseReceiptText clk extractedText), S n)
    | Throw _ => (Ok (ocr_failed clk), S n)
    end.

(** The part of [extractReceiptData] from the test of [visionClient] on. *)
Definition from_vision (clk : Clock) (en : Engines)
  : M ExtractedReceiptData :=
  match visionClient en with
  | Some v =>
      match extractWithVisionApi clk v with
      | Ok d => ret d
      | Throw _ => fallbackParsing clk en
      end
  | None => fallbackParsing clk en
  end.

Definition from_gpt (clk : Clock) (en : Engines)
  : M ExtractedReceiptData :=
  match openaiClient en with
  | Some g =>
      match extractWithGpt4Vision clk g with
      | Ok d => ret d
      | Throw _ => from_vision clk en
      end
  | None => from_vision clk en
  end.

Definition extractReceiptData (clk : Clock) (en : Engines)
  : M ExtractedReceiptData :=
  try_catch (from_gpt clk en) (fun _ => fallbackParsing clk en).

End AiService.

(* ================================================================== *)
(** * The stores and the upload pipeline *)
(* ================================================================== *)

Module Pipeline.
Import Js Exn Json Data.

Definition bytes := list N.

(** [Express.Multer.File], the fields that are read. *)
Record File : Type := mkFile {
  originalname : text;
  mimetype : text;
  size : Z;                       (* the declared size *)
  buffer : option bytes           (* [None]: no buffer *)
}.

(** The [Receipt] entity without its timestamps; [receipt_items] is kept
    as the list that is serialised into the column. *)
Record Receipt : Type := mkReceipt {
  id : text;
  r_date : jsval;
  r_currency : jsval;
  r_vendor_name : jsval;
  r_receipt_items : list item;
  r_tax : Q;
  r_total : Q;
  image_url : text
}.

(** What the services did, most recent first. *)
Inductive event : Type :=
| WroteFile (path : text)
| CalledDeleteImage (imageUrl : text)
| MarkedForDeletion (filename : text)      (* logger.log in deleteImage *)
| DeleteFailed (imageUrl : text)           (* logger.warn in deleteImage *)
| CalledExtract
| RepoSaved (rid : text)
| RepoRemoved (rid : text).

(** The File Store (a directory), the Record Store (a table) and the
    journal. *)
Record World : Type := mkWorld {
  dir_exists : bool;
  files : list (text * bytes);
  receipts : list Receipt;
  journal : list event
}.

(** The collaborators outside the repository: the platform's path
    functions, the identifier generators, the extraction service as the
    receipt service sees it, and whether the file system and the database
    accept an operation. *)
Record Platform : Type := mkPlatform {
  extname : text -> text;
  join : text -> text -> text;
  uuidv4 : text;
  mkdir_ok : bool;
  write_ok : bool;
  extract : option bytes -> result ExtractedReceiptData;
  generated_id : text;
  find_ok : bool;
  save_ok : bool;
  remove_ok : bool
}.

(** A computation on the stores that may throw; what was done before the
    throw stays done. *)
Definition P (A : Type) : Type := World -> result A * World.

Definition ret (A : Type) (a : A) : P A := fun w => (Ok a, w).
Definition throw (A : Type) (e : exn) : P A := fun w => (Throw e, w).
Arguments throw {A} e.

Definition bind (A B : Type) (m : P A) (f : A -> P B) : P B :=
  fun w =>
    match m w with
    | (Ok a, w') => f a w'
    | (Throw e, w') => (Throw e, w')
    end.

Definition try_catch (A : Type) (m : P A) (h : exn -> P A) : P A :=
  fun w =>
    match m w with
    | (Ok a, w') => (Ok a, w')
    | (Throw e, w') => h e w'
    end.

Notation "x <- m ;; k" := (bind m (fun x => k))
  (at level 61, m at next level, right associativity).
Notation "m ;;; k" := (bind m (fun _ => k))
  (at level 61, right associativity).

Definition record (e : event) : P unit :=
  fun w => (Ok tt, mkWorld (dir_exists w) (files w) (receipts w)
                           (e :: journal w)).

Definition mem (x : text) (l : list text) : bool := existsb (text_eqb x) l.

(** ** StorageService.  Exception messages are kept as their templates. *)

Definition uploadDir : text := str "uploads".
Definition maxFileSize : Z := 10 * 1024 * 1024.
Definition allowedExtensions : list text :=
  [str ".jpg"; str ".jpeg"; str ".png"].
Definition allowedMimeTypes : list text :=
  [str "image/jpeg"; str "image/jpg"; str "image/png"].

Definition msg_size :=
  str "File size ${file.size} bytes exceeds maximum allowed size of ${this.maxFileSize} bytes".
Definition msg_extension :=
  str "File extension ${extension} is not allowed. Allowed: ${this.allowedExtensions.join(', ')}".
Definition msg_mime :=
  str "MIME type ${file.mimetype} is not allowed. Allowed: ${this.allowedMimeTypes.join(', ')}".
Definition msg_buffer := str "File buffer is empty or invalid".
Definition msg_save := str "Failed to save image file".

Definition validateFile (pf : Platform) (file : File) : P unit :=
  if (size file >? maxFileSize)%Z then
    throw (BadRequestException msg_size)
  else if negb (mem (toLowerCase (extname pf (originalname file)))
                    allowedExtensions) then
    throw (BadRequestException msg_extension)
  else if negb (mem (mimetype file) allowedMimeTypes) then
    throw (BadRequestException msg_mime)
  else match buffer file with
       | None | Some [] => throw (BadRequestException msg_buffer)
       | Some _ => ret tt
       end.

(** [access(uploadDir)], and [mkdir] when it rejects. *)
Definition ensureUploadDirectory (pf : Platform) : P unit :=
  fun w =>
    if dir_exists w then (Ok tt, w)
    else if mkdir_ok pf then
      (Ok tt, mkWorld true (files w) (receipts w) (journal w))
    else (Throw (Error (str "mkdir")), w).

Definition writeFile (pf : Platform) (path : text) (data : bytes) : P unit :=
  fun w =>
    if write_ok pf then
      (Ok tt, mkWorld (dir_exists w) ((path, data) :: files w) (receipts w)
                      (WroteFile path :: journal w))
    else (Throw (Error (str "writeFile")), w).

Definition generateSecureFilename (pf : Platform) (name : text) : text :=
  uuidv4 pf ++ toLowerCase (extname pf name).

Definition saveImage (pf : Platform) (file : File) : P text :=
  try_catch
    (validateFile pf file ;;;
     ensureUploadDirectory pf ;;;
     let filename := generateSecureFilename pf (originalname file) in
     let filepath := join pf uploadDir filename in
     writeFile pf filepath (match buffer file with Some b => b | None => [] end) ;;;
     ret (str "/uploads/" ++ filename))
    (fun error =>
       match error with
       | BadRequestException _ => throw error
       | _ => throw (InternalServerErrorException msg_save)
       end).

(** [access(filepath)] *)
Definition accessible (path : text) (w : World) : bool :=
  existsb (fun f => text_eqb (fst f) path) (files w).

(** [imageUrl.split('/').pop()] *)
Definition last_segment (imageUrl : text) : text :=
  last (split 47%N imageUrl) [].

(** [deleteImage]: the file is looked up and the outcome logged; nothing
    is removed, and nothing is thrown. *)
Definition deleteImage (pf : Platform) (imageUrl : text) : P unit :=
  record (CalledDeleteImage imageUrl) ;;;
  let filename := last_segment imageUrl in
  match filename with
  | [] => ret tt
  | _ =>
      fun w =>
        if accessible (join pf uploadDir filename) w
        then record (MarkedForDeletion filename) w
        else record (DeleteFailed imageUrl) w
  end.

(** ** ReceiptService *)

Definition msg_file_type :=
  str "Invalid file type. Only .jpg, .jpeg, .png files are allowed.".
Definition msg_invalid_ai :=
  str "AI model returned invalid or incomplete data.".
Definition msg_extract_failed := str "Failed to extract receipt details.".
Definition msg_not_found := str "Receipt with ID ${id} not found.".
Definition msg_delete_failed := str "Failed to delete receipt.".

Definition isValidImageFile (file : File) : bool :=
  mem (mimetype file) [str "image/jpeg"; str "image/jpg"; str "image/png"].

(** The record type already makes [receipt_items] an array and [tax] and
    [total] numbers; the other conjuncts are tested. *)
Definition isValidAiResponse (data : ExtractedReceiptData) : bool :=
  (truthy (date data) && truthy (currency data) && truthy (vendor_name data)
   && (0 <? length (receipt_items data))
   && Qle_bool 0 (tax data) && Qle_bool 0 (total data))%bool.

Definition repo_save (pf : Platform) (r : Receipt) : P Receipt :=
  fun w =>
    if save_ok pf then
      let saved := mkReceipt (generated_id pf) (r_date r) (r_currency r)
                     (r_vendor_name r) (r_receipt_items r) (r_tax r)
                     (r_total r) (image_url r) in
      (Ok saved, mkWorld (dir_exists w) (files w) (saved :: receipts w)
                         (RepoSaved (id saved) :: journal w))
    else (Throw (Error (str "save")), w).

Definition repo_findOne (pf : Platform) (rid : text) : P (option Receipt) :=
  fun w =>
    if find_ok pf then
      (Ok (find (fun r => text_eqb (id r) rid) (receipts w)), w)
    else (Throw (Error (str "findOne")), w).

Definition repo_remove (pf : Platform) (r : Receipt) : P unit :=
  fun w =>
    if remove_ok pf then
      (Ok tt, mkWorld (dir_exists w) (files w)
                (filter (fun x => negb (text_eqb (id x) (id r))) (receipts w))
                (RepoRemoved (id r) :: journal w))
    else (Throw (Error (str "remove")), w).

Definition classified (e : exn) : bool :=
  match e with
  | BadRequestException _ | InternalServerErrorException _ => true
  | _ => false
  end.

Definition extractReceiptDetails (pf : Platform) (imageFile : File)
  : P Receipt :=
  try_catch
    (if negb (isValidImageFile imageFile) then
       throw (BadRequestException msg_file_type)
     else
       imageUrl <- saveImage pf imageFile ;;
       extractedData <-
         (record CalledExtract ;;;
          fun w => (extract pf (buffer imageFile), w)) ;;
       if negb (isValidAiResponse extractedData) then
         deleteImage pf imageUrl ;;;
         throw (InternalServerErrorException msg_invalid_ai)
       else
         savedReceipt <-
           repo_save pf (mkReceipt [] (date extractedData)
                           (currency extractedData)
                           (vendor_name extractedData)
                           (receipt_items extractedData)
                           (tax extractedData) (total extractedData)
                           imageUrl) ;;
         ret savedReceipt)
    (fun error =>
       if classified error then throw error
       else throw (InternalServerErrorException msg_extract_failed)).

Definition deleteReceipt (pf : Platform) (rid : text) : P unit :=
  try_catch
    (receipt <- repo_findOne pf rid ;;
     match receipt with
     | None => throw (BadRequestException msg_not_found)
     | Some r =>
         deleteImage pf (image_url r) ;;;
         repo_remove pf r
     end)
    (fun error =>
       match error with
       | BadRequestException _ => throw error
       | _ => throw (InternalServerErrorException msg_delete_failed)
       end).

End Pipeline.

(* ================================================================== *)
(** * Concrete inputs *)
(* ================================================================== *)

Module Examples.
Import Js Re Exn Json Data AiService Pipeline.

Definition clock0 : Clock := mkClock (str "2026-11-02") (str "11/2/2026").

(** Both remote clients are configured; the first rejects, the second
    rejects, and the local engine throws. *)
Definition engines_down : Engines :=
  mkEngines (Some (GptRejects (Error (str "timeout"))))
            (Some (Throw (Error (str "quota"))))
            (fun _ => Throw (Error (str "worker"))).

(** A platform on which every file-system and database operation
    succeeds; [extname] is the text from the last dot on, [join] puts a
    slash between its arguments. *)
Fixpoint after_last_dot (s : text) : option text :=
  match s with
  | [] => None
  | c :: r =>
      match after_last_dot r with
      | Some e => Some e
      | None => if char_eqb c 46 then Some s else None
      end
  end.

Definition platform0 (answer : result ExtractedReceiptData) : Platform :=
  mkPlatform (fun name => match after_last_dot name with
                          | Some e => e
                          | None => []
                          end)
             (fun a b => a ++ 47%N :: b)
             (str "3f2a") true true (fun _ => answer) (str "r-1")
             true true true.

Definition jpeg_upload : File :=
  mkFile (str "receipt.jpg") (str "image/jpeg") 4 (Some [255; 216; 255; 224]%N).

Definition pdf_upload : File :=
  mkFile (str "receipt.pdf") (str "application/pdf") 4 (Some [37; 80; 68; 70]%N).

(** A JPEG whose declared size is one byte above the maximum. *)
Definition oversize_upload : File :=
  mkFile (str "receipt.jpg") (str "image/jpeg") 10485761
         (Some [255; 216; 255; 224]%N).

Definition empty_world : World := mkWorld false [] [] [].

(** The record of the test suite with a negative tax. *)
Definition negative_tax : ExtractedReceiptData :=
  mkData (JStr (str "2024-01-15")) (JStr (str "USD"))
         (JStr (str "Test Store"))
         [mkItem (JStr (str "Test Item")) (1099 # 100)]
         (- (110 # 100)) (1209 # 100).

(** A platform whose database refuses removals. *)
Definition platform_no_remove : Platform :=
  mkPlatform (fun _ => []) (fun a b => a ++ 47%N :: b) (str "3f2a")
             true true (fun _ => Ok negative_tax) (str "r-1")
             true true false.

(** The record of a failed local OCR pass on the day of [clock0]. *)
Definition ocr_failed_record : ExtractedReceiptData := ocr_failed clock0.

(** One stored receipt and its image in the upload directory. *)
Definition stored_receipt : Receipt :=
  mkReceipt (str "r-1") (JStr (str "2024-01-15")) (JStr (str "USD"))
            (JStr (str "Test Store"))
            [mkItem (JStr (str "Test Item")) (1099 # 100)]
            (110 # 100) (1209 # 100) (str "/uploads/3f2a.jpg").

Definition one_receipt_world : World :=
  mkWorld true [(str "uploads/3f2a.jpg", [255; 216; 255; 224]%N)]
          [stored_receipt] [].

(** [{"currency": 42, "receipt_items": [{"item_name": 7, "item_cost": 1}]}] *)
Definition gpt_untyped_fields : jsval :=
  JObj [(str "currency", JNum 42);
        (str "receipt_items",
         JArr [JObj [(str "item_name", JNum 7); (str "item_cost", JNum 1)]])].

(** The text of the parser's test scenario. *)
Definition test_store_text : text :=
  str "Test Store
123 Main St
Date: 2024-01-15
Item: Test Item $10.99".

Definition test_store_last_line : text := str "Item: Test Item $10.99".

(** A receipt with one item of 1.45, and one whose item has a price of
    2 followed by 306 zeros. *)
Definition tea_receipt : text := str "Shop
Tea 1.45
Bye".

Definition huge_price_receipt : text :=
  str "Shop
Gold 2" ++ repeat 48%N 306 ++ str ".00
Bye".


End Examples.

(* ================================================================== *)
(** * Notions used by the statements *)
(* ================================================================== *)

Module Spec.
Import Js Re Exn Json Data AiService Pipeline Examples.

(** [p] occurs in [t]. *)
Definition contains (p t : text) : Prop :=
  exists pre post, t = pre ++ p ++ post.

(** [p] occurs in [t] as a whole word: the character before it, if any,
    and the character after it, if any, are not word characters. *)
Definition contains_word (p t : text) : Prop :=
  exists pre post,
    t = pre ++ p ++ post
    /\ (forall c, nth_error (rev pre) 0 = Some c -> is_word c = false)
    /\ (forall c, nth_error post 0 = Some c -> is_word c = false).

(** The signature of a currency code occurs in the text. *)
Definition signature (code : string) (t : text) : bool :=
  match find (fun p => text_eqb (fst p) (str code)) currencyPatterns with
  | Some (_, pattern) => test false pattern t
  | None => false
  end.
Arguments signature code%_string t.

(** The image references [deleteImage] was called with, latest first. *)
Fixpoint delete_calls (j : list event) : list text :=
  match j with
  | [] => []
  | CalledDeleteImage u :: j' => u :: delete_calls j'
  | _ :: j' => delete_calls j'
  end.

(** The upload breaks a rule of [validateFile] or of [isValidImageFile]. *)
Definition violates (pf : Platform) (file : File) : Prop :=
  (size file > maxFileSize)%Z
  \/ mem (mimetype file) allowedMimeTypes = false
  \/ mem (toLowerCase (extname pf (originalname file))) allowedExtensions = false
  \/ buffer file = None \/ buffer file = Some [].

(** The record [r] is the one stored under its identifier. *)
Definition stored (r : Receipt) (w : World) : Prop :=
  find (fun x => text_eqb (id x) (id r)) (receipts w) = Some r.

(** The file an image reference resolves to is in the File Store. *)
Definition image_present (pf : Platform) (imageUrl : text) (w : World) : bool :=
  accessible (join pf uploadDir (last_segment imageUrl)) w.

(** The deletion claim as the specification words it: after a successful
    delete of a stored record its image is gone from the File Store. *)
Definition delete_also_removes_image : Prop :=
  forall pf w r w',
    stored r w ->
    deleteReceipt pf (id r) w = (Ok tt, w') ->
    image_present pf (image_url r) w' = false.

(** The scenario as the specification words it: the single item of the
    result is the one the last line yields. *)
Definition item_from_last_line (clk : Clock) : Prop :=
  let p := parseReceiptText clk test_store_text in
  vendor_name p = JStr (str "Test Store")
  /\ currency p = JStr (str "USD")
  /\ exists it,
       receipt_items p = [it]
       /\ line_item test_store_last_line = Some it.

(** Patterns without [^], [\b] or a capture: where they match does
    not depend on what precedes the position. *)
Fixpoint plain (r : regex) : bool :=
  match r with
  | Eps | Chr _ | Cls _ | Rep _ _ _ | Eol => true
  | Seq a b | Alt a b => plain a && plain b
  | Cap _ | Bol | WordB => false
  end.

(** An ISO date with a four-digit year: YYYY-MM-DD. *)
Definition iso_date (d : text) : Prop :=
  exists y1 y2 y3 y4 m1 m2 d1 d2 : char,
    d = [y1; y2; y3; y4; 45%N; m1; m2; 45%N; d1; d2]
    /\ Forall (fun c => is_digit c = true) [y1; y2; y3; y4; m1; m2; d1; d2].

(** No date pattern matches at a position before the end of [pre]. *)
Definition no_earlier_date (pre t : text) : Prop :=
  forall ci r i,
    In (ci, r) datePatterns -> i < length pre -> match_at ci t r i = None.

(** The date claim as the specification words it. *)
Definition iso_date_is_truncated (clk : Clock) : Prop :=
  forall pre d post,
    iso_date d ->
    no_earlier_date pre (pre ++ d ++ post) ->
    extractDate clk (pre ++ d ++ post) = skipn 2 d.

(** The cost of an item is not negative. *)
Definition nonneg_cost (it : item) : Prop := (0 <= item_cost it)%Q.

(** The first clause of the currency claim as the specification words it:
    a text in which "CHF" occurs yields "CHF" (no signature has a higher
    priority). *)
Definition chf_by_occurrence : Prop :=
  forall t, contains (str "CHF") t -> extractCurrency t = str "CHF".

(** All attempted remote backends fail and the local OCR pass throws at
    call [n]. *)
Definition all_backends_fail (clk : Clock) (en : Engines) (n : nat) : Prop :=
  (forall g, openaiClient en = Some g ->
             exists e, extractWithGpt4Vision clk g = Throw e)
  /\ (forall v, visionClient en = Some v ->
                exists e, extractWithVisionApi clk v = Throw e)
  /\ (exists e, recognize en n = Throw e).

End Spec.

(* ================================================================== *)
(** * The two-tier extraction service *)
(* ================================================================== *)

(** [AiService] as [modules/ai/ai.service.ts] has it: the same text
    parser and local OCR pass, with the text-detection client as the only
    remote backend. *)
Module AiServiceTwoTier.
Import Js Re Exn Json Data AiService.

Definition extractReceiptData (clk : Clock) (en : Engines)
  : M ExtractedReceiptData :=
  try_catch
    (match visionClient en with
     | Some v => fun n => (extractWithVisionApi clk v, n)
     | None => fallbackParsing clk en
     end)
    (fun _ => fallbackParsing clk en).

End AiServiceTwoTier.

(* ================================================================== *)
(** * Reading the stores, and the controller *)
(* ================================================================== *)

Module Queries.
Import Js Exn Json Data Pipeline.

(** What [getImageInfo] returns; its [size] field is never set. *)
Record ImageInfo : Type := mkInfo {
  info_exists : bool;
  info_path : option text
}.

(** [StorageService.getImageInfo]: it reads the File Store and catches
    whatever [access] throws. *)
Definition getImageInfo (pf : Platform) (imageUrl : text) (w : World)
  : ImageInfo :=
  match last_segment imageUrl with
  | [] => mkInfo false None
  | filename =>
      let filepath := join pf uploadDir filename in
      if accessible filepath w then mkInfo true (Some filepath)
      else mkInfo false None
  end.

Definition msg_retrieve_failed := str "Failed to retrieve receipt.".

(** [ReceiptService.getReceiptById]; the response carries the fields of
    the entity. *)
Definition getReceiptById (pf : Platform) (rid : text) : P Receipt :=
  try_catch
    (receipt <- repo_findOne pf rid ;;
     match receipt with
     | None => throw (BadRequestException msg_not_found)
     | Some r => ret r
     end)
    (fun error =>
       match error with
       | BadRequestException _ => throw error
       | _ => throw (InternalServerErrorException msg_retrieve_failed)
       end).

Definition msg_no_file :=
  str "No image file provided. Please upload an image file.".

(** [ReceiptController.extractReceiptDetails]: [None] is a request
    without the [image] part. *)
Definition controller_extractReceiptDetails (pf : Platform)
           (file : option File) : P Receipt :=
  match file with
  | None => throw (BadRequestException msg_no_file)
  | Some f =>
      try_catch (extractReceiptDetails pf f) (fun error => throw error)
  end.

End Queries.

(* ================================================================== *)
(** * Further notions used by the statements *)
(* ================================================================== *)

Module Spec2.
Import Js Re Exn Json Data AiService Pipeline Spec.

(** The least number of characters a match of the pattern consumes. *)
Fixpoint minlen (r : regex) : nat :=
  match r with
  | Eps | Bol | Eol | WordB => 0
  | Chr _ | Cls _ => 1
  | Seq a b => minlen a + minlen b
  | Alt a b => Nat.min (minlen a) (minlen b)
  | Rep lo _ _ => lo
  | Cap a => minlen a
  end.

(** No character of the text is a digit. *)
Definition no_digit (t : text) : Prop := Forall (fun c => is_digit c = false) t.

(** Every character of the text is white space. *)
Definition blank (t : text) : Prop := Forall (fun c => is_space c = true) t.

(** The items a line contributes. *)
Definition items_of_line (line : text) : list item :=
  match line_item line with
  | Some it => [it]
  | None => []
  end.

(** The six currency codes. *)
Definition currency_codes : list text :=
  [str "CHF"; str "USD"; str "EUR"; str "GBP"; str "CAD"; str "AUD"].

(** The object a record is as JSON. *)
Definition item_json (it : item) : jsval :=
  JObj [(str "item_name", item_name it); (str "item_cost", JNum (item_cost it))].

Definition record_json (d : ExtractedReceiptData) : jsval :=
  JObj [(str "date", date d);
        (str "currency", currency d);
        (str "vendor_name", vendor_name d);
        (str "receipt_items", JArr (List.map item_json (receipt_items d)));
        (str "tax", JNum (tax d));
        (str "total", JNum (total d))].

(** A record whose text fields and item names are truthy, with at least
    one item and a total that is not 0. *)
Definition complete (d : ExtractedReceiptData) : Prop :=
  truthy (date d) = true /\ truthy (currency d) = true
  /\ truthy (vendor_name d) = true
  /\ receipt_items d <> []
  /\ Forall (fun it => truthy (item_name it) = true) (receipt_items d)
  /\ Qeq_bool (total d) 0 = false.

(** The value is [null], or an array under [receipt_items] holds a
    [null]. *)
Definition has_null (data : jsval) : Prop :=
  data = JNull
  \/ exists fs l, data = JObj fs
                  /\ lookup (str "receipt_items") fs = Some (JArr l)
                  /\ In JNull l.

(** Every remote backend that is configured fails. *)
Definition remote_backends_fail (clk : Clock) (en : Engines) : Prop :=
  (forall g, openaiClient en = Some g ->
             exists e, extractWithGpt4Vision clk g = Throw e)
  /\ (forall v, visionClient en = Some v ->
                exists e, extractWithVisionApi clk v = Throw e).

(** The structured backend is absent or fails. *)
Definition gpt_unavailable (clk : Clock) (en : Engines) : Prop :=
  forall g, openaiClient en = Some g ->
            exists e, extractWithGpt4Vision clk g = Throw e.

(** The replies on which the structured backend fails. *)
Definition gpt_failure (g : gpt_reply) : Prop :=
  match g with
  | GptRejects _ | GptNoContent | GptContent (Throw _) => True
  | GptContent (Ok data) => has_null data
  end.

(** The file passes every rule of [validateFile]. *)
Definition acceptable (pf : Platform) (file : File) : Prop :=
  (size file <= maxFileSize)%Z
  /\ mem (toLowerCase (extname pf (originalname file))) allowedExtensions = true
  /\ mem (mimetype file) allowedMimeTypes = true
  /\ exists b0 b, buffer file = Some (b0 :: b).

(** The reference [saveImage] returns for a file. *)
Definition image_reference (pf : Platform) (file : File) : text :=
  str "/uploads/" ++ generateSecureFilename pf (originalname file).

(** Every white-space character of the text is a U+0020 that has a
    character which is not white space right after it. *)
Fixpoint single_spaced (t : text) : bool :=
  match t with
  | [] => true
  | c :: r =>
      ((if is_space c
        then char_eqb c 32
             && match r with
                | d :: _ => negb (is_space d)
                | [] => false
                end
        else true)
       && single_spaced r)%bool
  end.

End Spec2.

(* ================================================================== *)
(** * The parsed numbers in binary64 *)
(* ================================================================== *)

(** The numbers of the text parser as the engine holds them: IEEE-754
    binary64 values, here the [spec_float] of the Standard Library at
    precision 53 and exponent bound 1024, every operation rounding to the
    nearest value, ties to even.  [AiService] above carries a price as the
    decimal it was read from; [of_Q] is the Number that [parseFloat]
    returns for that decimal, and [calculateTotals] below works on these
    Numbers, operation by operation, as the source does. *)
Module Binary64.
Import Js Json.
#[local] Unset Implicit Arguments.
Local Open Scope Z_scope.

Definition prec : Z := 53.
Definition emax : Z := 1024.
Definition f64 : Type := spec_float.

Definition zero : f64 := S754_zero false.
Definition add : f64 -> f64 -> f64 := SFadd prec emax.
Definition mul : f64 -> f64 -> f64 := SFmul prec emax.
Definition div : f64 -> f64 -> f64 := SFdiv prec emax.

(** The Number of a whole number. *)
Definition of_Z (n : Z) : f64 := binary_normalize prec emax n 0 false.

(** The Number of a decimal literal of value [q]: the nearest binary64
    value, ties to even, an infinity beyond the largest one. *)
Definition of_Q (q : Q) : f64 :=
  match Qnum q with
  | Z0 => zero
  | Zpos n =>
      let '(m, e, l) :=
        SFdiv_core_binary prec emax (Zpos n) 0 (Zpos (Qden q)) 0 in
      binary_round_aux prec emax false m e l
  | Zneg n =>
      let '(m, e, l) :=
        SFdiv_core_binary prec emax (Zpos n) 0 (Zpos (Qden q)) 0 in
      binary_round_aux prec emax true m e l
  end.

(** [Math.round]: the nearest whole number, a half going up; a whole
    number, an infinity and NaN are returned as they are, and a value in
    [-0.5, 0) gives -0. *)
Definition Math_round (x : f64) : f64 :=
  match x with
  | S754_finite s m e =>
      if 0 <=? e then x
      else
        let k := - e in
        let sm := if s then Zneg m else Zpos m in
        let n := (2 * sm + 2 ^ k) / 2 ^ (k + 1) in
        if n =? 0 then S754_zero s else of_Z n
  | _ => x
  end.

(** The literals [0.1] and [100]. *)
Definition tenth : f64 := of_Q (1 # 10).
Definition hundred : f64 := of_Z 100.

(** [Math.round(x * 100) / 100] *)
Definition round2 (x : f64) : f64 := div (Math_round (mul x hundred)) hundred.

Record item : Type := mkItem {
  item_name : jsval;
  item_cost : f64
}.

Record ExtractedReceiptData : Type := mkData {
  date : jsval;
  currency : jsval;
  vendor_name : jsval;
  receipt_items : list item;
  tax : f64;
  total : f64
}.

(** An item of [AiService.extractItems] with its price as the Number
    [parseFloat] returned. *)
Definition to_number (it : Data.item) : item :=
  mkItem (Data.item_name it) (of_Q (Data.item_cost it)).

Definition extractItems (lines : list text) : list item :=
  map to_number (AiService.extractItems lines).

Definition calculateTotals (items : list item) : f64 * f64 :=
  let subtotal := fold_left (fun sum it => add sum (item_cost it)) items zero in
  let tax := mul subtotal tenth in
  let total := add subtotal tax in
  (round2 tax, round2 total).

Definition parseReceiptText (clk : Data.Clock) (t : text)
  : ExtractedReceiptData :=
  let lines := AiService.split_lines t in
  let vendorName := AiService.extractVendorName lines in
  let date := AiService.extractDate clk t in
  let currency := AiService.extractCurrency t in
  let items := extractItems lines in
  let (tax, total) := calculateTotals items in
  mkData (JStr date) (JStr currency) (JStr vendorName) items tax total.

(** ** The value of a Number *)

Definition pow2 (e : Z) : Q := (2 ^ e)%Q.

(** The rational a finite Number stands for (0 for the others). *)
Definition val (x : f64) : Q :=
  match x with
  | S754_finite s m e =>
      if s then (- (inject_Z (Zpos m) * pow2 e))%Q
      else (inject_Z (Zpos m) * pow2 e)%Q
  | _ => 0%Q
  end.

Definition is_finite (x : f64) : bool :=
  match x with
  | S754_zero _ | S754_finite _ _ _ => true
  | _ => false
  end.

(** A Number that is +0, a positive binary64 value or +Infinity. *)
Definition nonneg (x : f64) : bool :=
  match x with
  | S754_zero false | S754_infinity false => true
  | S754_finite false m e => bounded prec emax m e
  | _ => false
  end.

(** The total is finite and within one cent of the sum of the item
    costs plus the tax. *)
Definition within_a_cent (p : ExtractedReceiptData) : Prop :=
  let subtotal :=
    fold_left (fun sum it => add sum (item_cost it)) (receipt_items p) zero in
  is_finite (total p) = true
  /\ (- (1 # 100) <= val (total p) - (val subtotal + val (tax p))
      <= 1 # 100)%Q.


(** ** Notions of the rounding proofs *)

(** The unit roundoff and half the smallest positive Number. *)
Definition u : Q := pow2 (-53).
Definition eta : Q := pow2 (-1075).
Definition uq : Q := 1 # 9007199254740992.
Definition tiny : Q := 1 # 1000000000000000000000000000000.

(** The exponent of the format at a given magnitude. *)
Definition fexp64 (e : Z) : Z := Z.max (e - 53) (-1074).

(** The result of a rounding from its mantissa and exponent. *)
Definition pack (s : bool) (M E : Z) : f64 :=
  match M with
  | Z0 => S754_zero s
  | Zpos p => if E <=? 971 then S754_finite s p E else S754_infinity s
  | Zneg _ => S754_nan
  end.

(** The shift record holds the integer part of [N / D], with the round
    bit and the sticky bit of the remainder. *)
Definition rec_ok (N D : Z) (mrs : shr_record) : Prop :=
  shr_m mrs = N / D
  /\ shr_r mrs = (D <=? 2 * (N mod D))
  /\ shr_s mrs = (negb (N mod D =? 0) && negb (2 * (N mod D) =? D))%bool.

End Binary64.


(* ================================================================== *)
(** * The extraction never fails *)
(* ================================================================== *)

Module OrchestratorProofs.
Import Js Re Exn Json Data AiService Spec Examples.

Lemma fallbackParsing_returns clk en n :
  exists d, fallbackParsing clk en n = (Ok d, S n).
Proof.
  unfold fallbackParsing. destruct (recognize en n); eauto.
Qed.

Lemma fallbackParsing_ocr_throws clk en n e :
  recognize en n = Throw e ->
  fallbackParsing clk en n = (Ok (ocr_failed clk), S n).
Proof.
  intros H. unfold fallbackParsing. now rewrite H.
Qed.

Lemma from_vision_returns clk en n :
  exists d n', from_vision clk en n = (Ok d, n').
Proof.
  unfold from_vision.
  destruct (visionClient en) as [v|].
  - destruct (extractWithVisionApi clk v) as [d|e].
    + exists d, n. reflexivity.
    + destruct (fallbackParsing_returns clk en n) as [d Hd]. eauto.
  - destruct (fallbackParsing_returns clk en n) as [d Hd]. eauto.
Qed.

Lemma from_gpt_returns clk en n :
  exists d n', from_gpt clk en n = (Ok d, n').
Proof.
  unfold from_gpt.
  destruct (openaiClient en) as [g|].
  - destruct (extractWithGpt4Vision clk g) as [d|e].
    + exists d, n. reflexivity.
    + apply from_vision_returns.
  - apply from_vision_returns.
Qed.

(** C1. [extractReceiptData] returns a record for every configuration of
    the engines and every outcome of their calls; when every attempted
    backend fails and the local OCR pass throws too, the record is the
    hard-coded one: vendor "Unknown Vendor (OCR failed)", today's date,
    "USD", the single item "Receipt Items" of cost 0, tax 0 and total 0. *)
Theorem extractReceiptData_never_fails clk en n :
  (exists d n', extractReceiptData clk en n = (Ok d, n'))
  /\ (all_backends_fail clk en n ->
      extractReceiptData clk en n
      = (Ok (mkData (JStr (today_locale clk)) (JStr (str "USD"))
                    (JStr (str "Unknown Vendor (OCR failed)"))
                    [mkItem (JStr (str "Receipt Items")) 0%Q] 0%Q 0%Q),
         S n)).
Proof.
  split.
  - unfold extractReceiptData, try_catch.
    destruct (from_gpt_returns clk en n) as (d & n' & H).
    rewrite H. eauto.
  - intros (Hg & Hv & (e & He)).
    pose proof (fallbackParsing_ocr_throws clk en n He) as Hf.
    unfold extractReceiptData, try_catch, from_gpt, from_vision.
    destruct (openaiClient en) as [g|].
    + destruct (Hg g eq_refl) as [eg Heg]. rewrite Heg.
      destruct (visionClient en) as [v|].
      * destruct (Hv v eq_refl) as [ev Hev]. rewrite Hev.
        rewrite Hf. reflexivity.
      * rewrite Hf. reflexivity.
    + destruct (visionClient en) as [v|].
      * destruct (Hv v eq_refl) as [ev Hev]. rewrite Hev.
        rewrite Hf. reflexivity.
      * rewrite Hf. reflexivity.
Qed.

Lemma extractReceiptData_never_fails_witness :
  all_backends_fail clock0 engines_down 0
  /\ extractReceiptData clock0 engines_down 0
     = (Ok (mkData (JStr (str "11/2/2026")) (JStr (str "USD"))
                   (JStr (str "Unknown Vendor (OCR failed)"))
                   [mkItem (JStr (str "Receipt Items")) 0%Q] 0%Q 0%Q), 1).
Proof.
  assert (H : all_backends_fail clock0 engines_down 0).
  { repeat split.
    - intros g Hg. injection Hg as <-. eexists. reflexivity.
    - intros v Hv. injection Hv as <-. eexists. reflexivity.
    - eexists. reflexivity. }
  split.
  - exact H.
  - exact (proj2 (extractReceiptData_never_fails clock0 engines_down 0) H).
Defined.

End OrchestratorProofs.

(* ================================================================== *)
(** * The upload pipeline *)
(* ================================================================== *)

Module PipelineProofs.
Import Js Re Exn Json Data Pipeline Spec Examples.

Lemma validateFile_violation pf file w :
  isValidImageFile file = true ->
  violates pf file ->
  exists msg, validateFile pf file w = (Throw (BadRequestException msg), w).
Proof.
  intros Hm Hv. unfold validateFile.
  destruct (size file >? maxFileSize)%Z eqn:Hs; [eexists; reflexivity|].
  destruct (mem (toLowerCase (extname pf (originalname file))) allowedExtensions)
    eqn:He; cbn [negb]; [|eexists; reflexivity].
  destruct (mem (mimetype file) allowedMimeTypes) eqn:Hmt; cbn [negb];
    [|eexists; reflexivity].
  destruct Hv as [H|[H|[H|[H|H]]]].
  - rewrite Z.gtb_ltb in Hs. apply Z.ltb_ge in Hs. lia.
  - congruence.
  - congruence.
  - rewrite H. eexists; reflexivity.
  - rewrite H. eexists; reflexivity.
Qed.

(** [validateFile] has no effect, whatever its outcome. *)
Lemma validateFile_pure pf file w r w' :
  validateFile pf file w = (r, w') -> w' = w.
Proof.
  unfold validateFile.
  repeat match goal with
         | |- context [if ?b then _ else _] => destruct b
         | |- context [match buffer file with _ => _ end] =>
             destruct (buffer file) as [[|]|]
         end; cbv [throw ret]; intros H; now inversion H.
Qed.

(** C7. An upload that breaks a validation rule (declared size above the
    maximum, MIME type or extension outside the allow-list, no or empty
    buffer) makes the pipeline fail with a client fault, and leaves the
    File Store, the Record Store and the journal of calls as they were:
    nothing is written, extracted or persisted. *)
Theorem invalid_upload_is_client_fault pf file w :
  violates pf file ->
  exists msg,
    extractReceiptDetails pf file w = (Throw (BadRequestException msg), w).
Proof.
  intros Hv. unfold extractReceiptDetails, try_catch.
  destruct (isValidImageFile file) eqn:Hm; cbn [negb].
  - destruct (validateFile_violation w Hm Hv) as [msg Hmsg].
    exists msg.
    unfold bind at 1. unfold saveImage, try_catch. unfold bind at 1.
    rewrite Hmsg. reflexivity.
  - eexists. reflexivity.
Qed.

Lemma deleteImage_effect pf imageUrl w :
  exists w',
    deleteImage pf imageUrl w = (Ok tt, w')
    /\ dir_exists w' = dir_exists w
    /\ files w' = files w
    /\ receipts w' = receipts w
    /\ delete_calls (journal w') = imageUrl :: delete_calls (journal w).
Proof.
  unfold deleteImage, bind, record. cbn.
  destruct (last_segment imageUrl) as [|c fn].
  - eexists. cbn. repeat split; reflexivity.
  - match goal with |- context [accessible ?p ?x] => destruct (accessible p x) end;
      eexists; cbn; repeat split; reflexivity.
Qed.

(** [saveImage] neither touches the Record Store nor calls
    [deleteImage]; when it succeeds the MIME type was an allowed one. *)
Lemma saveImage_effect pf file w r w1 :
  saveImage pf file w = (r, w1) ->
  receipts w1 = receipts w
  /\ delete_calls (journal w1) = delete_calls (journal w)
  /\ (forall u, r = Ok u -> isValidImageFile file = true).
Proof.
  unfold saveImage, try_catch. unfold bind at 1.
  destruct (validateFile pf file w) as [[[]|e] w'] eqn:Hv.
  - apply validateFile_pure in Hv as Hw; subst w'.
    assert (Hm : isValidImageFile file = true).
    { revert Hv. unfold validateFile, isValidImageFile.
      destruct (size file >? maxFileSize)%Z; [discriminate|].
      destruct (mem (toLowerCase _) allowedExtensions); [|discriminate].
      destruct (mem (mimetype file) allowedMimeTypes) eqn:E; [|discriminate].
      intros _. exact E. }
    unfold bind, ensureUploadDirectory, writeFile, ret, throw.
    destruct (dir_exists w), (mkdir_ok pf), (write_ok pf); cbn;
      intros H; inversion H; subst; cbn; repeat split; auto; discriminate.
  - apply validateFile_pure in Hv as Hw; subst w'.
    destruct e; cbn; intros H; inversion H; subst; repeat split; auto;
      discriminate.
Qed.

(** C8. When the image is saved and the extracted record fails the
    validation of [isValidAiResponse], the pipeline calls [deleteImage]
    once, with the reference [saveImage] returned, then fails with the
    server fault "AI model returned invalid or incomplete data."; the
    Record Store is unchanged. *)
Theorem invalid_record_deletes_image_then_fails pf file w imageUrl w1 data :
  saveImage pf file w = (Ok imageUrl, w1) ->
  extract pf (buffer file) = Ok data ->
  isValidAiResponse data = false ->
  exists w2,
    extractReceiptDetails pf file w
    = (Throw (InternalServerErrorException msg_invalid_ai), w2)
    /\ delete_calls (journal w2) = imageUrl :: delete_calls (journal w)
    /\ receipts w2 = receipts w.
Proof.
  intros Hs He Hd.
  destruct (saveImage_effect _ _ _ Hs) as (Hr & Hj & Hm).
  specialize (Hm imageUrl eq_refl).
  unfold extractReceiptDetails, try_catch. rewrite Hm. cbn [negb].
  unfold bind at 1. rewrite Hs.
  unfold bind at 1. unfold bind at 1. unfold record at 1. rewrite He.
  rewrite Hd. cbn [negb].
  unfold bind at 1.
  match goal with
  | |- context [deleteImage pf imageUrl ?x] =>
      destruct (deleteImage_effect pf imageUrl x) as (w2 & Hdel & _ & _ & Hr2 & Hj2)
  end.
  rewrite Hdel. cbn.
  exists w2. split; [reflexivity|]. split.
  - rewrite Hj2. cbn. now rewrite Hj.
  - rewrite Hr2. cbn. exact Hr.
Qed.

Lemma invalid_record_deletes_image_then_fails_witness :
  exists w2,
    extractReceiptDetails (platform0 (Ok negative_tax)) jpeg_upload empty_world
    = (Throw (InternalServerErrorException msg_invalid_ai), w2)
    /\ delete_calls (journal w2) = [str "/uploads/3f2a.jpg"]
    /\ receipts w2 = [].
Proof.
  apply (@invalid_record_deletes_image_then_fails
           (platform0 (Ok negative_tax)) jpeg_upload empty_world
           (str "/uploads/3f2a.jpg")
           (mkWorld true [(str "uploads/3f2a.jpg", [255; 216; 255; 224]%N)] []
                    [WroteFile (str "uploads/3f2a.jpg")])
           negative_tax).
  - vm_compute. reflexivity.
  - reflexivity.
  - vm_compute. reflexivity.
Defined.

Lemma invalid_upload_is_client_fault_witness :
  (exists msg,
     extractReceiptDetails (platform0 (Ok negative_tax)) pdf_upload empty_world
     = (Throw (BadRequestException msg), empty_world))
  /\ (exists msg,
        extractReceiptDetails (platform0 (Ok negative_tax)) oversize_upload
          empty_world
        = (Throw (BadRequestException msg), empty_world)).
Proof.
  split.
  - apply invalid_upload_is_client_fault.
    right; left. vm_compute. reflexivity.
  - apply invalid_upload_is_client_fault.
    left. vm_compute. reflexivity.
Defined.

Lemma find_filter_negb (A : Type) (p : A -> bool) (l : list A) :
  find p (filter (fun x => negb (p x)) l) = None.
Proof.
  induction l as [|a l IH]; cbn; [reflexivity|].
  destruct (p a) eqn:E; cbn; [exact IH|].
  rewrite E. exact IH.
Qed.

(** C9, as stated, fails: deleting the stored receipt of
    [one_receipt_world] succeeds and leaves its image file in the upload
    directory. *)
Lemma delete_keeps_image_file : ~ delete_also_removes_image.
Proof.
  intros H.
  specialize (H (platform0 (Ok negative_tax)) one_receipt_world stored_receipt
                (mkWorld true [(str "uploads/3f2a.jpg", [255; 216; 255; 224]%N)] []
                   [RepoRemoved (str "r-1");
                    MarkedForDeletion (str "3f2a.jpg");
                    CalledDeleteImage (str "/uploads/3f2a.jpg")])).
  assert (E : image_present (platform0 (Ok negative_tax))
                (image_url stored_receipt)
                (mkWorld true [(str "uploads/3f2a.jpg", [255; 216; 255; 224]%N)] []
                   [RepoRemoved (str "r-1");
                    MarkedForDeletion (str "3f2a.jpg");
                    CalledDeleteImage (str "/uploads/3f2a.jpg")]) = true)
    by (vm_compute; reflexivity).
  rewrite H in E.
  - discriminate.
  - vm_compute. reflexivity.
  - vm_compute. reflexivity.
Qed.

(** C9, amended. Deleting a stored record, when the database accepts the
    lookup and the removal, removes the record from the Record Store and
    calls [deleteImage] once on the record's image reference.  That call
    only checks that the file is there and logs the outcome: the File
    Store keeps every file, and whether the file is found or not the
    record is removed. *)
Theorem deleteReceipt_removes_record pf w r :
  find_ok pf = true ->
  remove_ok pf = true ->
  stored r w ->
  exists w',
    deleteReceipt pf (id r) w = (Ok tt, w')
    /\ find (fun x => text_eqb (id x) (id r)) (receipts w') = None
    /\ receipts w'
       = filter (fun x => negb (text_eqb (id x) (id r))) (receipts w)
    /\ delete_calls (journal w') = image_url r :: delete_calls (journal w)
    /\ files w' = files w.
Proof.
  intros Hf Hrm Hst. unfold stored in Hst.
  unfold deleteReceipt, try_catch. unfold bind at 1.
  unfold repo_findOne. rewrite Hf, Hst.
  unfold bind at 1.
  destruct (deleteImage_effect pf (image_url r) w)
    as (w1 & Hdel & _ & Hfiles & Hrec & Hj).
  rewrite Hdel. unfold repo_remove. rewrite Hrm.
  eexists. split; [reflexivity|]. cbn.
  rewrite Hrec, Hfiles, Hj.
  repeat split; auto.
  apply find_filter_negb.
Qed.

Lemma deleteReceipt_removes_record_witness :
  exists w',
    deleteReceipt (platform0 (Ok negative_tax)) (str "r-1") one_receipt_world
    = (Ok tt, w')
    /\ find (fun x => text_eqb (id x) (str "r-1")) (receipts w') = None
    /\ receipts w' = []
    /\ delete_calls (journal w') = [str "/uploads/3f2a.jpg"]
    /\ files w' = files one_receipt_world.
Proof.
  apply (@deleteReceipt_removes_record (platform0 (Ok negative_tax))
           one_receipt_world stored_receipt).
  - reflexivity.
  - reflexivity.
  - vm_compute. reflexivity.
Defined.

End PipelineProofs.

(* ================================================================== *)
(** * Facts about strings and the matcher *)
(* ================================================================== *)

Module ReFacts.
Import Js Re Spec.

Lemma skipn_at (s : text) (i : nat) (c : char) :
  nth_error s i = Some c -> exists rest, skipn i s = c :: rest.
Proof.
  revert i. induction s as [|x s IH]; intros [|i] H; cbn in *; try discriminate.
  - injection H as ->. eauto.
  - apply IH. exact H.
Qed.

Lemma skipn_past (s : text) (i : nat) :
  nth_error s i = None -> skipn i s = [].
Proof.
  intros H. apply skipn_all2. now apply nth_error_None.
Qed.

(** A start position found by the search is not before the first one
    tried, and the pattern matches there. *)
Lemma search_from_sound ci s r fuel i a b c :
  search_from ci s r fuel i = Some (a, b, c) ->
  i <= a /\ match_at ci s r a = Some (b, c).
Proof.
  revert i. induction fuel as [|f IH]; intros i; cbn.
  - destruct (match_at ci s r i) as [[j cap]|] eqn:E; [|discriminate].
    intros H. injection H as <- <- <-. auto.
  - destruct (match_at ci s r i) as [[j cap]|] eqn:E.
    + intros H. injection H as <- <- <-. auto.
    + intros H. apply IH in H. destruct H. split; [lia|assumption].
Qed.

(** No match at the positions tried means no result. *)
Lemma search_from_none ci s r fuel i :
  search_from ci s r fuel i = None ->
  forall k, k <= fuel -> match_at ci s r (i + k) = None.
Proof.
  revert i. induction fuel as [|f IH]; intros i; cbn;
    destruct (match_at ci s r i) as [[j cap]|] eqn:E; try discriminate.
  - intros _ k Hk. replace (i + k) with i by lia. exact E.
  - intros H [|k] Hk.
    + now rewrite Nat.add_0_r.
    + replace (i + S k) with (S i + k) by lia. apply IH; [exact H|lia].
Qed.

(** Positions without a match are skipped. *)
Lemma search_from_skip ci s r n : forall fuel i,
  n <= fuel ->
  (forall k, k < n -> match_at ci s r (i + k) = None) ->
  search_from ci s r fuel i = search_from ci s r (fuel - n) (i + n).
Proof.
  induction n as [|n IH]; intros fuel i Hn Hnone.
  - now rewrite Nat.sub_0_r, Nat.add_0_r.
  - destruct fuel as [|f]; [lia|]. cbn [search_from].
    pose proof (Hnone 0 ltac:(lia)) as H0. rewrite Nat.add_0_r in H0.
    rewrite H0. rewrite (IH f (S i)).
    + now replace (S i + n) with (i + S n) by lia.
    + lia.
    + intros k Hk. replace (S i + k) with (i + S k) by lia.
      apply Hnone. lia.
Qed.

Lemma search_from_hit ci s r fuel i j cap :
  match_at ci s r i = Some (j, cap) ->
  search_from ci s r fuel i = Some (i, j, cap).
Proof.
  intros H. destruct fuel; cbn; now rewrite H.
Qed.

(** A pattern that matches somewhere is found by [test]. *)
Lemma test_complete ci s r i :
  i <= length s -> match_at ci s r i <> None -> test ci r s = true.
Proof.
  intros Hi Hm. unfold test, exec.
  destruct (search_from ci s r (length s) 0) as [x|] eqn:E; [reflexivity|].
  exfalso. apply Hm. change i with (0 + i). eapply search_from_none; eassumption.
Qed.

(** [\s+...] cannot start on a character that is not a space. *)
Lemma spaces_need_space (s : text) hi i (A : Type) (k : nat -> option A) :
  (forall c, nth_error s i = Some c -> is_space c = false) ->
  backoff k i 1 (run [ASpace] hi (skipn i s)) = None.
Proof.
  intros H.
  destruct (nth_error s i) as [c|] eqn:E.
  - destruct (@skipn_at s i c E) as [rest ->].
    cbn. rewrite (H c eq_refl). reflexivity.
  - rewrite (@skipn_past s i E). reflexivity.
Qed.

Lemma drop_space_head (s : text) c r :
  drop_space s = c :: r -> is_space c = false.
Proof.
  induction s as [|x s IH]; cbn; [discriminate|].
  destruct (is_space x) eqn:E; [exact IH|].
  intros H. injection H as <- <-. exact E.
Qed.

Lemma drop_space_snoc (a : text) c :
  is_space c = false -> exists x, drop_space (a ++ [c]) = x ++ [c].
Proof.
  intros Hc. induction a as [|y a IH]; cbn.
  - rewrite Hc. exists []. reflexivity.
  - destruct (is_space y).
    + exact IH.
    + exists (y :: a). reflexivity.
Qed.

(** Trimming keeps a first character that is not a space. *)
Lemma trim_keeps_head c (u : text) :
  is_space c = false -> exists v, trim (c :: u) = c :: v.
Proof.
  intros Hc. unfold trim. cbn [drop_space]. rewrite Hc.
  cbn [rev]. destruct (@drop_space_snoc (rev u) c Hc) as [x ->].
  rewrite rev_app_distr. cbn. eauto.
Qed.

(** A trimmed string does not start with a space. *)
Lemma trim_head (s : text) c r :
  trim s = c :: r -> is_space c = false.
Proof.
  unfold trim. destruct (drop_space s) as [|h t] eqn:E.
  - cbn. discriminate.
  - pose proof (@drop_space_head s h t E) as Hh.
    cbn [rev]. destruct (@drop_space_snoc (rev t) h Hh) as [x ->].
    rewrite rev_app_distr. cbn. intros H. injection H as <- _. exact Hh.
Qed.

Lemma nth_error_after (pre l : text) (k : nat) :
  nth_error (pre ++ l) (k + length pre) = nth_error l k.
Proof.
  rewrite nth_error_app2 by lia. f_equal. lia.
Qed.

Lemma nth_error_last (pre l : text) (n : nat) :
  length pre = S n -> nth_error (pre ++ l) n = nth_error (rev pre) 0.
Proof.
  intros H. rewrite nth_error_app1 by lia.
  destruct (rev pre) as [|x rp] eqn:E.
  - apply (f_equal (@length _)) in E. rewrite length_rev in E. cbn in E. lia.
  - assert (Hp : pre = rev rp ++ [x]).
    { rewrite <- (rev_involutive pre), E. reflexivity. }
    rewrite Hp in H |- *. rewrite length_app, length_rev in H. cbn in H.
    rewrite nth_error_app2 by (rewrite length_rev; lia).
    rewrite length_rev. replace (n - length rp) with 0 by lia. reflexivity.
Qed.

Lemma chr_eq_refl ci c : chr_eq ci c c = true.
Proof.
  unfold chr_eq, char_eqb. destruct ci; apply N.eqb_refl.
Qed.

(** An alternative that starts with a literal matches where the literal
    stands. *)
Lemma alt_chr_matches ci (t : text) c r i :
  nth_error t i = Some c -> match_at ci t (Alt (Chr c) r) i <> None.
Proof.
  intros H. unfold match_at. cbn [rmatch]. rewrite H, chr_eq_refl.
  discriminate.
Qed.

Lemma test_of_occurrence ci c r (t : text) :
  (exists pre post, t = pre ++ [c] ++ post) ->
  test ci (Alt (Chr c) r) t = true.
Proof.
  intros (pre & post & ->).
  apply test_complete with (i := length pre).
  - rewrite length_app. lia.
  - apply alt_chr_matches.
    exact (nth_error_after pre ([c] ++ post) 0).
Qed.

Lemma skipn_after (pre l : text) (k : nat) :
  skipn (length pre + k) (pre ++ l) = skipn k l.
Proof.
  rewrite skipn_app, skipn_all2 by lia.
  replace (length pre + k - length pre) with k by lia. reflexivity.
Qed.

Lemma backoff_ext (A : Type) (k1 k2 : nat -> option A) i lo n :
  (forall j, k1 j = k2 j) -> backoff k1 i lo n = backoff k2 i lo n.
Proof.
  intros H. induction n as [|n IH]; cbn; rewrite H; [reflexivity|].
  now rewrite IH.
Qed.

Lemma backoff_shift (A : Type) (k : nat -> option A) p i lo n :
  backoff k (p + i) lo n = backoff (fun j => k (p + j)) i lo n.
Proof.
  induction n as [|n IH]; cbn; rewrite Nat.add_assoc; [reflexivity|].
  now rewrite IH.
Qed.

(** The result depends on the continuation pointwise. *)
Lemma rmatch_ext ci (s : text) (A : Type) (r : regex) :
  forall i cap (k1 k2 : nat -> capture -> option A),
    (forall j c, k1 j c = k2 j c) ->
    rmatch ci s r i cap k1 = rmatch ci s r i cap k2.
Proof.
  induction r; intros i cap k1 k2 H; cbn [rmatch].
  - apply H.
  - destruct (nth_error s i); [|reflexivity].
    destruct (chr_eq ci c c0); [apply H|reflexivity].
  - destruct (nth_error s i); [|reflexivity].
    destruct (cls_mem cs c); [apply H|reflexivity].
  - apply IHr1. intros j c. now apply IHr2.
  - rewrite (IHr1 i cap k1 k2 H), (IHr2 i cap k1 k2 H). reflexivity.
  - apply backoff_ext. intros j. apply H.
  - apply IHr. intros j c. apply H.
  - destruct (i =? 0); [apply H|reflexivity].
  - destruct (i =? length s); [apply H|reflexivity].
  - destruct (xorb _ _); [apply H|reflexivity].
Qed.

(** Matching a plain pattern after a prefix is matching without the
    prefix, positions shifted. *)
Lemma rmatch_shift ci (pre s : text) (A : Type) (r : regex) :
  plain r = true ->
  forall i cap (k : nat -> capture -> option A),
    rmatch ci (pre ++ s) r (length pre + i) cap k
    = rmatch ci s r i cap (fun j c => k (length pre + j) c).
Proof.
  induction r; cbn [plain]; intros Hp i cap k; try discriminate;
    cbn [rmatch].
  - reflexivity.
  - rewrite (Nat.add_comm (length pre) i), nth_error_after.
    rewrite (Nat.add_comm i (length pre)), <- plus_n_Sm. reflexivity.
  - rewrite (Nat.add_comm (length pre) i), nth_error_after.
    rewrite (Nat.add_comm i (length pre)), <- plus_n_Sm. reflexivity.
  - apply andb_prop in Hp. destruct Hp as [H1 H2].
    rewrite (IHr1 H1). apply rmatch_ext. intros j c. apply (IHr2 H2).
  - apply andb_prop in Hp. destruct Hp as [H1 H2].
    rewrite (IHr1 H1), (IHr2 H2). reflexivity.
  - rewrite skipn_after. apply backoff_shift.
  - rewrite length_app.
    destruct (Nat.eqb_spec i (length s)) as [->|Hne].
    + now rewrite Nat.eqb_refl.
    + destruct (Nat.eqb_spec (length pre + i) (length pre + length s));
        [lia|reflexivity].
Qed.

Lemma match_at_shift ci (pre s : text) (r : regex) i :
  plain r = true ->
  match_at ci (pre ++ s) r (length pre + i)
  = rmatch ci s r i None (fun j c => Some (length pre + j, c)).
Proof.
  intros Hp. unfold match_at. now rewrite rmatch_shift.
Qed.

End ReFacts.

(* ================================================================== *)
(** * The text parser and the response validation *)
(* ================================================================== *)

Module ParserProofs.
Import Js Re Exn Json Data AiService Spec Examples ReFacts.

(** C5. On the response
    [{"currency": 42, "receipt_items": [{"item_name": 7, "item_cost": 1}]}]
    the validation keeps the number 42 as the currency and the number 7 as
    the item name: a non-string currency is not replaced by "USD" and an
    item name is not made a string.  The other defaults apply: today's ISO
    date, "Unknown Vendor", tax 0, and the total recomputed from the
    items. *)
Theorem validation_keeps_untyped_fields clk :
  exists d,
    validateAndTransformGptResponse clk gpt_untyped_fields = Ok d
    /\ currency d = JNum 42
    /\ is_string (currency d) = false
    /\ List.map item_name (receipt_items d) = [JNum 7]
    /\ date d = JStr (today_iso clk)
    /\ vendor_name d = JStr (str "Unknown Vendor")
    /\ (tax d == 0)%Q
    /\ (total d == 1)%Q.
Proof.
  eexists. split; [vm_compute; reflexivity|].
  cbn. repeat split; reflexivity.
Qed.

(** What does hold of the validation, on a response that is an object:
    an absent date, currency or vendor name gets its default; the items
    are never empty, and are the sentinel when the field is not an array
    or is an empty one; a tax that is not a number is 0; and a total that
    is not a number, or is 0, is the sum of the item costs plus the tax. *)
Lemma validation_defaults clk fs d :
  validateAndTransformGptResponse clk (JObj fs) = Ok d ->
  (lookup (str "date") fs = None -> date d = JStr (today_iso clk))
  /\ (lookup (str "currency") fs = None -> currency d = JStr (str "USD"))
  /\ (lookup (str "vendor_name") fs = None ->
      vendor_name d = JStr (str "Unknown Vendor"))
  /\ receipt_items d <> []
  /\ ((forall l, lookup (str "receipt_items") fs <> Some (JArr l))
      \/ lookup (str "receipt_items") fs = Some (JArr []) ->
      receipt_items d = general_items)
  /\ ((forall q, lookup (str "tax") fs <> Some (JNum q)) -> tax d = 0%Q)
  /\ (number_or_zero (lookup (str "total") fs) == 0 ->
      total d = subtotal_of (receipt_items d) + tax d)%Q.
Proof.
  unfold validateAndTransformGptResponse. cbn [get rbind].
  destruct (match lookup (str "receipt_items") fs with
            | Some (JArr l) => coerce_items l
            | _ => Ok general_items
            end) as [items|e] eqn:Eitems; [|discriminate].
  cbn [rbind date currency vendor_name receipt_items tax total].
  intros H. injection H as <-.
  cbn [date currency vendor_name receipt_items tax total].
  assert (Hne : sentinel items <> []).
  { destruct items; discriminate. }
  assert (Hlen : (0 <? length (sentinel items)) = true).
  { destruct (sentinel items); [congruence|reflexivity]. }
  rewrite Hlen, andb_true_r.
  repeat split.
  - intros ->. reflexivity.
  - intros ->. reflexivity.
  - intros ->. reflexivity.
  - exact Hne.
  - intros [Hna|Hemp].
    + destruct (lookup (str "receipt_items") fs) as [[]|];
        try (injection Eitems as <-; reflexivity).
      exfalso. eapply Hna. reflexivity.
    + rewrite Hemp in Eitems. cbn in Eitems. injection Eitems as <-.
      reflexivity.
  - intros Hnn. destruct (lookup (str "tax") fs) as [[]|]; try reflexivity.
    exfalso. eapply Hnn. reflexivity.
  - intros Hz. apply Qeq_bool_iff in Hz. rewrite Hz. reflexivity.
Qed.

(** The cases of the service's own test suite. *)
Example suite_validation_total :
  exists d,
    validateAndTransformGptResponse clock0
      (JObj [(str "date", JStr (str "2024-01-15"));
             (str "currency", JStr (str "USD"));
             (str "vendor_name", JStr (str "Test Store"));
             (str "receipt_items",
              JArr [JObj [(str "item_name", JStr (str "Item 1"));
                          (str "item_cost", JNum (1099 # 100))];
                    JObj [(str "item_name", JStr (str "Item 2"));
                          (str "item_cost", JNum (550 # 100))]]);
             (str "tax", JNum (165 # 100));
             (str "total", JNum 0)]) = Ok d
    /\ (total d == 1814 # 100)%Q.
Proof. eexists. split; [vm_compute; reflexivity|]. reflexivity. Qed.

Example suite_dates :
  extractDate clock0 (str "Store
Date: 01/15/2024
Item: Test") = str "01/15/2024"
  /\ extractDate clock0 (str "Store
Date: 2024-01-15
Item: Test") = str "24-01-15"
  /\ extractDate clock0 (str "Store
Date: 15 Jan 2024
Item: Test") = str "15 Jan 2024".
Proof. vm_compute. repeat split; reflexivity. Qed.

Example suite_currencies :
  extractCurrency (str "Store
Item: Test $10.99
Total: $12.09") = str "USD"
  /\ extractCurrency (str "Store
Item: Test 10.99 CHF
Total: 12.09 CHF") = str "CHF"
  /\ extractCurrency (str "Store
Item: Test 10.99" ++ [8364%N] ++ str "
Total: 12.09" ++ [8364%N]) = str "EUR".
Proof. vm_compute. repeat split; reflexivity. Qed.

Example suite_items :
  receipt_items (parseReceiptText clock0 (str "Store
Item 1: $10.99
Item 2: $5.50
Tax: $1.65
Total: $18.14"))
  = [mkItem (JStr (str "Item 1:")) (1099 # 100);
     mkItem (JStr (str "Item 2:")) (550 # 100)].
Proof. vm_compute. reflexivity. Qed.

(** C3, as stated, fails: the single item of the scenario is not the one
    its last line yields. *)
Lemma scenario_item_is_not_from_last_line : ~ item_from_last_line clock0.
Proof.
  unfold item_from_last_line.
  intros (_ & _ & it & Hitems & Hline).
  vm_compute in Hitems. vm_compute in Hline.
  congruence.
Qed.

(** C3, amended. On the scenario text the parser returns the vendor
    "Test Store", the currency "USD" and exactly one item, the sentinel
    "General Items" of cost 0: the only line with a price is the last one,
    which would yield "Item: Test Item" at 10.99 but is never examined. *)
Theorem scenario_test_store clk :
  let p := parseReceiptText clk test_store_text in
  vendor_name p = JStr (str "Test Store")
  /\ currency p = JStr (str "USD")
  /\ receipt_items p = [mkItem (JStr (str "General Items")) 0%Q]
  /\ line_item test_store_last_line
     = Some (mkItem (JStr (str "Item: Test Item")) (1099 # 100))
  /\ last (split_lines test_store_text) [] = test_store_last_line.
Proof.
  vm_compute. repeat split; reflexivity.
Qed.

(** ** The vendor name is never empty *)

Lemma spaces_no_match_at ci (s : text) hi i :
  (forall c, nth_error s i = Some c -> is_space c = false) ->
  match_at ci s (Rep 1 hi [ASpace]) i = None.
Proof.
  intros H. unfold match_at. cbn [rmatch]. now apply spaces_need_space.
Qed.

Lemma seq_spaces_no_match_at ci (s : text) hi r i :
  (forall c, nth_error s i = Some c -> is_space c = false) ->
  match_at ci s (Seq (Rep 1 hi [ASpace]) r) i = None.
Proof.
  intros H. unfold match_at. cbn [rmatch]. now apply spaces_need_space.
Qed.

Lemma replace_g_from_step ci r repl (s : text) f copied from :
  replace_g_from ci r repl s (S f) copied from
  = if length s <? from then skipn copied s else
      match search_from ci s r (length s - from) from with
      | None => skipn copied s
      | Some (i, j, _) =>
          sub s copied i ++ repl
          ++ replace_g_from ci r repl s f j (if j =? i then S i else j)
      end.
Proof. reflexivity. Qed.

Lemma collapse_keeps_head c (r : text) :
  is_space c = false ->
  exists u, replace_g false re_spaces (str " ") (c :: r) = c :: u.
Proof.
  intros Hc. unfold replace_g. rewrite replace_g_from_step.
  cbn [length Nat.ltb Nat.leb Nat.sub].
  rewrite (@search_from_skip false (c :: r) re_spaces 1 (S (length r)) 0).
  - destruct (search_from false (c :: r) re_spaces (S (length r) - 1) (0 + 1))
      as [[[a b] cap]|] eqn:E.
    + apply search_from_sound in E. destruct E as [Ha _].
      destruct a as [|a']; [lia|]. cbn. eauto.
    + cbn. eauto.
  - lia.
  - intros k Hk. replace (0 + k) with 0 by lia.
    apply spaces_no_match_at. cbn. intros x Hx. now injection Hx as <-.
Qed.

Lemma strip_suffix_keeps_head c (u : text) :
  is_space c = false ->
  exists v, replace true re_suffix [] (c :: u) = c :: v.
Proof.
  intros Hc. unfold replace, exec.
  destruct (search_from true (c :: u) re_suffix (length (c :: u)) 0)
    as [[[a b] cap]|] eqn:E; [|eauto].
  apply search_from_sound in E. destruct E as [_ Hm].
  destruct a as [|a'].
  - exfalso. unfold re_suffix in Hm. cbn [seqs] in Hm.
    rewrite seq_spaces_no_match_at in Hm; [discriminate|].
    cbn. intros x Hx. now injection Hx as <-.
  - cbn. eauto.
Qed.

Lemma vendor_loop_nonempty (ls : list text) v :
  vendor_loop ls = Some v -> v <> [].
Proof.
  induction ls as [|l ls IH]; cbn [vendor_loop]; [discriminate|].
  destruct (vendor_candidate (trim l)) eqn:E; [|exact IH].
  intros H. injection H as <-.
  unfold vendor_candidate in E.
  repeat (apply andb_prop in E; destruct E as [E ?]).
  apply negb_true_iff in E.
  destruct (trim l) as [|c r] eqn:Et; [discriminate|].
  pose proof (@trim_head l c r Et) as Hc.
  unfold clean_vendor.
  destruct (@collapse_keeps_head c r Hc) as [u ->].
  destruct (@trim_keeps_head c u Hc) as [v' ->].
  destruct (@strip_suffix_keeps_head c v' Hc) as [x ->].
  discriminate.
Qed.

Lemma extractVendorName_nonempty (lines : list text) :
  extractVendorName lines <> [].
Proof.
  unfold extractVendorName.
  destruct (vendor_loop (firstn 5 lines)) as [v|] eqn:E.
  - exact (@vendor_loop_nonempty _ _ E).
  - discriminate.
Qed.

Lemma extractCurrency_nonempty (t : text) : extractCurrency t <> [].
Proof.
  unfold extractCurrency. cbv [first_currency currencyPatterns].
  repeat match goal with
         | |- context [if ?b then _ else _] => destruct b
         end; discriminate.
Qed.

(** ** Item costs are not negative *)

Lemma digits_value_nonneg (ds : text) : (0 <= digits_value ds)%Z.
Proof.
  unfold digits_value.
  assert (G : forall acc, (0 <= acc)%Z ->
            (0 <= fold_left (fun a c => a * 10 + Z.of_N (c - 48)) ds acc)%Z).
  { induction ds as [|d ds IH]; intros acc Ha; cbn; [exact Ha|].
    apply IH. lia. }
  apply G. lia.
Qed.

Lemma parseFloat_nonneg (s : text) : (0 <= parseFloat s)%Q.
Proof.
  unfold parseFloat.
  destruct (span_digits s) as [ip rest].
  pose proof (digits_value_nonneg ip) as Hip.
  assert (Hz : (0 <= inject_Z (digits_value ip))%Q)
    by (change 0%Q with (inject_Z 0); now rewrite <- Zle_Qle).
  destruct rest as [|c rest']; [exact Hz|].
  destruct (char_eqb c 46); [|exact Hz].
  destruct (span_digits rest') as [fp tl].
  pose proof (digits_value_nonneg fp) as Hfp.
  unfold Qle. cbn. nia.
Qed.

Lemma line_item_nonneg (line : text) it :
  line_item line = Some it -> nonneg_cost it.
Proof.
  unfold line_item.
  destruct (exec false line re_price) as [[[i j] [[ci cj]|]]|];
    try discriminate.
  match goal with |- context [if ?b then _ else _] => destruct b end;
    [|discriminate].
  intros H. injection H as <-. apply parseFloat_nonneg.
Qed.

Lemma items_loop_nonneg len (ls : list text) : forall index,
  Forall nonneg_cost (items_loop len index ls).
Proof.
  induction ls as [|l ls IH]; intros index; cbn [items_loop]; [constructor|].
  apply Forall_app. split; [|apply IH].
  destruct (Z.of_nat index <? Z.of_nat len - 1)%Z; [|constructor].
  destruct (line_item l) as [it|] eqn:E; [|constructor].
  constructor; [|constructor]. exact (@line_item_nonneg _ _ E).
Qed.

Lemma extractItems_nonneg (lines : list text) :
  Forall nonneg_cost (extractItems lines).
Proof.
  unfold extractItems.
  pose proof (items_loop_nonneg (length lines) lines 0) as H.
  destruct (items_loop (length lines) 0 lines); [|exact H].
  constructor; [|constructor]. unfold nonneg_cost. cbn. lra.
Qed.

Lemma extractItems_nonempty (lines : list text) :
  1 <= length (extractItems lines).
Proof.
  unfold extractItems.
  destruct (items_loop (length lines) 0 lines); cbn; lia.
Qed.



(** ** Currency *)

Lemma signature_CHF t :
  signature "CHF" t = test false (alts [word "CHF"; word "Swiss"; word "Schweiz"]) t.
Proof. reflexivity. Qed.

Lemma signature_USD t :
  signature "USD" t
  = test false (alts [Chr 36; word "USD"; seqs [WordB; lit "US"; Chr 36; WordB]]) t.
Proof. reflexivity. Qed.

Lemma signature_EUR t :
  signature "EUR" t = test false (alts [Chr 8364; word "EUR"]) t.
Proof. reflexivity. Qed.

Lemma signature_GBP t :
  signature "GBP" t = test false (alts [Chr 163; word "GBP"]) t.
Proof. reflexivity. Qed.

(** The loop of [extractCurrency], one signature after the other. *)
Lemma extractCurrency_cases t :
  extractCurrency t
  = if signature "CHF" t then str "CHF"
    else if signature "USD" t then str "USD"
    else if signature "EUR" t then str "EUR"
    else if signature "GBP" t then str "GBP"
    else if signature "CAD" t then str "CAD"
    else if signature "AUD" t then str "AUD"
    else str "USD".
Proof.
  change (signature "CHF" t) with (test false (snd (nth 0 currencyPatterns ([], Eps))) t).
  change (signature "USD" t) with (test false (snd (nth 1 currencyPatterns ([], Eps))) t).
  change (signature "EUR" t) with (test false (snd (nth 2 currencyPatterns ([], Eps))) t).
  change (signature "GBP" t) with (test false (snd (nth 3 currencyPatterns ([], Eps))) t).
  change (signature "CAD" t) with (test false (snd (nth 4 currencyPatterns ([], Eps))) t).
  change (signature "AUD" t) with (test false (snd (nth 5 currencyPatterns ([], Eps))) t).
  unfold extractCurrency. cbv [first_currency currencyPatterns nth snd].
  repeat match goal with
         | |- context [if ?b then _ else _] => destruct b
         end; reflexivity.
Qed.

Lemma dollar_is_signature t : contains [36%N] t -> signature "USD" t = true.
Proof.
  intros H. rewrite signature_USD. cbn [alts].
  apply test_of_occurrence. exact H.
Qed.

Lemma euro_is_signature t : contains [8364%N] t -> signature "EUR" t = true.
Proof.
  intros H. rewrite signature_EUR. cbn [alts].
  apply test_of_occurrence. exact H.
Qed.

Lemma pound_is_signature t : contains [163%N] t -> signature "GBP" t = true.
Proof.
  intros H. rewrite signature_GBP. cbn [alts].
  apply test_of_occurrence. exact H.
Qed.

Lemma word_before_boundary (pre l : text) :
  (forall c, nth_error (rev pre) 0 = Some c -> is_word c = false) ->
  word_before (pre ++ l) (length pre) = false.
Proof.
  intros H. unfold word_before.
  destruct (length pre) as [|n] eqn:E; [reflexivity|].
  unfold word_at. rewrite (@nth_error_last pre l n E).
  destruct (nth_error (rev pre) 0) as [c|]; [|reflexivity].
  now apply H.
Qed.

Lemma whole_word_CHF_is_signature t :
  contains_word (str "CHF") t -> signature "CHF" t = true.
Proof.
  intros (pre & post & -> & Hb & Ha).
  rewrite signature_CHF. cbn [alts].
  apply test_complete with (i := length pre).
  { rewrite length_app. lia. }
  change (word "CHF")
    with (Seq WordB (Seq (Seq (Chr 67) (Seq (Chr 72) (Chr 70))) WordB)).
  change (str "CHF" ++ post) with (67 :: 72 :: 70 :: post)%N.
  set (l := (67 :: 72 :: 70 :: post)%N).
  assert (H0 : nth_error (pre ++ l) (length pre) = Some 67%N)
    by exact (nth_error_after pre l 0).
  assert (H1 : nth_error (pre ++ l) (S (length pre)) = Some 72%N)
    by exact (nth_error_after pre l 1).
  assert (H2 : nth_error (pre ++ l) (S (S (length pre))) = Some 70%N)
    by exact (nth_error_after pre l 2).
  assert (H3 : nth_error (pre ++ l) (S (S (S (length pre))))
               = nth_error post 0)
    by exact (nth_error_after pre l 3).
  unfold match_at. cbn [rmatch].
  rewrite (@word_before_boundary pre l Hb).
  cbn [word_before]. unfold word_at.
  rewrite H0, H1, H2, H3.
  assert (Hpost : match nth_error post 0 with
                  | Some c => is_word c
                  | None => false
                  end = false).
  { destruct (nth_error post 0) as [c|]; [now apply Ha|reflexivity]. }
  rewrite Hpost. cbn. discriminate.
Qed.

(** C6, as stated, fails: "10CHF" contains "CHF", and its currency is the
    default "USD". *)
Lemma chf_inside_a_word_is_missed : ~ chf_by_occurrence.
Proof.
  intros H. specialize (H (str "10CHF")).
  assert (C : contains (str "CHF") (str "10CHF"))
    by (exists (str "10"), []; reflexivity).
  apply H in C. vm_compute in C. discriminate.
Qed.

(** C6, amended. The currency is "CHF" when "CHF" occurs as a whole word;
    it is "USD" when no CHF signature occurs and "$" does; "EUR" when no
    CHF or USD signature occurs and "€" does; "GBP" when no CHF, USD or
    EUR signature occurs and "£" does; in general it is the first code in
    the order CHF, USD, EUR, GBP, CAD, AUD whose signature occurs, and
    "USD" when none does. *)
Theorem extractCurrency_priority (t : text) :
  (contains_word (str "CHF") t -> extractCurrency t = str "CHF")
  /\ (signature "CHF" t = false -> contains [36%N] t ->
      extractCurrency t = str "USD")
  /\ (signature "CHF" t = false -> signature "USD" t = false ->
      contains [8364%N] t -> extractCurrency t = str "EUR")
  /\ (signature "CHF" t = false -> signature "USD" t = false ->
      signature "EUR" t = false -> contains [163%N] t ->
      extractCurrency t = str "GBP")
  /\ (signature "CHF" t = false -> signature "USD" t = false ->
      signature "EUR" t = false -> signature "GBP" t = false ->
      signature "CAD" t = false -> signature "AUD" t = false ->
      extractCurrency t = str "USD")
  /\ extractCurrency t
     = (if signature "CHF" t then str "CHF"
        else if signature "USD" t then str "USD"
        else if signature "EUR" t then str "EUR"
        else if signature "GBP" t then str "GBP"
        else if signature "CAD" t then str "CAD"
        else if signature "AUD" t then str "AUD"
        else str "USD").
Proof.
  rewrite extractCurrency_cases.
  repeat split.
  - intros H. now rewrite (@whole_word_CHF_is_signature t H).
  - intros -> H. now rewrite (@dollar_is_signature t H).
  - intros -> -> H. now rewrite (@euro_is_signature t H).
  - intros -> -> -> H. now rewrite (@pound_is_signature t H).
  - intros -> -> -> -> -> ->. reflexivity.
Qed.

Lemma extractCurrency_priority_witness :
  extractCurrency (str "Migros 12.50 CHF $") = str "CHF"
  /\ extractCurrency (str "Total $12.09") = str "USD"
  /\ extractCurrency (str "Total 12.09" ++ [8364%N]) = str "EUR"
  /\ extractCurrency ([163%N] ++ str "12.09") = str "GBP"
  /\ extractCurrency (str "Total 12.09") = str "USD".
Proof.
  split; [|split; [|split; [|split]]].
  - apply (proj1 (extractCurrency_priority (str "Migros 12.50 CHF $"))).
    exists (str "Migros 12.50 "), (str " $").
    split; [reflexivity|]. split; intros c Hc; injection Hc as <-; reflexivity.
  - apply (proj1 (proj2 (extractCurrency_priority (str "Total $12.09")))).
    + vm_compute. reflexivity.
    + exists (str "Total "), (str "12.09"). reflexivity.
  - apply (proj1 (proj2 (proj2 (extractCurrency_priority
                                  (str "Total 12.09" ++ [8364%N]))))).
    + vm_compute. reflexivity.
    + vm_compute. reflexivity.
    + exists (str "Total 12.09"), []. reflexivity.
  - apply (proj1 (proj2 (proj2 (proj2 (extractCurrency_priority
                                         ([163%N] ++ str "12.09")))))).
    + vm_compute. reflexivity.
    + vm_compute. reflexivity.
    + vm_compute. reflexivity.
    + exists [], (str "12.09"). reflexivity.
  - apply (proj1 (proj2 (proj2 (proj2 (proj2 (extractCurrency_priority
                                                (str "Total 12.09"))))))).
    all: vm_compute; reflexivity.
Defined.

(** ** Dates *)

Lemma digit_not_sep c :
  is_digit c = true -> cls_mem [ALit 47; ALit 45] c = false.
Proof.
  unfold is_digit, in_range, cls_mem, atom_mem, char_eqb. cbn [existsb].
  intros H. apply andb_prop in H. destruct H as [H1 H2].
  apply N.leb_le in H1.
  destruct (N.eqb_spec 47 c); [lia|].
  destruct (N.eqb_spec 45 c); [lia|]. reflexivity.
Qed.

Lemma digit_in_class c : is_digit c = true -> cls_mem [ADigit] c = true.
Proof. intros H. cbn. now rewrite H. Qed.

Lemma non_digit_out_of_class c :
  is_digit c = false -> cls_mem [ADigit] c = false.
Proof. intros H. cbn. now rewrite H. Qed.

Ltac eval_match :=
  repeat (cbn [run backoff Nat.ltb Nat.leb Nat.add nth_error skipn];
          rewrite ?digit_in_class, ?digit_not_sep, ?non_digit_out_of_class
            by assumption).

(** The first date pattern on YYYY-MM-DD: no match on the first two
    digits of the year, a match of eight characters on the third. *)
Lemma dmy_on_iso_date (y1 y2 y3 y4 m1 m2 d1 d2 : char) (post : text) p :
  Forall (fun c => is_digit c = true) [y1; y2; y3; y4; m1; m2; d1; d2] ->
  (forall c, nth_error post 0 = Some c -> is_digit c = false) ->
  let s := [y1; y2; y3; y4; 45%N; m1; m2; 45%N; d1; d2] ++ post in
  let k := fun (j : nat) (c : capture) => Some (p + j, c) in
  rmatch false s re_date_dmy 0 None k = None
  /\ rmatch false s re_date_dmy 1 None k = None
  /\ rmatch false s re_date_dmy 2 None k = Some (p + 10, None).
Proof.
  intros HF Hpost.
  repeat match goal with
         | H : Forall _ (_ :: _) |- _ => inversion H; clear H; subst
         end.
  assert (H45a : cls_mem [ALit 47; ALit 45] 45%N = true) by reflexivity.
  assert (H45b : cls_mem [ADigit] 45%N = false) by reflexivity.
  cbv zeta. unfold re_date_dmy, sep. cbn [seqs rmatch app].
  destruct post as [|c post'].
  - repeat split; eval_match; rewrite ?H45a, ?H45b; eval_match; reflexivity.
  - pose proof (Hpost c eq_refl) as Hc.
    repeat split; eval_match; rewrite ?H45a, ?H45b; eval_match; reflexivity.
Qed.

(** C10, as stated, fails: in "Date: 2024-01-155" the date 2024-01-15 is
    preceded by no date-shaped text, and the result is "24-01-155". *)
Lemma iso_date_followed_by_digit : ~ iso_date_is_truncated clock0.
Proof.
  intros H.
  specialize (H (str "Date: ") (str "2024-01-15") (str "5")).
  assert (Hd : iso_date (str "2024-01-15")).
  { do 8 eexists. split; [reflexivity|]. repeat constructor. }
  assert (Hn : no_earlier_date (str "Date: ")
                 (str "Date: " ++ str "2024-01-15" ++ str "5")).
  { intros ci r i Hin Hi.
    cbn [datePatterns In] in Hin.
    do 6 (destruct i as [|i];
          [ destruct Hin as [E|[E|[E|[E|[]]]]]; injection E as <- <-;
            vm_compute; reflexivity | ]).
    cbn in Hi. lia. }
  specialize (H Hd Hn). vm_compute in H. discriminate.
Qed.

(** C10, amended. When a text contains an ISO date YYYY-MM-DD that no
    date-shaped text precedes and that no digit follows, [extractDate]
    returns the date without the first two digits of its year,
    YY-MM-DD. *)
Theorem iso_date_loses_century clk (pre d post : text) :
  iso_date d ->
  no_earlier_date pre (pre ++ d ++ post) ->
  (forall c, nth_error post 0 = Some c -> is_digit c = false) ->
  extractDate clk (pre ++ d ++ post) = skipn 2 d.
Proof.
  intros (y1 & y2 & y3 & y4 & m1 & m2 & d1 & d2 & -> & HF) Hearlier Hpost.
  destruct (@dmy_on_iso_date y1 y2 y3 y4 m1 m2 d1 d2 post (length pre) HF Hpost)
    as (M0 & M1 & M2).
  assert (Hplain : plain re_date_dmy = true) by reflexivity.
  assert (Hlen : length (pre ++ [y1; y2; y3; y4; 45%N; m1; m2; 45%N; d1; d2]
                             ++ post)
                 = length pre + 10 + length post).
  { rewrite !length_app. cbn [length]. lia. }
  set (s := [y1; y2; y3; y4; 45%N; m1; m2; 45%N; d1; d2] ++ post) in *.
  assert (Hsearch : exec false (pre ++ s) re_date_dmy
                    = Some (length pre + 2, length pre + 10, None)).
  { unfold exec.
    rewrite (@search_from_skip false (pre ++ s) re_date_dmy (length pre + 2)).
    - cbn [Nat.add]. apply search_from_hit.
      now rewrite match_at_shift.
    - lia.
    - intros k Hk. cbn [Nat.add].
      destruct (Nat.lt_ge_cases k (length pre)) as [Hlt|Hge].
      + apply Hearlier; [left; reflexivity|exact Hlt].
      + assert (Hk' : k = length pre + 0 \/ k = length pre + 1) by lia.
        destruct Hk' as [-> | ->]; now rewrite match_at_shift. }
  subst s.
  unfold extractDate, datePatterns. cbn [first_date]. unfold match0.
  rewrite Hsearch. unfold sub.
  replace (length pre + 10 - (length pre + 2)) with 8 by lia.
  rewrite skipn_after. reflexivity.
Qed.

Lemma iso_date_loses_century_witness :
  extractDate clock0 (str "Store
Date: 2024-01-15
Item: Test") = str "24-01-15".
Proof.
  apply (@iso_date_loses_century clock0 (str "Store
Date: ") (str "2024-01-15") (str "
Item: Test")).
  - do 8 eexists. split; [reflexivity|]. repeat constructor.
  - intros ci r i Hin Hi.
    cbn [datePatterns In] in Hin.
    do 12 (destruct i as [|i];
           [ destruct Hin as [E|[E|[E|[E|[]]]]]; injection E as <- <-;
             vm_compute; reflexivity | ]).
    cbn in Hi. lia.
  - intros c Hc. injection Hc as <-. reflexivity.
Defined.

End ParserProofs.

(* ================================================================== *)
(** * More on the tiered extraction *)
(* ================================================================== *)

Module OrchestratorExtras.
Import Js Re Exn Json Data AiService Spec Spec2 Examples.

Lemma fallbackParsing_total clk en n :
  exists d, fallbackParsing clk en n = (Ok d, S n).
Proof.
  unfold fallbackParsing. destruct (recognize en n); eauto.
Qed.

Lemma remote_backends_dec clk en :
  remote_backends_fail clk en
  \/ (exists g d, openaiClient en = Some g
                  /\ extractWithGpt4Vision clk g = Ok d)
  \/ (gpt_unavailable clk en
      /\ exists v d, visionClient en = Some v
                     /\ extractWithVisionApi clk v = Ok d).
Proof.
  unfold remote_backends_fail, gpt_unavailable.
  destruct (openaiClient en) as [g|] eqn:Eg.
  - destruct (extractWithGpt4Vision clk g) as [d|e] eqn:Er.
    + right; left. eauto.
    + destruct (visionClient en) as [v|] eqn:Ev.
      * destruct (extractWithVisionApi clk v) as [d|e'] eqn:Er'.
        -- right; right. split.
           ++ intros g' Hg'. injection Hg' as <-. eauto.
           ++ eauto.
        -- left. split.
           ++ intros g' Hg'. injection Hg' as <-. eauto.
           ++ intros v' Hv'. injection Hv' as <-. eauto.
      * left. split.
        -- intros g' Hg'. injection Hg' as <-. eauto.
        -- intros v' Hv'. discriminate.
  - destruct (visionClient en) as [v|] eqn:Ev.
    + destruct (extractWithVisionApi clk v) as [d|e'] eqn:Er'.
      * right; right. split; [intros g' Hg'; discriminate|eauto].
      * left. split; [intros g' Hg'; discriminate|].
        intros v' Hv'. injection Hv' as <-. eauto.
    + left. split; intros ? H; discriminate.
Qed.

Lemma gpt_success clk en n g d :
  openaiClient en = Some g ->
  extractWithGpt4Vision clk g = Ok d ->
  extractReceiptData clk en n = (Ok d, n).
Proof.
  intros Hg Hd.
  unfold extractReceiptData, try_catch, from_gpt. now rewrite Hg, Hd.
Qed.

Lemma vision_success clk en n v d :
  gpt_unavailable clk en ->
  visionClient en = Some v ->
  extractWithVisionApi clk v = Ok d ->
  extractReceiptData clk en n = (Ok d, n).
Proof.
  intros Hgpt Hv Hd. unfold gpt_unavailable in Hgpt.
  unfold extractReceiptData, try_catch, from_gpt, from_vision.
  destruct (openaiClient en) as [g|].
  - destruct (Hgpt g eq_refl) as [e ->]. now rewrite Hv, Hd.
  - now rewrite Hv, Hd.
Qed.

(** The structured backend has priority: when it is configured and
    succeeds, its record is the result, whatever the other two engines
    would answer, and the local OCR engine is not run.  When it is absent
    or fails and the text-detection backend succeeds, the result is the
    parse of the detected text, again without running the local engine. *)
Theorem remote_backend_wins clk en n :
  (forall g d, openaiClient en = Some g ->
               extractWithGpt4Vision clk g = Ok d ->
               extractReceiptData clk en n = (Ok d, n))
  /\ (forall t, gpt_unavailable clk en ->
                visionClient en = Some (Ok t) ->
                extractReceiptData clk en n
                = (Ok (parseReceiptText clk t), n)).
Proof.
  split.
  - intros g d. apply gpt_success.
  - intros t Hgpt Hv. now apply (@vision_success clk en n (Ok t)).
Qed.

Lemma remote_backend_wins_witness :
  extractReceiptData clock0
    (mkEngines (Some (GptContent (Ok (record_json negative_tax))))
               (Some (Ok test_store_text)) (fun _ => Ok [])) 0
  = (Ok negative_tax, 0)
  /\ extractReceiptData clock0
       (mkEngines (Some GptNoContent) (Some (Ok test_store_text))
                  (fun _ => Ok [])) 0
     = (Ok (parseReceiptText clock0 test_store_text), 0).
Proof.
  split.
  - apply (proj1 (remote_backend_wins clock0 _ 0)
             (GptContent (Ok (record_json negative_tax)))); reflexivity.
  - apply (proj2 (remote_backend_wins clock0 _ 0)).
    + intros g Hg. injection Hg as <-. eexists. reflexivity.
    + reflexivity.
Defined.

(** The local OCR engine is the last resort and is run at most once: it
    runs exactly when every configured remote backend fails, and then the
    result is that of [fallbackParsing]. *)
Theorem local_ocr_runs_once_and_last clk en n :
  (remote_backends_fail clk en ->
   extractReceiptData clk en n = fallbackParsing clk en n
   /\ snd (extractReceiptData clk en n) = S n)
  /\ (~ remote_backends_fail clk en ->
      snd (extractReceiptData clk en n) = n).
Proof.
  split.
  - intros [Hg Hv].
    destruct (fallbackParsing_total clk en n) as [d Hd].
    assert (E : extractReceiptData clk en n = fallbackParsing clk en n).
    { unfold extractReceiptData, try_catch, from_gpt, from_vision.
      destruct (openaiClient en) as [g|].
      - destruct (Hg g eq_refl) as [e ->].
        destruct (visionClient en) as [v|].
        + destruct (Hv v eq_refl) as [e' ->]. now rewrite Hd.
        + now rewrite Hd.
      - destruct (visionClient en) as [v|].
        + destruct (Hv v eq_refl) as [e' ->]. now rewrite Hd.
        + now rewrite Hd. }
    split; [exact E|]. now rewrite E, Hd.
  - intros Hn.
    destruct (remote_backends_dec clk en)
      as [H|[(g & d & Hg & Hd)|(Hgpt & v & d & Hv & Hd)]].
    + contradiction.
    + now rewrite (@gpt_success clk en n g d Hg Hd).
    + now rewrite (@vision_success clk en n v d Hgpt Hv Hd).
Qed.

Lemma local_ocr_runs_once_and_last_witness :
  snd (extractReceiptData clock0 engines_down 0) = 1
  /\ snd (extractReceiptData clock0
            (mkEngines None (Some (Ok test_store_text)) (fun _ => Ok [])) 0)
     = 0.
Proof.
  split.
  - apply (proj1 (local_ocr_runs_once_and_last clock0 engines_down 0)).
    split.
    + intros g Hg. injection Hg as <-. eexists. reflexivity.
    + intros v Hv. injection Hv as <-. eexists. reflexivity.
  - apply (proj2 (local_ocr_runs_once_and_last clock0 _ 0)).
    intros [_ Hv]. destruct (Hv _ eq_refl) as [e He]. discriminate.
Defined.

(** ** The structured response *)

Lemma coerce_item_throw it e :
  coerce_item it = Throw e -> it = JNull /\ e = TypeError.
Proof.
  destruct it; cbn; intros H; try discriminate.
  injection H as <-. auto.
Qed.

Lemma coerce_items_throw l e :
  coerce_items l = Throw e -> In JNull l /\ e = TypeError.
Proof.
  induction l as [|a l IH]; cbn [coerce_items]; [discriminate|].
  destruct (coerce_item a) as [x|e'] eqn:Ea; cbn [rbind].
  - destruct (coerce_items l) as [xs|e''] eqn:El; cbn [rbind];
      [discriminate|].
    intros H. injection H as <-.
    destruct (IH eq_refl) as [Hin He]. split; [right; exact Hin|exact He].
  - intros H. injection H as <-.
    apply coerce_item_throw in Ea. destruct Ea as [-> ->].
    split; [left; reflexivity|reflexivity].
Qed.

Lemma coerce_items_null l :
  In JNull l -> coerce_items l = Throw TypeError.
Proof.
  induction l as [|a l IH]; cbn [coerce_items In]; [tauto|].
  intros [->|Hin]; [reflexivity|].
  destruct (coerce_item a) as [x|e'] eqn:Ea; cbn [rbind].
  - now rewrite (IH Hin).
  - apply coerce_item_throw in Ea. now destruct Ea as [_ ->].
Qed.

Lemma validation_throws_iff clk data :
  (forall e, validateAndTransformGptResponse clk data = Throw e ->
             e = TypeError)
  /\ ((exists e, validateAndTransformGptResponse clk data = Throw e)
      <-> has_null data).
Proof.
  unfold validateAndTransformGptResponse, has_null.
  destruct data as [|b|q|t|l|fs]; cbn [get rbind].
  - split; [intros e H; now injection H|].
    split; [auto|]. intros _. eexists. reflexivity.
  - split; [discriminate|].
    split; [intros [e H]; discriminate|].
    intros [H|(fs & l & H & _)]; discriminate.
  - split; [discriminate|].
    split; [intros [e H]; discriminate|].
    intros [H|(fs & l & H & _)]; discriminate.
  - split; [discriminate|].
    split; [intros [e H]; discriminate|].
    intros [H|(fs & l & H & _)]; discriminate.
  - split; [discriminate|].
    split; [intros [e H]; discriminate|].
    intros [H|(fs & l0 & H & _)]; discriminate.
  - destruct (lookup (str "receipt_items") fs) as [ri|] eqn:Eri.
    + destruct ri as [|b|q|t|l|fs'];
        try (cbn [rbind]; split; [discriminate|];
             split; [intros [e H]; discriminate|];
             intros [H|(fs0 & l0 & H & Hl & _)]; [discriminate|];
             injection H as <-; rewrite Eri in Hl; discriminate).
      destruct (coerce_items l) as [xs|e'] eqn:El; cbn [rbind].
      * split; [discriminate|].
        split; [intros [e H]; discriminate|].
        intros [H|(fs0 & l0 & H & Hl & Hin)]; [discriminate|].
        injection H as <-. rewrite Eri in Hl. injection Hl as <-.
        rewrite (coerce_items_null _ Hin) in El. discriminate.
      * apply coerce_items_throw in El. destruct El as [Hin ->].
        split; [intros e H; now injection H|].
        split; [|intros _; eexists; reflexivity].
        intros _. right. exists fs, l. auto.
    + cbn [rbind]. split; [discriminate|].
      split; [intros [e H]; discriminate|].
      intros [H|(fs0 & l0 & H & Hl & _)]; [discriminate|].
      injection H as <-. rewrite Eri in Hl. discriminate.
Qed.

(** The validation throws exactly on [null] and on an object whose
    [receipt_items] array holds a [null], and what it throws is a
    [TypeError]; on every other value (numbers, strings, arrays, objects
    with any fields) it returns a record. *)
Theorem validation_throws_only_on_null clk data :
  (forall e, validateAndTransformGptResponse clk data = Throw e ->
             e = TypeError /\ has_null data)
  /\ (has_null data ->
      validateAndTransformGptResponse clk data = Throw TypeError).
Proof.
  destruct (validation_throws_iff clk data) as [He Hiff].
  split.
  - intros e H. split; [now apply He|]. apply Hiff. eauto.
  - intros Hn. apply Hiff in Hn. destruct Hn as [e H].
    now rewrite H, (He e H).
Qed.

Lemma validation_throws_only_on_null_witness :
  validateAndTransformGptResponse clock0
    (JObj [(str "receipt_items", JArr [JNull])]) = Throw TypeError.
Proof.
  apply (proj2 (validation_throws_only_on_null clock0 _)).
  right. exists [(str "receipt_items", JArr [JNull])], [JNull].
  repeat split. now left.
Defined.

(** The structured backend fails exactly when the remote call rejects,
    the reply has no content, the content is not JSON, or the JSON is
    [null] or has a [null] item; every such failure surfaces as the one
    server fault "GPT-4 Vision service temporarily unavailable".  The
    text-detection backend only fails with "AI service temporarily
    unavailable". *)
Theorem backend_failures clk :
  (forall g e, extractWithGpt4Vision clk g = Throw e ->
               e = InternalServerErrorException msg_gpt_unavailable
               /\ gpt_failure g)
  /\ (forall g, gpt_failure g ->
                extractWithGpt4Vision clk g
                = Throw (InternalServerErrorException msg_gpt_unavailable))
  /\ (forall v e, extractWithVisionApi clk v = Throw e ->
                  e = InternalServerErrorException msg_ai_unavailable).
Proof.
  split; [|split].
  - intros g e. unfold extractWithGpt4Vision, gpt_failure.
    destruct g as [e0| |[data|e0]]; cbn [rbind];
      try (intros H; injection H as <-; auto).
    destruct (validateAndTransformGptResponse clk data) as [d|e1] eqn:Ev;
      [discriminate|].
    intros H. injection H as <-. split; [reflexivity|].
    apply (proj2 (validation_throws_iff clk data)). eauto.
  - intros g. unfold extractWithGpt4Vision, gpt_failure.
    destruct g as [e0| |[data|e0]]; cbn [rbind]; try reflexivity.
    intros Hn. apply (proj2 (validation_throws_iff clk data)) in Hn.
    destruct Hn as [e ->]. reflexivity.
  - intros v e. unfold extractWithVisionApi.
    destruct v; [discriminate|]. intros H. now injection H as <-.
Qed.

Lemma backend_failures_witness :
  extractWithGpt4Vision clock0 (GptContent (Ok JNull))
  = Throw (InternalServerErrorException msg_gpt_unavailable).
Proof.
  apply (proj1 (proj2 (backend_failures clock0))).
  left. reflexivity.
Defined.

Lemma coerce_items_round_trip (items : list item) :
  Forall (fun it => truthy (item_name it) = true) items ->
  coerce_items (List.map item_json items) = Ok items.
Proof.
  induction 1 as [|it items Hit _ IH]; [reflexivity|].
  cbn [List.map coerce_items]. rewrite IH.
  destruct it as [name cost]. cbn in Hit.
  assert (E : coerce_item (item_json (mkItem name cost))
              = Ok (mkItem (or_default (Some name) (JStr (str "Unknown Item")))
                           cost)) by reflexivity.
  rewrite E. cbn [or_default]. rewrite Hit. reflexivity.
Qed.

(** A complete record passes the validation unchanged: sent as JSON with
    truthy text fields and item names, at least one item and a total that
    is not 0, it comes back field for field. *)
Theorem validation_round_trip clk (d : ExtractedReceiptData) :
  complete d ->
  validateAndTransformGptResponse clk (record_json d) = Ok d.
Proof.
  destruct d as [dt cu vn items tx tt].
  unfold complete. cbn [date currency vendor_name receipt_items tax total].
  intros (Hd & Hc & Hv & Hne & Hnames & Htt).
  unfold record_json.
  cbn [date currency vendor_name receipt_items tax total].
  set (fs := [(str "date", dt); (str "currency", cu); (str "vendor_name", vn);
              (str "receipt_items", JArr (List.map item_json items));
              (str "tax", JNum tx); (str "total", JNum tt)]).
  assert (L1 : lookup (str "date") fs = Some dt) by reflexivity.
  assert (L2 : lookup (str "currency") fs = Some cu) by reflexivity.
  assert (L3 : lookup (str "vendor_name") fs = Some vn) by reflexivity.
  assert (L4 : lookup (str "receipt_items") fs
               = Some (JArr (List.map item_json items))) by reflexivity.
  assert (L5 : lookup (str "tax") fs = Some (JNum tx)) by reflexivity.
  assert (L6 : lookup (str "total") fs = Some (JNum tt)) by reflexivity.
  unfold validateAndTransformGptResponse. cbn [get rbind].
  rewrite L1, L2, L3, L4, L5, L6.
  rewrite (coerce_items_round_trip Hnames).
  cbn [rbind or_default number_or_zero date currency vendor_name
       receipt_items tax total].
  rewrite Hd, Hc, Hv, Htt. cbn [andb].
  destruct items as [|it items']; [congruence|]. reflexivity.
Qed.

Lemma validation_round_trip_witness :
  validateAndTransformGptResponse clock0 (record_json negative_tax)
  = Ok negative_tax.
Proof.
  apply validation_round_trip.
  repeat split; try reflexivity; try discriminate.
  repeat constructor.
Defined.



End OrchestratorExtras.

(* ================================================================== *)
(** * Where a match can be, and how long *)
(* ================================================================== *)

Module MatcherBounds.
Import Js Re Spec Spec2 ReFacts.

Lemma run_le_length cs (rest : text) : forall hi,
  run cs hi rest <= length rest.
Proof.
  induction rest as [|c rest IH]; intros hi; cbn [run length]; [lia|].
  destruct (cls_mem cs c); [|lia].
  destruct hi as [[|h]|]; [lia| |].
  - specialize (IH (Some h)). lia.
  - specialize (IH None). lia.
Qed.

Lemma backoff_inv (A : Type) (k : nat -> option A) i lo n a :
  backoff k i lo n = Some a ->
  exists m, lo <= m /\ m <= n /\ k (i + m) = Some a.
Proof.
  induction n as [|n IH]; cbn [backoff].
  - destruct (Nat.ltb_spec 0 lo) as [Hlt|Hge]; [discriminate|].
    destruct (k (i + 0)) as [x|] eqn:E; [|discriminate].
    intros H. injection H as <-. exists 0. repeat split; [lia|lia|exact E].
  - destruct (Nat.ltb_spec (S n) lo) as [Hlt|Hge]; [discriminate|].
    destruct (k (i + S n)) as [x|] eqn:E.
    + intros H. injection H as <-. exists (S n).
      repeat split; [lia|lia|exact E].
    + intros H. destruct (IH H) as (m & H1 & H2 & H3).
      exists m. repeat split; [lia|lia|exact H3].
Qed.

(** A successful match called its continuation at a position that is at
    least [minlen r] further and still inside the subject. *)
Lemma rmatch_inv ci (s : text) (A : Type) (r : regex) :
  forall i cap (k : nat -> capture -> option A) a,
    i <= length s ->
    rmatch ci s r i cap k = Some a ->
    exists j c, k j c = Some a /\ i + minlen r <= j /\ j <= length s.
Proof.
  induction r; intros i cap k a Hi; cbn [rmatch minlen].
  - intros H. exists i, cap. repeat split; [exact H|lia|lia].
  - destruct (nth_error s i) as [x|] eqn:E; [|discriminate].
    destruct (chr_eq ci c x); [|discriminate].
    intros H. exists (S i), cap.
    assert (i < length s) by (apply nth_error_Some; congruence).
    repeat split; [exact H|lia|lia].
  - destruct (nth_error s i) as [x|] eqn:E; [|discriminate].
    destruct (cls_mem cs x); [|discriminate].
    intros H. exists (S i), cap.
    assert (i < length s) by (apply nth_error_Some; congruence).
    repeat split; [exact H|lia|lia].
  - intros H. apply IHr1 in H; [|exact Hi].
    destruct H as (j1 & c1 & H1 & Hlo1 & Hhi1).
    apply IHr2 in H1; [|exact Hhi1].
    destruct H1 as (j2 & c2 & H2 & Hlo2 & Hhi2).
    exists j2, c2. repeat split; [exact H2|lia|lia].
  - destruct (rmatch ci s r1 i cap k) as [x|] eqn:E.
    + intros H. injection H as <-. apply IHr1 in E; [|exact Hi].
      destruct E as (j & c & H1 & Hlo & Hhi).
      exists j, c. repeat split; [exact H1|lia|lia].
    + intros H. apply IHr2 in H; [|exact Hi].
      destruct H as (j & c & H1 & Hlo & Hhi).
      exists j, c. repeat split; [exact H1|lia|lia].
  - intros H. apply backoff_inv in H. destruct H as (m & H1 & H2 & H3).
    pose proof (run_le_length cs (skipn i s) hi) as Hr.
    rewrite length_skipn in Hr.
    exists (i + m), cap. repeat split; [exact H3|lia|lia].
  - intros H. apply IHr in H; [|exact Hi].
    destruct H as (j & c & H1 & Hlo & Hhi).
    exists j, (Some (i, j)). repeat split; [exact H1|lia|lia].
  - destruct (i =? 0); [|discriminate].
    intros H. exists i, cap. repeat split; [exact H|lia|lia].
  - destruct (i =? length s); [|discriminate].
    intros H. exists i, cap. repeat split; [exact H|lia|lia].
  - destruct (xorb _ _); [|discriminate].
    intros H. exists i, cap. repeat split; [exact H|lia|lia].
Qed.

Lemma match_at_bounds ci (s : text) r i j cap :
  i <= length s ->
  match_at ci s r i = Some (j, cap) ->
  i + minlen r <= j /\ j <= length s.
Proof.
  intros Hi H. unfold match_at in H. apply rmatch_inv in H; [|exact Hi].
  destruct H as (j' & c' & H & Hlo & Hhi). injection H as <- <-. lia.
Qed.

Lemma search_from_bound ci (s : text) r fuel : forall i a b c,
  search_from ci s r fuel i = Some (a, b, c) -> a <= i + fuel.
Proof.
  induction fuel as [|f IH]; intros i a b c; cbn [search_from];
    destruct (match_at ci s r i) as [[j cap]|].
  - intros H. injection H as <- <- <-. lia.
  - discriminate.
  - intros H. injection H as <- <- <-. lia.
  - intros H. apply IH in H. lia.
Qed.

(** The leftmost match lies inside the subject and is at least
    [minlen r] long. *)
Lemma exec_bounds ci (s : text) r i j cap :
  exec ci s r = Some (i, j, cap) ->
  i + minlen r <= j /\ j <= length s.
Proof.
  unfold exec. intros H.
  pose proof (search_from_bound _ _ _ _ _ H) as Hb.
  apply search_from_sound in H. destruct H as [_ H].
  apply match_at_bounds in H; [exact H|lia].
Qed.

Lemma sub_contains (s : text) i j :
  i <= j -> j <= length s ->
  s = firstn i s ++ sub s i j ++ skipn j s /\ length (sub s i j) = j - i.
Proof.
  intros Hij Hj. unfold sub. split.
  - rewrite <- (firstn_skipn i s) at 1. f_equal.
    rewrite <- (firstn_skipn (j - i) (skipn i s)) at 1. f_equal.
    rewrite skipn_skipn. f_equal. lia.
  - rewrite length_firstn, length_skipn. lia.
Qed.

(** What [s.match(r)[0]] returns is a piece of [s], at least [minlen r]
    long. *)
Lemma match0_bounds ci r (t m : text) :
  match0 ci r t = Some m -> contains m t /\ minlen r <= length m.
Proof.
  unfold match0.
  destruct (exec ci t r) as [[[i j] cap]|] eqn:E; [|discriminate].
  intros H. injection H as <-.
  apply exec_bounds in E. destruct E as [Hlo Hhi].
  destruct (@sub_contains t i j ltac:(lia) Hhi) as [Hs Hl].
  split.
  - exists (firstn i t), (skipn j t). exact Hs.
  - lia.
Qed.

(** A class repeated at least once cannot start on a character outside
    the class, nor at the end. *)
Lemma rep_needs_member (s : text) cs lo hi i (A : Type)
      (k : nat -> option A) :
  1 <= lo ->
  (forall c, nth_error s i = Some c -> cls_mem cs c = false) ->
  backoff k i lo (run cs hi (skipn i s)) = None.
Proof.
  intros Hlo H.
  assert (R : run cs hi (skipn i s) = 0).
  { destruct (nth_error s i) as [c|] eqn:E.
    - destruct (@skipn_at s i c E) as [rest ->].
      cbn. now rewrite (H c eq_refl).
    - now rewrite (@skipn_past s i E). }
  rewrite R. cbn [backoff].
  destruct (Nat.ltb_spec 0 lo); [reflexivity|lia].
Qed.

Lemma search_from_all_none ci (s : text) r fuel : forall i,
  (forall k, k <= fuel -> match_at ci s r (i + k) = None) ->
  search_from ci s r fuel i = None.
Proof.
  induction fuel as [|f IH]; intros i H; cbn [search_from].
  - pose proof (H 0 ltac:(lia)) as H0. rewrite Nat.add_0_r in H0.
    now rewrite H0.
  - pose proof (H 0 ltac:(lia)) as H0. rewrite Nat.add_0_r in H0.
    rewrite H0. apply IH. intros k Hk.
    replace (S i + k) with (i + S k) by lia. apply H. lia.
Qed.

Lemma exec_none ci (s : text) r :
  (forall i, i <= length s -> match_at ci s r i = None) ->
  exec ci s r = None.
Proof.
  intros H. unfold exec. apply search_from_all_none.
  intros k Hk. apply H. lia.
Qed.

Lemma no_digit_at (s : text) i c :
  no_digit s -> nth_error s i = Some c -> cls_mem [ADigit] c = false.
Proof.
  intros Hs Hc. apply nth_error_In in Hc.
  unfold no_digit in Hs. rewrite Forall_forall in Hs.
  cbn. now rewrite (Hs c Hc).
Qed.

(** A pattern that begins with one or more digits matches nowhere in a
    text without digits. *)
Lemma digits_first_no_match ci (s : text) lo hi r :
  1 <= lo -> no_digit s ->
  exec ci s (Seq (Rep lo hi [ADigit]) r) = None.
Proof.
  intros Hlo Hs. apply exec_none. intros i _.
  unfold match_at. cbn [rmatch]. apply rep_needs_member; [exact Hlo|].
  intros c Hc. exact (no_digit_at _ Hs Hc).
Qed.

End MatcherBounds.

(* ================================================================== *)
(** * More on the text parser *)
(* ================================================================== *)

Module ParserExtras.
Import Js Re Exn Json Data AiService Spec Spec2 Examples ReFacts
       MatcherBounds ParserProofs.

(** ** Dates *)

Lemma minlen_dates :
  minlen re_date_dmy = 6 /\ minlen re_date_ymd = 8
  /\ minlen re_date_short = 8 /\ minlen re_date_long = 8.
Proof. repeat split; reflexivity. Qed.

Lemma first_date_found t m :
  first_date datePatterns t = Some m -> contains m t /\ 6 <= length m.
Proof.
  destruct minlen_dates as (L1 & L2 & L3 & L4).
  unfold datePatterns. cbn [first_date].
  destruct (match0 false re_date_dmy t) as [m1|] eqn:E1.
  { intros H. injection H as <-. apply match0_bounds in E1.
    destruct E1. split; [assumption|lia]. }
  destruct (match0 false re_date_ymd t) as [m2|] eqn:E2.
  { intros H. injection H as <-. apply match0_bounds in E2.
    destruct E2. split; [assumption|lia]. }
  destruct (match0 true re_date_short t) as [m3|] eqn:E3.
  { intros H. injection H as <-. apply match0_bounds in E3.
    destruct E3. split; [assumption|lia]. }
  destruct (match0 true re_date_long t) as [m4|] eqn:E4; [|discriminate].
  intros H. injection H as <-. apply match0_bounds in E4.
  destruct E4. split; [assumption|lia].
Qed.

(** The date is either today's date in the locale format or a piece of
    the text itself, at least six characters long: nothing is normalised
    or rewritten. *)
Theorem date_is_verbatim_or_today clk (t : text) :
  extractDate clk t = today_locale clk
  \/ (contains (extractDate clk t) t /\ 6 <= length (extractDate clk t)).
Proof.
  unfold extractDate.
  destruct (first_date datePatterns t) as [m|] eqn:E; [right|left; reflexivity].
  exact (first_date_found _ E).
Qed.

Lemma first_date_without_digits t :
  no_digit t -> first_date datePatterns t = None.
Proof.
  intros H. unfold datePatterns. cbn [first_date]. unfold match0.
  unfold re_date_dmy, re_date_ymd, re_date_short, re_date_long.
  cbn [seqs].
  rewrite !digits_first_no_match by (try exact H; lia).
  reflexivity.
Qed.

Lemma date_defaults_without_digits_aux clk (t : text) :
  no_digit t -> extractDate clk t = today_locale clk.
Proof.
  intros H. unfold extractDate. now rewrite (first_date_without_digits H).
Qed.

(** ** Currency *)

(** The currency is always one of the six codes CHF, USD, EUR, GBP, CAD,
    AUD. *)
Theorem currency_is_a_known_code (t : text) :
  In (extractCurrency t) currency_codes.
Proof.
  rewrite extractCurrency_cases. unfold currency_codes.
  repeat match goal with
         | |- context [if ?b then _ else _] => destruct b
         end; cbn [In]; tauto.
Qed.

(** ** Items *)

Lemma items_loop_removelast len (ls : list text) : forall index,
  len = index + length ls ->
  items_loop len index ls = flat_map items_of_line (removelast ls).
Proof.
  induction ls as [|l ls IH]; intros index Hlen; [reflexivity|].
  cbn [items_loop]. destruct ls as [|l' ls'].
  - cbn [length] in Hlen. cbn [items_loop removelast flat_map].
    destruct (Z.ltb_spec (Z.of_nat index) (Z.of_nat len - 1)); [lia|].
    reflexivity.
  - cbn [length] in Hlen.
    destruct (Z.ltb_spec (Z.of_nat index) (Z.of_nat len - 1)); [|lia].
    rewrite (IH (S index)) by (cbn [length]; lia).
    reflexivity.
Qed.

Lemma extractItems_removelast (lines : list text) :
  extractItems lines
  = match flat_map items_of_line (removelast lines) with
    | [] => general_items
    | items => items
    end.
Proof.
  unfold extractItems. now rewrite (@items_loop_removelast _ lines 0).
Qed.

Lemma flat_map_items_length (ls : list text) :
  length (flat_map items_of_line ls) <= length ls.
Proof.
  induction ls as [|l ls IH]; cbn [flat_map length]; [lia|].
  rewrite length_app. unfold items_of_line at 1.
  destruct (line_item l); cbn [length]; lia.
Qed.

(** The items are what the lines yield, one line after the other in
    their order, the last line left out; when they yield nothing the
    single item "General Items" of cost 0 stands in.  So there are never
    more items than lines before the last. *)
Theorem items_come_from_all_but_the_last_line (lines : list text) :
  extractItems lines
  = match flat_map items_of_line (removelast lines) with
    | [] => general_items
    | items => items
    end
  /\ length (extractItems lines) <= Nat.max 1 (length lines - 1).
Proof.
  split; [apply extractItems_removelast|].
  rewrite extractItems_removelast.
  pose proof (flat_map_items_length (removelast lines)) as H.
  assert (L : length (removelast lines) = length lines - 1).
  { destruct lines as [|l ls]; [reflexivity|].
    assert (E : l :: ls <> []) by discriminate.
    pose proof (app_removelast_last l E) as Hl.
    apply (f_equal (@length _)) in Hl. rewrite length_app in Hl.
    cbn [length] in Hl |- *. lia. }
  destruct (flat_map items_of_line (removelast lines));
    [unfold general_items|]; cbn [length] in *; lia.
Qed.

(** Whatever the last line is, it changes no item: a price on the last
    line is never extracted. *)
Theorem last_line_is_never_an_item (lines : list text) (a b : text) :
  extractItems (lines ++ [a]) = extractItems (lines ++ [b]).
Proof.
  rewrite !extractItems_removelast, !removelast_last. reflexivity.
Qed.

Lemma drop_space_fixed c (u : text) :
  is_space c = false -> drop_space (c :: u) = c :: u.
Proof. intros H. cbn. now rewrite H. Qed.

Lemma trim_fixed (w : text) h r x l :
  w = h :: r -> w = x ++ [l] ->
  is_space h = false -> is_space l = false -> trim w = w.
Proof.
  intros Hw1 Hw2 Hh Hl. unfold trim.
  rewrite Hw1 at 1. cbn [drop_space]. rewrite Hh. rewrite <- Hw1.
  rewrite Hw2 at 1. rewrite rev_app_distr. cbn [rev app drop_space].
  rewrite Hl. cbn [rev]. rewrite rev_involutive.
  symmetry. exact Hw2.
Qed.

Lemma trim_ends (s : text) :
  trim s = []
  \/ exists h r x l,
       trim s = h :: r /\ trim s = x ++ [l]
       /\ is_space h = false /\ is_space l = false.
Proof.
  unfold trim. destruct (drop_space s) as [|h v] eqn:Es; [left; reflexivity|].
  right. pose proof (@drop_space_head s h v Es) as Hh.
  cbn [rev]. destruct (@drop_space_snoc (rev v) h Hh) as [x Hx].
  destruct (drop_space (rev v ++ [h])) as [|y u] eqn:Eu.
  { destruct x; discriminate. }
  pose proof (@drop_space_head (rev v ++ [h]) y u Eu) as Hy.
  exists h, (rev x), (rev u), y.
  repeat split; try assumption.
  rewrite Hx, rev_app_distr. reflexivity.
Qed.

(** Trimming twice is trimming once. *)
Lemma trim_idempotent (s : text) : trim (trim s) = trim s.
Proof.
  destruct (trim_ends s) as [->|(h & r & x & l & H1 & H2 & Hh & Hl)];
    [reflexivity|].
  exact (@trim_fixed (trim s) h r x l H1 H2 Hh Hl).
Qed.

Lemma line_item_shape (line : text) it :
  line_item line = Some it ->
  exists name,
    item_name it = JStr name /\ 2 < length name /\ trim name = name
    /\ test true re_aggregate name = false.
Proof.
  unfold line_item.
  destruct (exec false line re_price) as [[[i j] [[ci cj]|]]|];
    try discriminate.
  set (name := trim (replace_str (sub line i j) [] line)).
  destruct (negb (is_empty name)) eqn:E1; cbn [andb]; [|discriminate].
  destruct (2 <? length name) eqn:E2; cbn [andb]; [|discriminate].
  destruct (test true re_aggregate name) eqn:E3; cbn [negb]; [discriminate|].
  intros H. injection H as <-. exists name. cbn [item_name].
  split; [reflexivity|]. split; [now apply Nat.ltb_lt|].
  split; [apply trim_idempotent|exact E3].
Qed.

(** Every item is the stand-in "General Items", or has a name of more
    than two characters, without white space at either end, that does not
    start with TOTAL, TAX, SUBTOTAL, BALANCE, MwSt or VAT in any case. *)
Theorem items_are_well_formed (lines : list text) :
  Forall (fun it =>
            In it general_items
            \/ exists name,
                 item_name it = JStr name /\ 2 < length name
                 /\ trim name = name
                 /\ test true re_aggregate name = false)
         (extractItems lines).
Proof.
  rewrite extractItems_removelast.
  assert (G : Forall (fun it =>
                        In it general_items
                        \/ exists name,
                             item_name it = JStr name /\ 2 < length name
                             /\ trim name = name
                             /\ test true re_aggregate name = false)
                     (flat_map items_of_line (removelast lines))).
  { induction (removelast lines) as [|l ls IH]; cbn [flat_map]; [constructor|].
    apply Forall_app. split; [|exact IH].
    unfold items_of_line. destruct (line_item l) as [it|] eqn:E; [|constructor].
    constructor; [|constructor]. right. exact (@line_item_shape l it E). }
  destruct (flat_map items_of_line (removelast lines)) as [|it its].
  - constructor; [|constructor]. left. now left.
  - exact G.
Qed.

(** ** Texts without digits, blank texts *)

Lemma split_Forall (P : char -> Prop) sep (t : text) :
  Forall P t -> Forall (Forall P) (split sep t).
Proof.
  induction 1 as [|c t Hc Ht IH]; cbn [split].
  - repeat constructor.
  - destruct (char_eqb c sep).
    + constructor; [constructor|exact IH].
    + destruct (split sep t) as [|l ls]; [repeat constructor; assumption|].
      inversion IH; subst. constructor; [constructor|]; assumption.
Qed.

Lemma split_lines_Forall (P : char -> Prop) (t : text) :
  Forall P t -> Forall (Forall P) (split_lines t).
Proof.
  intros H. unfold split_lines.
  apply Forall_forall. intros l Hl. apply filter_In in Hl.
  destruct Hl as [Hl _].
  pose proof (split_Forall 10%N H) as Hs. rewrite Forall_forall in Hs.
  now apply Hs.
Qed.

(** A price needs a digit. *)
Lemma digits_needed ci (s : text) A B hi E :
  no_digit s ->
  exec ci s (Seq A (Seq B (Cap (Seq (Rep 1 hi [ADigit]) E)))) = None.
Proof.
  intros Hs. apply exec_none. intros i Hi.
  destruct (match_at ci s (Seq A (Seq B (Cap (Seq (Rep 1 hi [ADigit]) E)))) i)
    as [x|] eqn:Em; [exfalso|reflexivity].
  unfold match_at in Em. cbn [rmatch] in Em.
  apply rmatch_inv in Em; [|exact Hi].
  destruct Em as (j1 & c1 & Em & _ & Hj1).
  apply rmatch_inv in Em; [|exact Hj1].
  destruct Em as (j2 & c2 & Em & _ & Hj2).
  rewrite rep_needs_member in Em; [discriminate|lia|].
  intros c Hc. exact (no_digit_at _ Hs Hc).
Qed.

Lemma line_item_needs_digit (line : text) :
  no_digit line -> line_item line = None.
Proof.
  intros H. unfold line_item, re_price. cbn [seqs].
  now rewrite digits_needed.
Qed.

Lemma no_items_without_digits (lines : list text) :
  Forall no_digit lines -> extractItems lines = general_items.
Proof.
  intros H. rewrite extractItems_removelast.
  assert (G : forall ls, Forall no_digit ls ->
                         flat_map items_of_line ls = []).
  { induction 1 as [|l ls Hl _ IH]; cbn [flat_map]; [reflexivity|].
    unfold items_of_line at 1. now rewrite (line_item_needs_digit Hl), IH. }
  rewrite G; [reflexivity|].
  apply Forall_forall. intros l Hl.
  rewrite Forall_forall in H. apply H.
  destruct lines as [|l0 ls]; [contradiction|].
  assert (E : l0 :: ls <> []) by discriminate.
  rewrite (app_removelast_last l0 E). apply in_or_app. now left.
Qed.

(** A text without any digit gives no item and no date: the record has
    today's date, the single item "General Items" of cost 0, and a tax
    and total of 0. *)
Theorem text_without_digits clk (t : text) :
  no_digit t ->
  date (parseReceiptText clk t) = JStr (today_locale clk)
  /\ receipt_items (parseReceiptText clk t) = general_items
  /\ (tax (parseReceiptText clk t) == 0)%Q
  /\ (total (parseReceiptText clk t) == 0)%Q.
Proof.
  intros H.
  pose proof (no_items_without_digits (split_lines_Forall H)) as Hitems.
  change (date (parseReceiptText clk t)) with (JStr (extractDate clk t)).
  change (receipt_items (parseReceiptText clk t))
    with (extractItems (split_lines t)).
  change (tax (parseReceiptText clk t))
    with (round2 (subtotal_of (extractItems (split_lines t)) * (1 # 10))).
  change (total (parseReceiptText clk t))
    with (round2 (subtotal_of (extractItems (split_lines t))
                  + subtotal_of (extractItems (split_lines t)) * (1 # 10))).
  rewrite Hitems, (date_defaults_without_digits_aux clk H).
  repeat split; reflexivity.
Qed.

Lemma text_without_digits_witness :
  receipt_items (parseReceiptText clock0 (str "Thank you
come again")) = general_items.
Proof.
  apply (@text_without_digits clock0 (str "Thank you
come again")).
  repeat constructor.
Defined.

Lemma space_is_not_word c : is_space c = true -> is_word c = false.
Proof.
  intros H. destruct (is_word c) eqn:W; [exfalso|reflexivity].
  unfold is_space, is_word, is_digit, in_range, char_eqb in *.
  repeat rewrite ?orb_true_iff, ?andb_true_iff, ?N.leb_le, ?N.eqb_eq in *.
  lia.
Qed.

Lemma space_is_not_digit c : is_space c = true -> is_digit c = false.
Proof.
  intros H. destruct (is_digit c) eqn:W; [exfalso|reflexivity].
  unfold is_space, is_digit, in_range, char_eqb in *.
  repeat rewrite ?orb_true_iff, ?andb_true_iff, ?N.leb_le, ?N.eqb_eq in *.
  lia.
Qed.

Lemma blank_no_digit (t : text) : blank t -> no_digit t.
Proof.
  unfold blank, no_digit. intros H. eapply Forall_impl; [|exact H].
  intros c. apply space_is_not_digit.
Qed.

Lemma blank_word_at (t : text) i : blank t -> word_at t i = false.
Proof.
  intros H. unfold word_at.
  destruct (nth_error t i) as [c|] eqn:E; [|reflexivity].
  apply nth_error_In in E. unfold blank in H. rewrite Forall_forall in H.
  apply space_is_not_word. now apply H.
Qed.

Lemma blank_word_before (t : text) i : blank t -> word_before t i = false.
Proof.
  intros H. destruct i as [|j]; [reflexivity|]. now apply blank_word_at.
Qed.

(** No word boundary and no visible character in a blank text. *)
Lemma blank_no_boundary ci (t : text) r i (A : Type) cap
      (k : nat -> capture -> option A) :
  blank t -> rmatch ci t (Seq WordB r) i cap k = None.
Proof.
  intros H. cbn [rmatch].
  now rewrite (blank_word_before i H), (blank_word_at i H).
Qed.

Lemma alt_none ci (t : text) a b i (A : Type) cap
      (k : nat -> capture -> option A) :
  rmatch ci t a i cap k = None -> rmatch ci t b i cap k = None ->
  rmatch ci t (Alt a b) i cap k = None.
Proof. intros Ha Hb. cbn [rmatch]. now rewrite Ha, Hb. Qed.

Lemma blank_no_chr (t : text) p i (A : Type) cap
      (k : nat -> capture -> option A) :
  blank t -> is_space p = false -> rmatch false t (Chr p) i cap k = None.
Proof.
  intros H Hp. cbn [rmatch].
  destruct (nth_error t i) as [c|] eqn:E; [|reflexivity].
  apply nth_error_In in E. unfold blank in H. rewrite Forall_forall in H.
  specialize (H c E). unfold chr_eq, char_eqb.
  destruct (N.eqb_spec p c) as [->|]; [congruence|reflexivity].
Qed.

Lemma drop_space_blank (t : text) : blank t -> drop_space t = [].
Proof.
  induction 1 as [|c t Hc _ IH]; [reflexivity|]. cbn. now rewrite Hc.
Qed.

Lemma split_lines_blank (t : text) : blank t -> split_lines t = [].
Proof.
  intros H. pose proof (split_Forall 10%N H) as Hs.
  unfold split_lines.
  induction (split 10%N t) as [|l ls IH]; [reflexivity|].
  inversion Hs as [|? ? Hl Hls]; subst. cbn [filter].
  unfold trim at 1. rewrite (drop_space_blank Hl). cbn.
  now apply IH.
Qed.

Lemma blank_no_signature (t : text) : blank t -> extractCurrency t = str "USD".
Proof.
  intros H. unfold extractCurrency, currencyPatterns.
  cbn [first_currency]. unfold test, word. cbn [alts seqs].
  repeat match goal with
  | |- context [exec false t ?r] =>
      rewrite (@exec_none false t r)
        by (intros i _; unfold match_at;
            repeat first [ apply alt_none
                         | apply blank_no_boundary; exact H
                         | apply blank_no_chr; [exact H|reflexivity] ])
  end.
  reflexivity.
Qed.

(** A blank text (empty, or white space only, as when no text is
    recognised) gives the record of defaults: vendor "Unknown Vendor",
    today's date, "USD", the single item "General Items" of cost 0, tax 0
    and total 0. *)
Theorem blank_text_gives_defaults clk (t : text) :
  blank t ->
  vendor_name (parseReceiptText clk t) = JStr (str "Unknown Vendor")
  /\ date (parseReceiptText clk t) = JStr (today_locale clk)
  /\ currency (parseReceiptText clk t) = JStr (str "USD")
  /\ receipt_items (parseReceiptText clk t) = general_items
  /\ (tax (parseReceiptText clk t) == 0)%Q
  /\ (total (parseReceiptText clk t) == 0)%Q.
Proof.
  intros H.
  pose proof (blank_no_digit H) as Hd.
  pose proof (no_items_without_digits (split_lines_Forall Hd)) as Hitems.
  change (vendor_name (parseReceiptText clk t))
    with (JStr (extractVendorName (split_lines t))).
  change (currency (parseReceiptText clk t)) with (JStr (extractCurrency t)).
  change (date (parseReceiptText clk t)) with (JStr (extractDate clk t)).
  change (receipt_items (parseReceiptText clk t))
    with (extractItems (split_lines t)).
  change (tax (parseReceiptText clk t))
    with (round2 (subtotal_of (extractItems (split_lines t)) * (1 # 10))).
  change (total (parseReceiptText clk t))
    with (round2 (subtotal_of (extractItems (split_lines t))
                  + subtotal_of (extractItems (split_lines t)) * (1 # 10))).
  rewrite Hitems, (date_defaults_without_digits_aux clk Hd).
  rewrite (blank_no_signature H), (split_lines_blank H).
  repeat split; reflexivity.
Qed.

Lemma blank_text_gives_defaults_witness :
  vendor_name (parseReceiptText clock0 []) = JStr (str "Unknown Vendor")
  /\ vendor_name (parseReceiptText clock0 (str "
  ")) = JStr (str "Unknown Vendor").
Proof.
  split.
  - apply (@blank_text_gives_defaults clock0 []). constructor.
  - apply (@blank_text_gives_defaults clock0 (str "
  ")).
    repeat constructor.
Defined.

(** ** The vendor name *)

Lemma vendor_loop_head (ls : list text) v :
  vendor_loop ls = Some v ->
  exists c rest, v = c :: rest /\ is_space c = false /\ is_digit c = false.
Proof.
  induction ls as [|l ls IH]; cbn [vendor_loop]; [discriminate|].
  destruct (vendor_candidate (trim l)) eqn:E; [|exact IH].
  intros H. injection H as <-.
  unfold vendor_candidate in E.
  repeat (apply andb_prop in E; destruct E as [E ?]).
  destruct (trim l) as [|c r] eqn:Et; [discriminate|].
  pose proof (@trim_head l c r Et) as Hc.
  assert (Hd : is_digit c = false).
  { destruct (is_digit c) eqn:D; [exfalso|reflexivity].
    assert (T : test false re_leading_digit (c :: r) = true).
    { apply test_complete with (i := 0); [cbn; lia|].
      unfold match_at, re_leading_digit. cbn. rewrite D. discriminate. }
    match goal with
    | H : negb (test false re_leading_digit (c :: r)) = true |- _ =>
        rewrite T in H; discriminate
    end. }
  unfold clean_vendor.
  destruct (@collapse_keeps_head c r Hc) as [u ->].
  destruct (@trim_keeps_head c u Hc) as [v' ->].
  destruct (@strip_suffix_keeps_head c v' Hc) as [x ->].
  exists c, x. auto.
Qed.

(** ** White space in the vendor name *)

Lemma ss_tail c (r : text) :
  single_spaced (c :: r) = true -> single_spaced r = true.
Proof.
  cbn [single_spaced]. intros H. apply andb_prop in H. tauto.
Qed.

Lemma ss_suffix (p q : text) :
  single_spaced (p ++ q) = true -> single_spaced q = true.
Proof.
  induction p as [|a p IH]; [tauto|].
  intros H. apply IH. exact (@ss_tail a (p ++ q) H).
Qed.

Lemma ss_prefix (p : text) c (q : text) :
  single_spaced (p ++ c :: q) = true -> is_space c = true ->
  single_spaced p = true.
Proof.
  intros H Hc. induction p as [|a p IH]; [reflexivity|].
  pose proof (@ss_tail a (p ++ c :: q) H) as Ht.
  specialize (IH Ht).
  cbn [app single_spaced] in H. apply andb_prop in H. destruct H as [H _].
  cbn [single_spaced]. rewrite IH, andb_true_r.
  destruct (is_space a); [|reflexivity].
  destruct p as [|b p]; cbn [app] in H.
  - rewrite Hc in H. cbn in H. rewrite andb_false_r in H. discriminate.
  - exact H.
Qed.

Lemma ss_nonspace_app (seg t : text) :
  Forall (fun c => is_space c = false) seg ->
  single_spaced t = true -> single_spaced (seg ++ t) = true.
Proof.
  intros Hs Ht. induction Hs as [|c seg Hc _ IH]; [exact Ht|].
  cbn [app single_spaced]. now rewrite Hc, IH.
Qed.

Lemma drop_space_split (s : text) :
  exists pre, s = pre ++ drop_space s
              /\ Forall (fun c => is_space c = true) pre.
Proof.
  induction s as [|c s [pre [Hs Hp]]]; [exists []; split; [reflexivity|constructor]|].
  cbn [drop_space]. destruct (is_space c) eqn:E.
  - exists (c :: pre). split; [cbn; now rewrite <- Hs|now constructor].
  - exists []. split; [reflexivity|constructor].
Qed.

Lemma ss_trim (t : text) :
  single_spaced t = true -> single_spaced (trim t) = true.
Proof.
  intros H. unfold trim.
  destruct (drop_space_split t) as [pre [Ht _]].
  assert (H1 : single_spaced (drop_space t) = true).
  { apply (@ss_suffix pre). now rewrite <- Ht. }
  set (u := drop_space t) in *. clearbody u.
  destruct (drop_space_split (rev u)) as [pre' [Hu Hp]].
  assert (Hu' : u = rev (drop_space (rev u)) ++ rev pre').
  { rewrite <- rev_app_distr, <- Hu. now rewrite rev_involutive. }
  destruct (rev pre') as [|c q] eqn:Er.
  - rewrite app_nil_r in Hu'. now rewrite <- Hu'.
  - apply (@ss_prefix _ c q); [now rewrite <- Hu'|].
    assert (Hin : In c (rev pre')) by (rewrite Er; now left).
    apply in_rev in Hin. rewrite Forall_forall in Hp. now apply Hp.
Qed.

Lemma run_spaces (l : text) :
  (forall k, k < run [ASpace] None l ->
             exists c, nth_error l k = Some c /\ is_space c = true)
  /\ (forall c, nth_error l (run [ASpace] None l) = Some c ->
                is_space c = false).
Proof.
  induction l as [|a l [IH1 IH2]]; cbn [run].
  - split; [intros k Hk; lia|]. cbn. discriminate.
  - unfold cls_mem. cbn [existsb atom_mem]. rewrite orb_false_r.
    destruct (is_space a) eqn:E.
    + split.
      * intros [|k] Hk; [exists a; now split|].
        cbn [nth_error]. apply IH1. lia.
      * cbn [nth_error]. exact IH2.
    + split; [intros k Hk; lia|]. cbn. intros c Hc. now injection Hc as <-.
Qed.

Lemma match_at_spaces (s : text) i :
  match_at false s re_spaces i
  = match run [ASpace] None (skipn i s) with
    | 0 => None
    | S m => Some (i + S m, None)
    end.
Proof.
  unfold match_at, re_spaces. cbn [rmatch].
  destruct (run [ASpace] None (skipn i s)); reflexivity.
Qed.

Lemma spaces_match_inv (s : text) i j cap :
  match_at false s re_spaces i = Some (j, cap) ->
  i < j
  /\ (forall k, i <= k < j ->
                exists c, nth_error s k = Some c /\ is_space c = true)
  /\ (forall c, nth_error s j = Some c -> is_space c = false).
Proof.
  rewrite match_at_spaces.
  destruct (run_spaces (skipn i s)) as [H1 H2].
  destruct (run [ASpace] None (skipn i s)) as [|m]; [discriminate|].
  intros H. injection H as <- _. split; [lia|]. split.
  - intros k Hk. destruct (H1 (k - i)) as [c [Hc Hs]]; [lia|].
    exists c. split; [|exact Hs].
    rewrite nth_error_skipn in Hc. now replace (i + (k - i)) with k in Hc by lia.
  - intros c Hc. apply H2. now rewrite nth_error_skipn.
Qed.

Lemma spaces_match_at_space (s : text) i c :
  nth_error s i = Some c -> is_space c = true ->
  match_at false s re_spaces i <> None.
Proof.
  intros Hc Hs. rewrite match_at_spaces.
  destruct (@skipn_at s i c Hc) as [rest ->].
  cbn [run]. unfold cls_mem. cbn [existsb atom_mem]. now rewrite Hs.
Qed.

Lemma search_from_leftmost ci (s : text) r fuel : forall i a b c,
  search_from ci s r fuel i = Some (a, b, c) ->
  forall k, i <= k < a -> match_at ci s r k = None.
Proof.
  induction fuel as [|f IH]; intros i a b c; cbn [search_from];
    destruct (match_at ci s r i) as [[j cap]|] eqn:E.
  - intros H. injection H as <- _ _. intros k Hk. lia.
  - discriminate.
  - intros H. injection H as <- _ _. intros k Hk. lia.
  - intros H k Hk. destruct (Nat.eq_dec k i) as [->|Hne]; [exact E|].
    apply (IH _ _ _ _ H). lia.
Qed.

Lemma nonspace_from (s : text) from :
  (forall k c, from <= k -> nth_error s k = Some c -> is_space c = false) ->
  Forall (fun c => is_space c = false) (skipn from s).
Proof.
  intros H. apply Forall_forall. intros x Hx.
  apply In_nth_error in Hx. destruct Hx as [n Hn].
  rewrite nth_error_skipn in Hn. apply (H (from + n) x); [lia|exact Hn].
Qed.

Lemma nonspace_sub (s : text) a b :
  (forall k c, a <= k < b -> nth_error s k = Some c -> is_space c = false) ->
  Forall (fun c => is_space c = false) (sub s a b).
Proof.
  intros H. apply Forall_forall. intros x Hx. unfold sub in Hx.
  apply In_nth_error in Hx. destruct Hx as [n Hn].
  rewrite nth_error_firstn in Hn.
  destruct (Nat.ltb_spec n (b - a)); [|discriminate].
  rewrite nth_error_skipn in Hn. apply (H (a + n) x); [lia|exact Hn].
Qed.

Lemma ss_nonspace (t : text) :
  Forall (fun c => is_space c = false) t -> single_spaced t = true.
Proof.
  intros H. rewrite <- (app_nil_r t). now apply ss_nonspace_app.
Qed.

(** The loop of [replace(/\s+/g, ' ')], started at a character that is
    not white space, in a text that does not end in white space. *)
Lemma collapse_from (s : text) :
  (forall k c, nth_error s k = Some c -> is_space c = true ->
               S k < length s) ->
  forall f from,
    length s < from + f ->
    (forall c, nth_error s from = Some c -> is_space c = false) ->
    single_spaced (replace_g_from false re_spaces (str " ") s f from from)
    = true
    /\ (from < length s ->
        exists c r,
          replace_g_from false re_spaces (str " ") s f from from = c :: r
          /\ is_space c = false).
Proof.
  intros Hlast. induction f as [|f IH]; intros from Hf H0.
  - cbn [replace_g_from]. rewrite skipn_all2 by lia.
    split; [reflexivity|lia].
  - rewrite replace_g_from_step.
    destruct (Nat.ltb_spec (length s) from) as [Hgt|Hle].
    { rewrite skipn_all2 by lia. split; [reflexivity|lia]. }
    destruct (search_from false s re_spaces (length s - from) from)
      as [[[i j] cap]|] eqn:E.
    + pose proof (@search_from_leftmost false s re_spaces _ _ _ _ _ E)
        as Hleft.
      apply search_from_sound in E. destruct E as [Hi Hm].
      destruct (@spaces_match_inv s i j cap Hm) as (Hij & Hsp & Hj).
      assert (Hne : (j =? i) = false) by (apply Nat.eqb_neq; lia).
      rewrite Hne.
      assert (Hseg : Forall (fun c => is_space c = false) (sub s from i)).
      { apply nonspace_sub. intros k c Hk Hc.
        destruct (is_space c) eqn:Es; [exfalso|reflexivity].
        exact (@spaces_match_at_space s k c Hc Es (Hleft k Hk)). }
      assert (Hjl : j < length s).
      { destruct (Hsp (j - 1)) as [c [Hc Hs]]; [lia|].
        pose proof (Hlast _ _ Hc Hs). lia. }
      destruct (IH j) as [Hss Hhd]; [lia|exact Hj|].
      destruct (Hhd Hjl) as (c & r & Hr & Hc).
      split.
      * apply ss_nonspace_app; [exact Hseg|].
        rewrite Hr in Hss |- *. change (str " ") with [32%N].
        cbn [app]. change (single_spaced (32%N :: c :: r))
          with ((true && negb (is_space c)) && single_spaced (c :: r))%bool.
        now rewrite Hc, Hss.
      * intros Hfl.
        assert (Hfi : from < i).
        { destruct (Nat.eq_dec i from) as [->|]; [exfalso|lia].
          destruct (Hsp from) as [c0 [Hc0 Hs0]]; [lia|].
          rewrite (H0 _ Hc0) in Hs0. discriminate. }
        destruct (nth_error s from) as [c0|] eqn:Hc0.
        2:{ apply nth_error_None in Hc0. lia. }
        destruct (@skipn_at s from c0 Hc0) as [rest Hrest].
        unfold sub. rewrite Hrest.
        destruct (i - from) as [|m] eqn:Em; [lia|].
        cbn [firstn app]. exists c0. eexists. split; [reflexivity|].
        now apply H0.
    + assert (Hall : Forall (fun c => is_space c = false) (skipn from s)).
      { apply nonspace_from. intros k c Hk Hc.
        destruct (is_space c) eqn:Es; [exfalso|reflexivity].
        assert (Hkl : k < length s).
        { apply nth_error_Some. rewrite Hc. discriminate. }
        apply (@spaces_match_at_space s k c Hc Es).
        replace k with (from + (k - from)) by lia.
        apply (@search_from_none false s re_spaces _ _ E). lia. }
      split; [now apply ss_nonspace|].
      intros Hfl.
      destruct (nth_error s from) as [c0|] eqn:Hc0.
      2:{ apply nth_error_None in Hc0. lia. }
      destruct (@skipn_at s from c0 Hc0) as [rest Hrest].
      rewrite Hrest. exists c0, rest. split; [reflexivity|now apply H0].
Qed.

Lemma collapse_single_spaced (s : text) h r x l :
  s = h :: r -> s = x ++ [l] ->
  is_space h = false -> is_space l = false ->
  single_spaced (replace_g false re_spaces (str " ") s) = true.
Proof.
  intros Hs1 Hs2 Hh Hl. unfold replace_g.
  apply collapse_from.
  - intros k c Hc Hsp.
    assert (Hk : k < length s).
    { apply nth_error_Some. rewrite Hc. discriminate. }
    destruct (Nat.eq_dec (S k) (length s)) as [Heq|]; [exfalso|lia].
    rewrite Hs2 in Hc, Heq. rewrite length_app in Heq. cbn in Heq.
    assert (k = length x) by lia. subst k.
    rewrite nth_error_app2 in Hc by lia. rewrite Nat.sub_diag in Hc.
    cbn in Hc. injection Hc as <-. rewrite Hl in Hsp. discriminate.
  - lia.
  - rewrite Hs1. cbn. intros c Hc. now injection Hc as <-.
Qed.

(** A match of the suffix pattern starts at a white-space character and
    ends at the end of the text. *)
Lemma suffix_match_inv (v : text) i j cap :
  i <= length v ->
  match_at true v re_suffix i = Some (j, cap) ->
  j = length v
  /\ exists c, nth_error v i = Some c /\ is_space c = true.
Proof.
  intros Hi. unfold match_at, re_suffix. cbn [seqs]. cbn [rmatch].
  intros H. apply backoff_inv in H. destruct H as (m & Hm1 & Hm2 & H).
  pose proof (@run_le_length [ASpace] (skipn i v) None) as Hrun.
  rewrite length_skipn in Hrun.
  apply rmatch_inv in H; [|lia].
  destruct H as (j2 & c2 & H & _ & _).
  destruct (j2 =? length v) eqn:E; [|discriminate].
  injection H as <- _. apply Nat.eqb_eq in E. split; [exact E|].
  destruct (run_spaces (skipn i v)) as [H1 _].
  destruct (H1 0) as [c [Hc Hs]]; [lia|].
  rewrite nth_error_skipn, Nat.add_0_r in Hc. eauto.
Qed.

Lemma strip_suffix_ss (v : text) :
  single_spaced v = true ->
  single_spaced (replace true re_suffix [] v) = true.
Proof.
  intros Hv. unfold replace, exec.
  destruct (search_from true v re_suffix (length v) 0)
    as [[[i j] cap]|] eqn:E; [|exact Hv].
  pose proof (@search_from_bound true v re_suffix _ _ _ _ _ E) as Hb.
  apply search_from_sound in E. destruct E as [_ Hm].
  destruct (@suffix_match_inv v i j cap Hb Hm) as [-> [c [Hc Hs]]].
  rewrite skipn_all, app_nil_r. cbn [app].
  destruct (@skipn_at v i c Hc) as [rest Hrest].
  apply (@ss_prefix (firstn i v) c rest); [|exact Hs].
  now rewrite <- Hrest, firstn_skipn.
Qed.

Lemma vendor_loop_ss (ls : list text) v :
  vendor_loop ls = Some v -> single_spaced v = true.
Proof.
  induction ls as [|l ls IH]; cbn [vendor_loop]; [discriminate|].
  destruct (vendor_candidate (trim l)) eqn:E; [|exact IH].
  intros H. injection H as <-.
  unfold clean_vendor. apply strip_suffix_ss, ss_trim.
  destruct (trim_ends l) as [Hn|(h & r & x & la & H1 & H2 & Hh & Hl)].
  - rewrite Hn in E. discriminate.
  - exact (@collapse_single_spaced (trim l) h r x la H1 H2 Hh Hl).
Qed.

(** The vendor name is white-space normalised: every white-space
    character in it is a single U+0020 between two characters that are
    not white space (tabs and runs of blanks of the line are collapsed,
    nothing is left at either end).  It is "Unknown Vendor", or begins
    with the first character of the trimmed line it was taken from,
    which is not a digit. *)
Theorem vendor_name_is_normalised (lines : list text) :
  single_spaced (extractVendorName lines) = true
  /\ (extractVendorName lines = str "Unknown Vendor"
      \/ exists c rest,
           extractVendorName lines = c :: rest
           /\ is_space c = false /\ is_digit c = false).
Proof.
  unfold extractVendorName.
  destruct (vendor_loop (firstn 5 lines)) as [v|] eqn:E.
  - split; [exact (@vendor_loop_ss _ _ E)|right].
    exact (@vendor_loop_head _ _ E).
  - split; [reflexivity|left; reflexivity].
Qed.

End ParserExtras.

(* ================================================================== *)
(** * Which extracted records can be stored *)
(* ================================================================== *)

Module ValidityExtras.
Import Js Re Exn Json Data AiService Pipeline Spec Spec2 Examples ReFacts
       MatcherBounds ParserProofs ParserExtras OrchestratorExtras.












(** Without a structured backend the service of
    [modules/ai/ai.service.ts] and the three-tier service return the same
    record and run the local OCR engine the same number of times. *)
Theorem two_tier_service_agrees clk en n :
  openaiClient en = None ->
  AiServiceTwoTier.extractReceiptData clk en n
  = AiService.extractReceiptData clk en n.
Proof.
  intros Hg.
  unfold AiServiceTwoTier.extractReceiptData, AiService.extractReceiptData,
    AiService.try_catch, from_gpt, from_vision. rewrite Hg.
  destruct (fallbackParsing_total clk en n) as [d Hd].
  destruct (visionClient en) as [v|].
  - destruct (extractWithVisionApi clk v) as [x|e].
    + reflexivity.
    + now rewrite Hd.
  - now rewrite Hd.
Qed.

Lemma two_tier_service_agrees_witness :
  AiServiceTwoTier.extractReceiptData clock0
    (mkEngines None (Some (Ok test_store_text)) (fun _ => Ok [])) 0
  = AiService.extractReceiptData clock0
      (mkEngines None (Some (Ok test_store_text)) (fun _ => Ok [])) 0.
Proof.
  apply two_tier_service_agrees. reflexivity.
Defined.

End ValidityExtras.

(* ================================================================== *)
(** * More on the stores and the pipeline *)
(* ================================================================== *)

Module PipelineExtras.
Import Js Exn Json Data Pipeline Queries Spec Spec2 Examples PipelineProofs.
Import ValidityExtras.

Lemma text_eqb_refl (a : text) : text_eqb a a = true.
Proof.
  induction a as [|x a IH]; [reflexivity|]. cbn.
  unfold char_eqb. now rewrite N.eqb_refl, IH.
Qed.

Lemma text_eqb_eq (a b : text) : text_eqb a b = true -> a = b.
Proof.
  revert b. induction a as [|x a IH]; intros [|y b]; cbn;
    try discriminate; [reflexivity|].
  intros H. apply andb_prop in H. destruct H as [H1 H2].
  apply N.eqb_eq in H1. subst. f_equal. now apply IH.
Qed.

Lemma mem_In (x : text) (l : list text) : mem x l = true -> In x l.
Proof.
  unfold mem. intros H. apply existsb_exists in H.
  destruct H as (y & Hy & E). apply text_eqb_eq in E. now subst.
Qed.

(** [validateFile] either accepts the file or rejects it with a client
    fault; it changes nothing. *)
Lemma validateFile_cases pf file w :
  (acceptable pf file /\ validateFile pf file w = (Ok tt, w))
  \/ (violates pf file
      /\ exists m, validateFile pf file w = (Throw (BadRequestException m), w)).
Proof.
  unfold validateFile, acceptable, violates.
  destruct (Z.gtb_spec (size file) maxFileSize) as [Hs|Hs].
  { right. split; [left; lia|eexists; reflexivity]. }
  destruct (mem (toLowerCase (extname pf (originalname file))) allowedExtensions)
    eqn:He; cbn [negb].
  2:{ right. split; [right; right; left; reflexivity|eexists; reflexivity]. }
  destruct (mem (mimetype file) allowedMimeTypes) eqn:Hm; cbn [negb].
  2:{ right. split; [right; left; reflexivity|eexists; reflexivity]. }
  destruct (buffer file) as [[|b0 b]|] eqn:Hb.
  - right. split; [do 4 right; reflexivity|eexists; reflexivity].
  - left. split; [|reflexivity]. repeat split; try lia; eauto.
  - right. split; [do 3 right; left; reflexivity|eexists; reflexivity].
Qed.

Lemma acceptable_not_violates pf file :
  acceptable pf file -> ~ violates pf file.
Proof.
  intros (Hs & He & Hm & b0 & b & Hb) [H|[H|[H|[H|H]]]];
    try congruence; lia.
Qed.

(** What a successful [saveImage] has done. *)
Lemma saveImage_ok pf file w url w1 :
  saveImage pf file w = (Ok url, w1) ->
  acceptable pf file
  /\ (dir_exists w = true \/ mkdir_ok pf = true)
  /\ write_ok pf = true
  /\ url = image_reference pf file
  /\ exists b,
       buffer file = Some b
       /\ w1 = mkWorld true
                 ((join pf uploadDir
                        (generateSecureFilename pf (originalname file)), b)
                  :: files w)
                 (receipts w)
                 (WroteFile (join pf uploadDir
                               (generateSecureFilename pf (originalname file)))
                  :: journal w).
Proof.
  unfold saveImage, try_catch. unfold bind at 1.
  destruct (validateFile_cases pf file w) as [[Ha Hv]|[Hvi [m Hv]]];
    rewrite Hv; [|discriminate].
  destruct Ha as (Hs & He & Hm & b0 & b & Hb).
  unfold bind, ensureUploadDirectory, writeFile, ret, throw, image_reference.
  rewrite Hb.
  destruct (dir_exists w) eqn:Hd; [|destruct (mkdir_ok pf) eqn:Hmk];
    destruct (write_ok pf) eqn:Hw; cbn; intros H; inversion H; subst;
    (split; [repeat split; eauto|]);
    (split; [auto|]); (split; [reflexivity|]); (split; [reflexivity|]);
    eexists; (split; [reflexivity|]); rewrite <- ?Hd; reflexivity.
Qed.

(** [saveImage] succeeds exactly when the file passes every validation
    rule, the upload directory exists or can be created, and the write
    succeeds; it then returns "/uploads/" followed by the generated name
    (the identifier and the lower-cased extension), has stored the buffer
    under that name in the upload directory, and has touched nothing
    else. *)
Theorem saveImage_success pf file w url w1 :
  saveImage pf file w = (Ok url, w1)
  <-> (acceptable pf file
       /\ (dir_exists w = true \/ mkdir_ok pf = true)
       /\ write_ok pf = true
       /\ url = image_reference pf file
       /\ exists b,
            buffer file = Some b
            /\ w1 = mkWorld true
                      ((join pf uploadDir
                             (generateSecureFilename pf (originalname file)), b)
                       :: files w)
                      (receipts w)
                      (WroteFile (join pf uploadDir
                                    (generateSecureFilename pf (originalname file)))
                       :: journal w)).
Proof.
  split; [apply saveImage_ok|].
  intros (Ha & Hd & Hw & -> & b & Hb & ->).
  unfold saveImage, try_catch. unfold bind at 1.
  destruct (validateFile_cases pf file w) as [[_ Hv]|[Hvi _]];
    [|exfalso; exact (@acceptable_not_violates pf file Ha Hvi)].
  rewrite Hv.
  unfold bind, ensureUploadDirectory, writeFile, ret, image_reference.
  rewrite Hb, Hw. cbv beta.
  destruct (dir_exists w) eqn:Ed.
  - cbn. rewrite Ed. reflexivity.
  - destruct Hd as [Hd|Hd]; [discriminate|]. rewrite Hd. reflexivity.
Qed.

(** When [saveImage] fails, no file has been written and the Record
    Store and the journal are as before; the failure is the client fault
    of the violated rule, or else the server fault "Failed to save image
    file" (the directory could not be created or the write failed). *)
Theorem saveImage_failure pf file w e w1 :
  saveImage pf file w = (Throw e, w1) ->
  files w1 = files w /\ receipts w1 = receipts w /\ journal w1 = journal w
  /\ ((violates pf file /\ w1 = w /\ exists m, e = BadRequestException m)
      \/ (acceptable pf file
          /\ e = InternalServerErrorException msg_save)).
Proof.
  unfold saveImage, try_catch. unfold bind at 1.
  destruct (validateFile_cases pf file w) as [[Ha Hv]|[Hvi [m Hv]]];
    rewrite Hv.
  - unfold bind, ensureUploadDirectory, writeFile, ret, throw.
    destruct (dir_exists w) eqn:Hd; [|destruct (mkdir_ok pf)];
      destruct (write_ok pf); cbn; intros H; inversion H; subst; cbn;
      repeat split; auto.
  - cbn. intros H. inversion H; subst.
    repeat split; auto. left. repeat split; eauto.
Qed.

Lemma saveImage_failure_witness :
  exists e w1,
    saveImage (platform0 (Ok negative_tax)) pdf_upload empty_world = (Throw e, w1)
    /\ files w1 = [].
Proof.
  do 2 eexists. split; [reflexivity|].
  apply (@saveImage_failure (platform0 (Ok negative_tax)) pdf_upload
           empty_world _ _ eq_refl).
Defined.

Lemma saveImage_success_witness :
  saveImage (platform0 (Ok negative_tax)) jpeg_upload empty_world
  = (Ok (str "/uploads/3f2a.jpg"),
     mkWorld true [(str "uploads/3f2a.jpg", [255; 216; 255; 224]%N)] []
             [WroteFile (str "uploads/3f2a.jpg")]).
Proof.
  apply (proj2 (saveImage_success (platform0 (Ok negative_tax)) jpeg_upload
                  empty_world _ _)).
  split.
  - repeat split; try reflexivity.
    + vm_compute. discriminate.
    + do 2 eexists. reflexivity.
  - split; [right; reflexivity|]. split; [reflexivity|].
    split; [reflexivity|]. eexists. split; reflexivity.
Defined.

(** ** Finding a saved image again *)

Lemma split_no_sep sep (f : text) :
  ~ In sep f -> split sep f = [f].
Proof.
  induction f as [|c f IH]; intros H; [reflexivity|].
  cbn [split]. unfold char_eqb.
  destruct (N.eqb_spec c sep) as [->|Hne]; [exfalso; apply H; now left|].
  rewrite IH; [reflexivity|]. intros Hin. apply H. now right.
Qed.

Lemma split_nonempty sep (t : text) : split sep t <> [].
Proof.
  destruct t as [|c t]; cbn [split]; [discriminate|].
  destruct (char_eqb c sep); [discriminate|].
  destruct (split sep t); discriminate.
Qed.

Lemma split_after_sep sep (a b : text) :
  exists l ls,
    split sep (a ++ sep :: b) = l :: ls /\ ls <> []
    /\ last ls [] = last (split sep b) [].
Proof.
  induction a as [|c a IH]; cbn [app split].
  - unfold char_eqb. rewrite N.eqb_refl.
    exists [], (split sep b). repeat split. apply split_nonempty.
  - destruct IH as (l & ls & E & Hne & Hl). rewrite E.
    destruct (char_eqb c sep).
    + exists [], (l :: ls). repeat split; [discriminate|].
      destruct ls; [congruence|exact Hl].
    + exists (c :: l), ls. repeat split; assumption.
Qed.

Lemma last_split_app sep (a b : text) :
  last (split sep (a ++ sep :: b)) [] = last (split sep b) [].
Proof.
  destruct (split_after_sep sep a b) as (l & ls & -> & Hne & Hl).
  destruct ls; [congruence|exact Hl].
Qed.

(** The name is what follows the last slash of the reference. *)
Lemma last_segment_of_reference (f : text) :
  ~ In 47%N f -> last_segment (str "/uploads/" ++ f) = f.
Proof.
  intros H. unfold last_segment.
  change (str "/uploads/" ++ f) with (str "/uploads" ++ 47%N :: f).
  now rewrite last_split_app, (@split_no_sep 47%N f H).
Qed.

Lemma allowed_extension_shape (e : text) :
  mem e allowedExtensions = true -> ~ In 47%N e /\ e <> [].
Proof.
  intros H. apply mem_In in H. unfold allowedExtensions in H.
  cbn [In] in H.
  destruct H as [<-|[<-|[<-|[]]]]; (split; [|discriminate]);
    cbn; intros H; repeat (destruct H as [H|H]; [discriminate|]);
    exact H.
Qed.

Lemma generated_name_shape pf file :
  acceptable pf file -> ~ In 47%N (uuidv4 pf) ->
  ~ In 47%N (generateSecureFilename pf (originalname file))
  /\ generateSecureFilename pf (originalname file) <> [].
Proof.
  intros (_ & He & _) Hu. unfold generateSecureFilename.
  destruct (@allowed_extension_shape _ He) as [Hn Hne].
  split.
  - intros Hin. apply in_app_or in Hin. tauto.
  - intros E. apply app_eq_nil in E. tauto.
Qed.

(** A saved image is found again under the reference [saveImage]
    returned, provided the generated identifier has no slash: after the
    save, [getImageInfo] on that reference reports the file with its
    path, and it still does after [deleteImage] has been called on the
    reference, because that call removes nothing. *)
Theorem saved_image_is_found pf file w url w1 :
  saveImage pf file w = (Ok url, w1) ->
  ~ In 47%N (uuidv4 pf) ->
  getImageInfo pf url w1
  = mkInfo true (Some (join pf uploadDir
                         (generateSecureFilename pf (originalname file))))
  /\ exists w2,
       deleteImage pf url w1 = (Ok tt, w2)
       /\ getImageInfo pf url w2 = getImageInfo pf url w1.
Proof.
  intros Hs Hu. apply saveImage_ok in Hs.
  destruct Hs as (Ha & _ & _ & -> & b & _ & ->).
  destruct (@generated_name_shape pf file Ha Hu) as [Hn Hne].
  assert (G : forall w',
             files w' = (join pf uploadDir
                           (generateSecureFilename pf (originalname file)), b)
                        :: files w ->
             getImageInfo pf (image_reference pf file) w'
             = mkInfo true (Some (join pf uploadDir
                             (generateSecureFilename pf (originalname file))))).
  { intros w' Hf. unfold getImageInfo, image_reference.
    rewrite (@last_segment_of_reference _ Hn).
    destruct (generateSecureFilename pf (originalname file)) as [|c f] eqn:E;
      [congruence|].
    unfold accessible. rewrite Hf. cbn [existsb fst].
    now rewrite text_eqb_refl. }
  split; [apply G; reflexivity|].
  match goal with
  | |- context [deleteImage pf ?u ?x] =>
      destruct (deleteImage_effect pf u x) as (w2 & Hdel & _ & Hfiles & _)
  end.
  exists w2. split; [exact Hdel|].
  rewrite (G w2) by (rewrite Hfiles; reflexivity).
  rewrite G by reflexivity. reflexivity.
Qed.

Lemma saved_image_is_found_witness :
  getImageInfo (platform0 (Ok negative_tax)) (str "/uploads/3f2a.jpg")
    (mkWorld true [(str "uploads/3f2a.jpg", [255; 216; 255; 224]%N)] []
             [WroteFile (str "uploads/3f2a.jpg")])
  = mkInfo true (Some (str "uploads/3f2a.jpg")).
Proof.
  apply (@saved_image_is_found (platform0 (Ok negative_tax)) jpeg_upload
           empty_world _ _ eq_refl).
  cbn. intros H. repeat (destruct H as [H|H]; [discriminate|]). exact H.
Defined.

(** ** The receipt service *)

(** Only classified faults leave the services: whatever goes wrong in
    [extractReceiptDetails], [getReceiptById], [deleteReceipt] or
    [saveImage], the exception is a [BadRequestException] or an
    [InternalServerErrorException], never a raw error of the file
    system, the database or the extraction service. *)
Theorem only_classified_faults_escape pf :
  (forall file w e w', extractReceiptDetails pf file w = (Throw e, w') ->
                       classified e = true)
  /\ (forall rid w e w', getReceiptById pf rid w = (Throw e, w') ->
                         classified e = true)
  /\ (forall rid w e w', deleteReceipt pf rid w = (Throw e, w') ->
                         classified e = true)
  /\ (forall file w e w', saveImage pf file w = (Throw e, w') ->
                          classified e = true).
Proof.
  repeat split.
  - intros file w e w'. unfold extractReceiptDetails, try_catch.
    match goal with |- context [match ?m w with _ => _ end] =>
      destruct (m w) as [[x|e0] w0] end; [discriminate|].
    destruct (classified e0) eqn:C; cbn; intros H; inversion H; subst;
      [exact C|reflexivity].
  - intros rid w e w'. unfold getReceiptById, try_catch.
    match goal with |- context [match ?m w with _ => _ end] =>
      destruct (m w) as [[x|e0] w0] end; [discriminate|].
    destruct e0; cbn; intros H; inversion H; subst; reflexivity.
  - intros rid w e w'. unfold deleteReceipt, try_catch.
    match goal with |- context [match ?m w with _ => _ end] =>
      destruct (m w) as [[x|e0] w0] end; [discriminate|].
    destruct e0; cbn; intros H; inversion H; subst; reflexivity.
  - intros file w e w'. unfold saveImage, try_catch.
    match goal with |- context [match ?m w with _ => _ end] =>
      destruct (m w) as [[x|e0] w0] end; [discriminate|].
    destruct e0; cbn; intros H; inversion H; subst; reflexivity.
Qed.

Lemma only_classified_faults_escape_witness :
  exists e w',
    getReceiptById (platform0 (Ok negative_tax)) (str "r-9") one_receipt_world
    = (Throw e, w')
    /\ classified e = true.
Proof.
  do 2 eexists. split; [reflexivity|].
  apply (proj1 (proj2 (only_classified_faults_escape
                         (platform0 (Ok negative_tax))))
           (str "r-9") one_receipt_world _ _ eq_refl).
Defined.

(** The record that is stored for an upload. *)
Lemma upload_stores pf file w url w1 data :
  saveImage pf file w = (Ok url, w1) ->
  extract pf (buffer file) = Ok data ->
  isValidAiResponse data = true ->
  save_ok pf = true ->
  let saved := mkReceipt (generated_id pf) (date data) (currency data)
                 (vendor_name data) (receipt_items data) (tax data)
                 (total data) url in
  extractReceiptDetails pf file w
  = (Ok saved,
     mkWorld (dir_exists w1) (files w1) (saved :: receipts w1)
             (RepoSaved (generated_id pf) :: CalledExtract :: journal w1)).
Proof.
  intros Hs He Hv Hok saved.
  destruct (saveImage_effect _ _ _ Hs) as (_ & _ & Hm).
  specialize (Hm url eq_refl).
  unfold extractReceiptDetails, try_catch. rewrite Hm. cbn [negb].
  unfold bind at 1. rewrite Hs.
  unfold bind at 1. unfold bind at 1. unfold record at 1. rewrite He.
  rewrite Hv. cbn [negb].
  unfold bind, repo_save, ret. rewrite Hok. reflexivity.
Qed.

(** A successful upload can be read back: when the image is saved, the
    extracted record passes the check and the database accepts it, the
    record is stored with the generated identifier, the fields of the
    extracted record and the reference of the saved image, the image
    stays in the File Store, and [getReceiptById] on the returned
    identifier returns that same record. *)
Theorem upload_then_get pf file w url w1 data :
  saveImage pf file w = (Ok url, w1) ->
  extract pf (buffer file) = Ok data ->
  isValidAiResponse data = true ->
  save_ok pf = true ->
  find_ok pf = true ->
  exists saved w2,
    extractReceiptDetails pf file w = (Ok saved, w2)
    /\ saved = mkReceipt (generated_id pf) (date data) (currency data)
                 (vendor_name data) (receipt_items data) (tax data)
                 (total data) url
    /\ receipts w2 = saved :: receipts w
    /\ files w2 = files w1
    /\ getReceiptById pf (id saved) w2 = (Ok saved, w2).
Proof.
  intros Hs He Hv Hok Hf.
  pose proof (@upload_stores pf file w url w1 data Hs He Hv Hok) as H.
  cbv zeta in H.
  destruct (saveImage_effect _ _ _ Hs) as (Hr & _ & _).
  do 2 eexists. split; [exact H|].
  split; [reflexivity|]. cbn [receipts files id].
  split; [now rewrite Hr|]. split; [reflexivity|].
  unfold getReceiptById, try_catch, bind, repo_findOne. rewrite Hf.
  cbn [receipts find id]. rewrite text_eqb_refl. reflexivity.
Qed.

Lemma upload_then_get_witness :
  exists saved w2,
    extractReceiptDetails (platform0 (Ok (ocr_failed_record))) jpeg_upload
      empty_world = (Ok saved, w2)
    /\ getReceiptById (platform0 (Ok (ocr_failed_record))) (str "r-1") w2
       = (Ok saved, w2).
Proof.
  destruct (@upload_then_get (platform0 (Ok (ocr_failed_record))) jpeg_upload
              empty_world _ _ ocr_failed_record eq_refl eq_refl eq_refl
              eq_refl eq_refl)
    as (saved & w2 & H1 & E & _ & _ & H2).
  exists saved, w2. split; [exact H1|].
  rewrite E in H2. cbn [id] in H2. rewrite <- E in H2. exact H2.
Defined.

(** When the extraction call throws, or the database refuses the record,
    after the image has been saved, the request fails with a server
    fault (or with the classified fault the extraction threw), no record
    is stored, and the saved image stays in the File Store: [deleteImage]
    is not called. *)
Theorem failed_upload_keeps_the_image pf file w url w1 :
  saveImage pf file w = (Ok url, w1) ->
  ((exists e0, extract pf (buffer file) = Throw e0)
   \/ (exists data, extract pf (buffer file) = Ok data
                    /\ isValidAiResponse data = true
                    /\ save_ok pf = false)) ->
  exists e w2,
    extractReceiptDetails pf file w = (Throw e, w2)
    /\ classified e = true
    /\ files w2 = files w1
    /\ receipts w2 = receipts w
    /\ delete_calls (journal w2) = delete_calls (journal w).
Proof.
  intros Hs Hcase.
  destruct (saveImage_effect _ _ _ Hs) as (Hr & Hj & Hm).
  specialize (Hm url eq_refl).
  unfold extractReceiptDetails, try_catch. rewrite Hm. cbn [negb].
  unfold bind at 1. rewrite Hs.
  unfold bind at 1. unfold bind at 1. unfold record at 1.
  destruct Hcase as [[e0 He]|(data & He & Hv & Hok)]; rewrite He.
  - destruct (classified e0) eqn:C; cbn; do 2 eexists;
      (split; [reflexivity|]); cbn; repeat split; auto.
  - rewrite Hv. cbn [negb]. unfold bind, repo_save. rewrite Hok. cbn.
    do 2 eexists. split; [reflexivity|]. cbn. repeat split; auto.
Qed.

Lemma failed_upload_keeps_the_image_witness :
  exists e w2,
    extractReceiptDetails (platform0 (Throw (Error (str "AI service unavailable"))))
      jpeg_upload empty_world = (Throw e, w2)
    /\ classified e = true
    /\ files w2 = [(str "uploads/3f2a.jpg", [255; 216; 255; 224]%N)]
    /\ receipts w2 = []
    /\ delete_calls (journal w2) = [].
Proof.
  apply (@failed_upload_keeps_the_image
           (platform0 (Throw (Error (str "AI service unavailable"))))
           jpeg_upload empty_world _ _ eq_refl).
  left. eexists. reflexivity.
Defined.

(** ** Deleting *)

Lemma deleteReceipt_cases pf rid w :
  (find_ok pf = false
   /\ deleteReceipt pf rid w
      = (Throw (InternalServerErrorException msg_delete_failed), w))
  \/ (find_ok pf = true
      /\ find (fun r => text_eqb (id r) rid) (receipts w) = None
      /\ deleteReceipt pf rid w = (Throw (BadRequestException msg_not_found), w))
  \/ (exists r w1,
        find_ok pf = true
        /\ find (fun r => text_eqb (id r) rid) (receipts w) = Some r
        /\ id r = rid
        /\ deleteImage pf (image_url r) w = (Ok tt, w1)
        /\ files w1 = files w /\ receipts w1 = receipts w
        /\ ((remove_ok pf = false
             /\ deleteReceipt pf rid w
                = (Throw (InternalServerErrorException msg_delete_failed), w1))
            \/ (remove_ok pf = true
                /\ deleteReceipt pf rid w
                   = (Ok tt,
                      mkWorld (dir_exists w1) (files w1)
                        (filter (fun x => negb (text_eqb (id x) rid))
                                (receipts w))
                        (RepoRemoved rid :: journal w1))))).
Proof.
  unfold deleteReceipt, try_catch, bind, repo_findOne. cbv beta.
  destruct (find_ok pf) eqn:Hf; [|left; split; reflexivity].
  right. cbv beta iota.
  destruct (find (fun r => text_eqb (id r) rid) (receipts w)) as [r|] eqn:Efind.
  - right.
    pose proof (find_some _ _ Efind) as [_ Hid]. apply text_eqb_eq in Hid.
    destruct (deleteImage_effect pf (image_url r) w)
      as (w1 & Hdel & _ & Hfiles & Hrec & _).
    exists r, w1. repeat split; try assumption.
    rewrite Hdel. unfold repo_remove.
    destruct (remove_ok pf); [right|left]; (split; [reflexivity|]).
    + rewrite Hrec, Hid. reflexivity.
    + reflexivity.
  - left. repeat split; reflexivity.
Qed.

(** Deleting or reading an identifier that is not in the Record Store is
    a client fault "not found" and touches nothing: no record changes and
    [deleteImage] is not called. *)
Theorem unknown_id_is_a_client_fault pf rid w :
  find_ok pf = true ->
  find (fun r => text_eqb (id r) rid) (receipts w) = None ->
  deleteReceipt pf rid w = (Throw (BadRequestException msg_not_found), w)
  /\ getReceiptById pf rid w = (Throw (BadRequestException msg_not_found), w).
Proof.
  intros Hf Hn. split.
  - unfold deleteReceipt, try_catch, bind, repo_findOne.
    now rewrite Hf, Hn.
  - unfold getReceiptById, try_catch, bind, repo_findOne.
    now rewrite Hf, Hn.
Qed.

Lemma unknown_id_is_a_client_fault_witness :
  deleteReceipt (platform0 (Ok negative_tax)) (str "r-9") one_receipt_world
  = (Throw (BadRequestException msg_not_found), one_receipt_world).
Proof.
  apply (@unknown_id_is_a_client_fault (platform0 (Ok negative_tax))
           (str "r-9") one_receipt_world); reflexivity.
Defined.

(** After a successful delete the identifier is gone: reading it is the
    client fault "not found"; every record with another identifier is
    still there, and no file has left the File Store. *)
Theorem deleted_receipt_is_gone pf rid w w' :
  deleteReceipt pf rid w = (Ok tt, w') ->
  getReceiptById pf rid w' = (Throw (BadRequestException msg_not_found), w')
  /\ (forall x, text_eqb (id x) rid = false ->
                (In x (receipts w') <-> In x (receipts w)))
  /\ files w' = files w.
Proof.
  intros H.
  destruct (deleteReceipt_cases pf rid w)
    as [[_ E]|[(_ & _ & E)|(r & w1 & Hf & _ & _ & _ & Hfiles & _ & [[_ E]|[_ E]])]];
    rewrite E in H; try discriminate.
  injection H as <-. cbn [receipts files].
  split; [|split].
  - unfold getReceiptById, try_catch, bind, repo_findOne. rewrite Hf.
    cbn [receipts]. now rewrite find_filter_negb.
  - intros x Hx. rewrite filter_In, Hx. cbn. tauto.
  - exact Hfiles.
Qed.

Lemma deleted_receipt_is_gone_witness :
  exists w',
    deleteReceipt (platform0 (Ok negative_tax)) (str "r-1") one_receipt_world
    = (Ok tt, w')
    /\ getReceiptById (platform0 (Ok negative_tax)) (str "r-1") w'
       = (Throw (BadRequestException msg_not_found), w').
Proof.
  eexists. split; [reflexivity|].
  apply (@deleted_receipt_is_gone (platform0 (Ok negative_tax)) (str "r-1")
           one_receipt_world _ eq_refl).
Defined.

(** A delete that fails changes neither store: the record, if there is
    one, is still in the Record Store, and the failure is "not found"
    (client fault) or "Failed to delete receipt." (server fault, when the
    database refuses the lookup or the removal). *)
Theorem failed_delete_changes_nothing pf rid w e w' :
  deleteReceipt pf rid w = (Throw e, w') ->
  receipts w' = receipts w /\ files w' = files w
  /\ (e = BadRequestException msg_not_found
      \/ e = InternalServerErrorException msg_delete_failed).
Proof.
  intros H.
  destruct (deleteReceipt_cases pf rid w)
    as [[_ E]|[(_ & _ & E)|(r & w1 & _ & _ & _ & _ & Hfiles & Hrec & [[_ E]|[_ E]])]];
    rewrite E in H; try discriminate; injection H as <- <-; auto.
Qed.

Lemma failed_delete_changes_nothing_witness :
  exists e w',
    deleteReceipt platform_no_remove (str "r-1") one_receipt_world
    = (Throw e, w')
    /\ receipts w' = [stored_receipt].
Proof.
  do 2 eexists. split; [reflexivity|].
  apply (@failed_delete_changes_nothing platform_no_remove (str "r-1")
           one_receipt_world _ _ eq_refl).
Defined.

(** ** The controller, and the whole path *)

(** The controller only adds the check that a file was sent: without one
    the request is a client fault and nothing is touched; with one it
    behaves as [ReceiptService.extractReceiptDetails]. *)
Theorem controller_checks_the_file pf w :
  controller_extractReceiptDetails pf None w
  = (Throw (BadRequestException msg_no_file), w)
  /\ (forall f, controller_extractReceiptDetails pf (Some f) w
                = extractReceiptDetails pf f w).
Proof.
  split; [reflexivity|].
  intros f. unfold controller_extractReceiptDetails.
  unfold try_catch at 1.
  destruct (extractReceiptDetails pf f w) as [[x|e] w']; reflexivity.
Qed.



(** A failed upload never leaves a record behind: whenever
    [extractReceiptDetails] throws, the Record Store is as it was. *)
Theorem failed_upload_stores_no_record pf file w e w' :
  extractReceiptDetails pf file w = (Throw e, w') ->
  receipts w' = receipts w.
Proof.
  unfold extractReceiptDetails, try_catch.
  destruct (isValidImageFile file); cbn [negb].
  2:{ cbn. intros H. inversion H. reflexivity. }
  unfold bind at 1.
  destruct (saveImage pf file w) as [[url|e0] w1] eqn:Hs.
  - destruct (saveImage_effect _ _ _ Hs) as (Hr & _ & _).
    unfold bind at 1. unfold bind at 1. unfold record at 1.
    destruct (extract pf (buffer file)) as [data|e1].
    + destruct (isValidAiResponse data); cbn [negb].
      * unfold bind, repo_save, ret. destruct (save_ok pf); [discriminate|].
        cbn. intros H. inversion H. subst. cbn. exact Hr.
      * unfold bind at 1.
        match goal with
        | |- context [deleteImage pf url ?x] =>
            destruct (deleteImage_effect pf url x)
              as (w2 & Hdel & _ & _ & Hr2 & _)
        end.
        rewrite Hdel. cbn. intros H. inversion H. subst.
        rewrite Hr2. cbn. exact Hr.
    + destruct (classified e1); cbn; intros H; inversion H; subst; cbn;
        exact Hr.
  - destruct (saveImage_effect _ _ _ Hs) as (Hr & _ & _).
    destruct (classified e0); cbn; intros H; inversion H; subst; exact Hr.
Qed.

Lemma failed_upload_stores_no_record_witness :
  exists e w',
    extractReceiptDetails (platform0 (Ok negative_tax)) jpeg_upload
      one_receipt_world = (Throw e, w')
    /\ receipts w' = [stored_receipt].
Proof.
  do 2 eexists. split; [reflexivity|].
  apply (@failed_upload_stores_no_record (platform0 (Ok negative_tax))
           jpeg_upload one_receipt_world _ _ eq_refl).
Defined.

End PipelineExtras.

(* ================================================================== *)
(** * Binary64 arithmetic: rounding and its error *)
(* ================================================================== *)

Module Binary64Facts.
Import Binary64.
#[local] Unset Implicit Arguments.
Local Open Scope Z_scope.

(** ** Digits *)

Lemma digits2_log2 (p : positive) :
  Zpos (digits2_pos p) = Z.log2 (Zpos p) + 1.
Proof.
  assert (H : forall q, digits2_pos q = Pos.size q).
  { induction q as [q IH|q IH|]; cbn; now rewrite ?IH. }
  destruct p as [p|p|]; cbn; rewrite ?H; lia.
Qed.

Lemma digits_bounds (m : Z) :
  0 < m -> 2 ^ (Zdigits2 m - 1) <= m < 2 ^ Zdigits2 m.
Proof.
  intros Hm. destruct m as [|p|p]; try lia.
  cbn [Zdigits2]. rewrite digits2_log2.
  pose proof (Z.log2_spec (Zpos p) ltac:(lia)) as H.
  replace (Z.log2 (Z.pos p) + 1 - 1) with (Z.log2 (Zpos p)) by lia.
  replace (Z.log2 (Z.pos p) + 1) with (Z.succ (Z.log2 (Zpos p))) by lia.
  exact H.
Qed.

Lemma digits_nonneg (m : Z) : 0 <= Zdigits2 m.
Proof. destruct m; cbn; lia. Qed.

Lemma digits_pos (m : Z) : 0 < m -> 0 < Zdigits2 m.
Proof. destruct m; cbn; lia. Qed.

Lemma digits_unique (m k : Z) :
  0 < k -> 2 ^ (k - 1) <= m < 2 ^ k -> Zdigits2 m = k.
Proof.
  intros Hk H.
  assert (Hm : 0 < m).
  { pose proof (Z.pow_pos_nonneg 2 (k - 1) ltac:(lia) ltac:(lia)). lia. }
  destruct m as [|p|p]; try lia.
  cbn [Zdigits2]. rewrite digits2_log2.
  rewrite (Z.log2_unique (Zpos p) (k - 1)); [lia|lia|].
  now replace (Z.succ (k - 1)) with k by lia.
Qed.

Lemma digits_shift (m n : Z) :
  0 <= m -> 0 <= n -> Zdigits2 (m / 2 ^ n) = Z.max 0 (Zdigits2 m - n).
Proof.
  intros Hm Hn.
  assert (H2 : 0 < 2 ^ n) by (apply Z.pow_pos_nonneg; lia).
  destruct (Z.eq_dec m 0) as [->|Hne].
  { rewrite Z.div_0_l by lia. cbn. lia. }
  pose proof (digits_bounds m ltac:(lia)) as [Hlo Hhi].
  pose proof (digits_pos m ltac:(lia)) as Hd.
  set (d := Zdigits2 m) in *.
  destruct (Z_lt_le_dec n d) as [Hlt|Hge].
  - rewrite Z.max_r by lia. apply digits_unique; [lia|].
    replace (2 ^ (d - 1)) with (2 ^ (d - n - 1) * 2 ^ n) in Hlo
      by (rewrite <- Z.pow_add_r by lia; f_equal; lia).
    replace (2 ^ d) with (2 ^ (d - n) * 2 ^ n) in Hhi
      by (rewrite <- Z.pow_add_r by lia; f_equal; lia).
    split.
    + apply Z.div_le_lower_bound; lia.
    + apply Z.div_lt_upper_bound; lia.
  - rewrite Z.max_l by lia.
    rewrite Z.div_small; [reflexivity|].
    assert (2 ^ d <= 2 ^ n) by (apply Z.pow_le_mono_r; lia). lia.
Qed.

Lemma digits_succ (m : Z) :
  0 <= m ->
  Zdigits2 (m + 1) = Zdigits2 m
  \/ (m + 1 = 2 ^ Zdigits2 m /\ Zdigits2 (m + 1) = Zdigits2 m + 1).
Proof.
  intros Hm. destruct (Z.eq_dec m 0) as [->|Hne]; [right; cbn; lia|].
  pose proof (digits_bounds m ltac:(lia)) as [Hlo Hhi].
  pose proof (digits_pos m ltac:(lia)) as Hd.
  destruct (Z.eq_dec (m + 1) (2 ^ Zdigits2 m)) as [He|Hn].
  - right. split; [exact He|]. apply digits_unique; [lia|].
    replace (Zdigits2 m + 1 - 1) with (Zdigits2 m) by lia.
    rewrite Z.pow_add_r by lia. lia.
  - left. apply digits_unique; [lia|]. lia.
Qed.

Lemma digits_mul (a b : Z) :
  0 < a -> 0 < b -> Zdigits2 a + Zdigits2 b - 1 <= Zdigits2 (a * b).
Proof.
  intros Ha Hb.
  pose proof (digits_bounds a Ha) as [Ha1 _].
  pose proof (digits_bounds b Hb) as [Hb1 _].
  pose proof (digits_bounds (a * b) ltac:(lia)) as [_ Hab].
  pose proof (digits_pos a Ha) as Hda. pose proof (digits_pos b Hb) as Hdb.
  pose proof (digits_nonneg (a * b)) as Hdab.
  assert (H1 : 2 ^ (Zdigits2 a - 1) * 2 ^ (Zdigits2 b - 1) <= a * b).
  { apply Z.mul_le_mono_nonneg; try lia; apply Z.pow_nonneg; lia. }
  rewrite <- Z.pow_add_r in H1 by lia.
  assert (H2 : 2 ^ (Zdigits2 a - 1 + (Zdigits2 b - 1)) < 2 ^ Zdigits2 (a * b)) by lia.
  apply Z.pow_lt_mono_r_iff in H2; lia.
Qed.

(** ** Shifting with the round and sticky bits *)

Lemma shr_1_ok N D mrs :
  0 <= N -> 0 < D -> rec_ok N D mrs -> rec_ok N (2 * D) (shr_1 mrs).
Proof.
  intros HN HD (Hm & Hr & Hs).
  pose proof (Z.mod_pos_bound N D HD) as Hrho.
  pose proof (Z.div_pos N D HN HD) as Hq.
  assert (Hdiv : N / (2 * D) = N / D / 2)
    by (rewrite (Z.mul_comm 2 D), Z.div_div by lia; reflexivity).
  assert (Hmod : N mod (2 * D) = N mod D + D * ((N / D) mod 2)).
  { rewrite (Z.mul_comm 2 D). apply Z.rem_mul_r; lia. }
  pose proof (Z.mod_pos_bound (N / D) 2 ltac:(lia)) as Hb.
  pose proof (Z.div_mod (N / D) 2 ltac:(lia)) as Hdm.
  destruct mrs as [m r s]. cbn [shr_m shr_r shr_s] in *.
  unfold rec_ok. rewrite Hdiv, Hmod. rewrite <- Hm in *.
  set (rho := N mod D) in *. clearbody rho.
  assert (Hors : (r || s)%bool = negb (rho =? 0)).
  { rewrite Hr, Hs.
    destruct (Z.leb_spec D (2 * rho)), (Z.eqb_spec rho 0),
      (Z.eqb_spec (2 * rho) D); cbn; try reflexivity; lia. }
  unfold shr_1. rewrite Hors. clear Hr Hs Hors Hdiv Hmod Hm.
  destruct m as [|p|p]; [|destruct p as [p|p|]|lia]; cbn [shr_m shr_r shr_s].
  - change (0 / 2) with 0. change (0 mod 2) with 0.
    repeat split.
    + destruct (Z.leb_spec (2 * D) (2 * (rho + D * 0))); [lia|reflexivity].
    + destruct (Z.eqb_spec rho 0), (Z.eqb_spec (rho + D * 0) 0),
        (Z.eqb_spec (2 * (rho + D * 0)) (2 * D)); cbn; try reflexivity; lia.
  - assert (E1 : Z.pos p~1 / 2 = Z.pos p) by (symmetry; apply Z.div_unique with 1; lia).
    assert (E2 : Z.pos p~1 mod 2 = 1) by (symmetry; apply Z.mod_unique with (Zpos p); lia).
    rewrite E1, E2. repeat split.
    + destruct (Z.leb_spec (2 * D) (2 * (rho + D * 1))); [reflexivity|lia].
    + destruct (Z.eqb_spec rho 0), (Z.eqb_spec (rho + D * 1) 0),
        (Z.eqb_spec (2 * (rho + D * 1)) (2 * D)); cbn; try reflexivity; lia.
  - assert (E1 : Z.pos p~0 / 2 = Z.pos p) by (symmetry; apply Z.div_unique with 0; lia).
    assert (E2 : Z.pos p~0 mod 2 = 0) by (symmetry; apply Z.mod_unique with (Zpos p); lia).
    rewrite E1, E2. repeat split.
    + destruct (Z.leb_spec (2 * D) (2 * (rho + D * 0))); [lia|reflexivity].
    + destruct (Z.eqb_spec rho 0), (Z.eqb_spec (rho + D * 0) 0),
        (Z.eqb_spec (2 * (rho + D * 0)) (2 * D)); cbn; try reflexivity; lia.
  - change (1 / 2) with 0. change (1 mod 2) with 1. repeat split.
    + destruct (Z.leb_spec (2 * D) (2 * (rho + D * 1))); [reflexivity|lia].
    + destruct (Z.eqb_spec rho 0), (Z.eqb_spec (rho + D * 1) 0),
        (Z.eqb_spec (2 * (rho + D * 1)) (2 * D)); cbn; try reflexivity; lia.
Qed.

Lemma iter_shr_ok (p : positive) : forall N D mrs,
  0 <= N -> 0 < D -> rec_ok N D mrs ->
  rec_ok N (2 ^ Zpos p * D) (iter_pos shr_1 p mrs).
Proof.
  induction p as [p IH|p IH|]; intros N D mrs HN HD H; cbn [iter_pos].
  - assert (HP : 0 < 2 ^ Zpos p) by (apply Z.pow_pos_nonneg; lia).
    replace (2 ^ Z.pos p~1 * D) with (2 ^ Zpos p * (2 ^ Zpos p * (2 * D))).
    + apply IH; [lia|nia|]. apply IH; [lia|lia|]. now apply shr_1_ok.
    + replace (Z.pos p~1) with (Zpos p + Zpos p + 1) by lia.
      rewrite !Z.pow_add_r by lia. change (2 ^ 1) with 2. ring.
  - assert (HP : 0 < 2 ^ Zpos p) by (apply Z.pow_pos_nonneg; lia).
    replace (2 ^ Z.pos p~0 * D) with (2 ^ Zpos p * (2 ^ Zpos p * D)).
    + apply IH; [lia|nia|]. now apply IH.
    + replace (Z.pos p~0) with (Zpos p + Zpos p) by lia.
      rewrite !Z.pow_add_r by lia. ring.
  - change (2 ^ 1) with 2. now apply shr_1_ok.
Qed.

Lemma shr_ok N D mrs e n :
  0 <= N -> 0 < D -> 0 <= n -> rec_ok N D mrs ->
  rec_ok N (2 ^ n * D) (fst (shr mrs e n)) /\ snd (shr mrs e n) = e + n.
Proof.
  intros HN HD Hn H. unfold shr. destruct n as [|p|p]; [| |lia].
  - cbn [fst snd]. change (2 ^ 0) with 1. rewrite Z.mul_1_l. split; [exact H|lia].
  - cbn [fst snd]. split; [now apply iter_shr_ok|reflexivity].
Qed.

Lemma round_ok N D mrs :
  0 <= N -> 0 < D -> rec_ok N D mrs ->
  let M := round_nearest_even (shr_m mrs) (loc_of_shr_record mrs) in
  (M = N / D \/ M = N / D + 1) /\ - D <= 2 * (M * D - N) <= D.
Proof.
  intros HN HD (Hm & Hr & Hs).
  pose proof (Z.mod_pos_bound N D HD) as Hrho.
  pose proof (Z.div_mod N D ltac:(lia)) as Hdm.
  destruct mrs as [m r s]. cbn [shr_m shr_r shr_s] in *.
  set (q := N / D) in *. set (rho := N mod D) in *. clearbody q rho.
  subst m. cbv zeta.
  destruct (Z.leb_spec D (2 * rho)), (Z.eqb_spec rho 0),
    (Z.eqb_spec (2 * rho) D); cbn in Hr, Hs; subst r s;
    cbn [loc_of_shr_record round_nearest_even]; try lia;
    try (destruct (Z.even q)); split; try nia; try tauto.
Qed.

(** ** Rounding to nearest even *)

Lemma fexp_64 e : fexp prec emax e = fexp64 e.
Proof. reflexivity. Qed.

Lemma bra_spec (s : bool) (mx e : Z) (lx : location) (N D : Z) :
  0 < D -> 0 <= N ->
  rec_ok N D (shr_record_of_loc mx lx) ->
  e <= fexp64 (Zdigits2 mx + e) ->
  exists M E,
    binary_round_aux prec emax s mx e lx = pack s M E
    /\ 0 <= M
    /\ fexp64 (Zdigits2 mx + e) <= E <= fexp64 (Zdigits2 mx + e) + 1
    /\ (M = 0 \/ fexp64 (Zdigits2 M + E) = E)
    /\ - (2 ^ (fexp64 (Zdigits2 mx + e) - e) * D)
       <= 2 * (M * 2 ^ (E - fexp64 (Zdigits2 mx + e))
               * (2 ^ (fexp64 (Zdigits2 mx + e) - e) * D) - N)
       <= 2 ^ (fexp64 (Zdigits2 mx + e) - e) * D.
Proof.
  intros HD HN Hrec Hn.
  assert (Hmx : mx = N / D).
  { destruct Hrec as [Hm _]. destruct lx as [|[| |]]; exact Hm. }
  assert (Hmx0 : 0 <= mx) by (subst mx; apply Z.div_pos; lia).
  set (d := Zdigits2 mx) in *.
  set (E0 := fexp64 (d + e)) in *.
  set (n := E0 - e).
  assert (Hn0 : 0 <= n) by (unfold n; lia).
  assert (HP : 0 < 2 ^ n * D).
  { apply Z.mul_pos_pos; [apply Z.pow_pos_nonneg; lia|lia]. }
  unfold binary_round_aux, shr_fexp. rewrite !fexp_64.
  fold d. fold E0. fold n.
  destruct (shr_ok N D (shr_record_of_loc mx lx) e n HN HD Hn0 Hrec)
    as [Hrec1 He1].
  destruct (shr (shr_record_of_loc mx lx) e n) as [mrs1 e1].
  cbn [fst snd] in Hrec1, He1.
  replace e1 with E0 in * by (unfold n in He1; lia). clear He1.
  destruct (round_ok N (2 ^ n * D) mrs1 HN HP Hrec1) as [HM1 Hnear].
  set (M1 := round_nearest_even (shr_m mrs1) (loc_of_shr_record mrs1)) in *.
  assert (Hq : N / (2 ^ n * D) = mx / 2 ^ n).
  { rewrite (Z.mul_comm (2 ^ n) D), <- Z.div_div; [now rewrite Hmx|lia|].
    apply Z.pow_pos_nonneg; lia. }
  assert (Hm1 : 0 <= mx / 2 ^ n).
  { apply Z.div_pos; [lia|apply Z.pow_pos_nonneg; lia]. }
  pose proof (digits_shift mx n Hmx0 Hn0) as Hd1. fold d in Hd1.
  rewrite Hq in HM1.
  assert (HdM : Zdigits2 M1 = Zdigits2 (mx / 2 ^ n)
                \/ (M1 = 2 ^ Zdigits2 (mx / 2 ^ n)
                    /\ Zdigits2 M1 = Zdigits2 (mx / 2 ^ n) + 1)).
  { destruct HM1 as [->| ->]; [now left|]. now apply digits_succ. }
  assert (HM0 : 0 <= M1) by (destruct HM1; lia).
  pose proof (digits_nonneg mx) as Hdnn. fold d in Hdnn.
  set (n2 := fexp64 (Zdigits2 M1 + E0) - E0).
  assert (Hn2 : n2 = 0 \/ (n2 = 1 /\ M1 = 2 ^ 53)).
  { unfold n2, fexp64 in *. unfold n in *.
    destruct HdM as [HdM|[HM1' HdM]].
    - left. lia.
    - destruct (Z.eq_dec (Zdigits2 (mx / 2 ^ (E0 - e))) 53) as [E53|N53].
      + rewrite E53 in HM1'. lia.
      + left. lia. }
  cbn [shr_record_of_loc].
  change (fexp prec emax (Zdigits2 M1 + E0)) with (fexp64 (Zdigits2 M1 + E0)).
  fold n2.
  destruct Hn2 as [Hz|[Ho HM53]].
  - rewrite Hz. cbn [shr shr_m].
    exists M1, E0. split; [|split; [exact HM0|split; [lia|split]]].
    + unfold pack. change (emax - prec) with 971. reflexivity.
    + right. unfold n2 in Hz. lia.
    + rewrite Z.sub_diag. change (2 ^ 0) with 1. rewrite Z.mul_1_r. exact Hnear.
  - rewrite Ho. rewrite HM53.
    exists (2 ^ 52), (E0 + 1). split; [|split; [lia|split; [lia|split]]].
    + reflexivity.
    + right. unfold n2 in Ho. rewrite HM53 in Ho.
      change (Zdigits2 (2 ^ 53)) with 54 in Ho.
      change (Zdigits2 (2 ^ 52)) with 53. unfold fexp64 in *. lia.
    + replace (E0 + 1 - E0) with 1 by lia.
      change (2 ^ 52 * 2 ^ 1) with (2 ^ 53). rewrite <- HM53. exact Hnear.
Qed.

(** ** Values *)

Lemma pow2_pos e : (0 < pow2 e)%Q.
Proof. unfold pow2. apply Qpower_0_lt. reflexivity. Qed.

Lemma pow2_add a b : (pow2 (a + b) == pow2 a * pow2 b)%Q.
Proof. unfold pow2. apply Qpower_plus. discriminate. Qed.

Lemma pow2_Z n : 0 <= n -> (pow2 n == inject_Z (2 ^ n))%Q.
Proof. intros H. unfold pow2. now rewrite Zpower_Qpower. Qed.

Lemma pow2_ge1 n : 0 <= n -> (1 <= pow2 n)%Q.
Proof.
  intros H. rewrite pow2_Z by exact H.
  change 1%Q with (inject_Z 1). rewrite <- Zle_Qle.
  pose proof (Z.pow_pos_nonneg 2 n ltac:(lia) H). lia.
Qed.

Lemma pow2_le a b : a <= b -> (pow2 a <= pow2 b)%Q.
Proof.
  intros H. replace b with (a + (b - a)) by lia. rewrite pow2_add.
  pose proof (pow2_pos a). pose proof (pow2_ge1 (b - a) ltac:(lia)).
  nra.
Qed.

Lemma pow2_lt_inv a b : (pow2 a < pow2 b)%Q -> a < b.
Proof.
  intros H. destruct (Z_lt_le_dec a b) as [|Hge]; [assumption|].
  apply pow2_le in Hge. lra.
Qed.

Lemma pow2_half e : (pow2 (e - 1) * 2 == pow2 e)%Q.
Proof.
  replace e with ((e - 1) + 1) at 2 by lia. rewrite pow2_add.
  change (pow2 1) with 2%Q. reflexivity.
Qed.

Lemma val_pack M E :
  0 <= M -> E <= 971 ->
  is_finite (pack false M E) = true
  /\ (val (pack false M E) == inject_Z M * pow2 E)%Q.
Proof.
  intros HM HE. destruct M as [|p|p]; [| |lia]; cbn [pack].
  - split; [reflexivity|]. cbn [val]. ring.
  - destruct (Z.leb_spec E 971); [|lia]. split; reflexivity.
Qed.

Lemma nonneg_pack M E :
  0 <= M -> (M = 0 \/ fexp64 (Zdigits2 M + E) = E) ->
  nonneg (pack false M E) = true.
Proof.
  intros HM Hc. destruct M as [|p|p]; [reflexivity| |lia].
  cbn [pack]. destruct (Z.leb_spec E 971) as [HE|HE]; [|reflexivity].
  cbn [nonneg]. unfold bounded, canonical_mantissa.
  change (emax - prec) with 971.
  change (fexp prec emax (Z.pos (digits2_pos p) + E))
    with (fexp64 (Zdigits2 (Zpos p) + E)).
  destruct Hc as [Hc|Hc]; [discriminate|]. rewrite Hc, Z.eqb_refl.
  cbn. now apply Z.leb_le.
Qed.

Lemma bra_val (mx e : Z) (lx : location) (N D : Z) (X : Q) :
  0 < D -> 0 <= N ->
  rec_ok N D (shr_record_of_loc mx lx) ->
  e <= fexp64 (Zdigits2 mx + e) ->
  (X * inject_Z D == inject_Z N * pow2 e)%Q ->
  nonneg (binary_round_aux prec emax false mx e lx) = true
  /\ (Zdigits2 mx + e <= 1000 ->
      is_finite (binary_round_aux prec emax false mx e lx) = true
      /\ (- (u * X + eta)
          <= val (binary_round_aux prec emax false mx e lx) - X
          <= u * X + eta)%Q).
Proof.
  intros HD HN Hrec Hn HX.
  destruct (bra_spec false mx e lx N D HD HN Hrec Hn)
    as (M & E & Heq & HM & HE & Hcan & Hnear).
  rewrite Heq. split; [now apply nonneg_pack|].
  intros Hsmall.
  assert (Hmx : mx = N / D).
  { destruct Hrec as [Hm _]. destruct lx as [|[| |]]; exact Hm. }
  set (d := Zdigits2 mx) in *. set (E0 := fexp64 (d + e)) in *.
  assert (HE971 : E <= 971) by (unfold E0, fexp64 in *; lia).
  destruct (val_pack M E HM HE971) as [Hfin Hval].
  split; [exact Hfin|]. rewrite Hval.
  set (n := E0 - e) in *. set (k := E - E0) in *.
  assert (Hn0 : 0 <= n) by (unfold n; lia).
  assert (Hk0 : 0 <= k) by (unfold k; lia).
  assert (HpE : (pow2 E == pow2 e * inject_Z (2 ^ n) * inject_Z (2 ^ k))%Q).
  { replace E with (e + n + k) by (unfold n, k; lia).
    rewrite !pow2_add, (pow2_Z n Hn0), (pow2_Z k Hk0). reflexivity. }
  assert (Hh : (pow2 (E0 - 1) * 2 == pow2 e * inject_Z (2 ^ n))%Q).
  { rewrite pow2_half. replace E0 with (e + n) by (unfold n; lia).
    rewrite pow2_add, (pow2_Z n Hn0). reflexivity. }
  pose proof (pow2_pos e) as Hpe.
  assert (HqD : (0 < inject_Z D)%Q).
  { change 0%Q with (inject_Z 0). now rewrite <- Zlt_Qlt. }
  assert (HqN : (0 <= inject_Z N)%Q).
  { change 0%Q with (inject_Z 0). now rewrite <- Zle_Qle. }
  destruct Hnear as [Hlo Hhi].
  rewrite Zle_Qle in Hlo, Hhi. unfold Z.sub in Hlo, Hhi.
  repeat (rewrite inject_Z_mult in Hlo || rewrite inject_Z_plus in Hlo
          || rewrite inject_Z_opp in Hlo).
  repeat (rewrite inject_Z_mult in Hhi || rewrite inject_Z_plus in Hhi
          || rewrite inject_Z_opp in Hhi).
  change (inject_Z 2) with 2%Q in *.
  set (a := inject_Z M) in *. set (pk := inject_Z (2 ^ k)) in *.
  set (pn := inject_Z (2 ^ n)) in *. set (qD := inject_Z D) in *.
  set (qN := inject_Z N) in *. set (pe := pow2 e) in *.
  set (h := pow2 (E0 - 1)) in *. set (pE := pow2 E) in *.
  assert (Hbound : (- h <= a * pE - X <= h)%Q).
  { assert (E1 : ((a * pE - X) * qD == pe * (a * pk * (pn * qD) - qN))%Q).
    { rewrite HpE. setoid_replace ((a * (pe * pn * pk) - X) * qD)%Q
        with (a * (pe * pn * pk) * qD - X * qD)%Q by ring.
      rewrite HX. ring. }
    assert (Hh' : (h * qD * 2 == pe * (pn * qD))%Q).
    { setoid_replace (pe * (pn * qD))%Q with ((pe * pn) * qD)%Q by ring.
      rewrite <- Hh. ring. }
    assert (HW : (- (pn * qD) <= 2 * (a * pk * (pn * qD) - qN)
                  <= pn * qD)%Q).
    { split; lra. }
    set (W := (a * pk * (pn * qD) - qN)%Q) in *.
    set (pq := (pn * qD)%Q) in *.
    set (hq := (h * qD)%Q) in *.
    set (V := (a * pE - X)%Q) in *.
    assert (E2 : (- hq <= V * qD <= hq)%Q).
    { rewrite E1. clearbody W pq hq. split; nra. }
    unfold hq in E2. clearbody V.
    split; apply (proj1 (Qmult_le_r _ _ qD HqD)); lra. }
  assert (Hrel : (h <= u * X + eta)%Q).
  { assert (HX0 : (0 <= X)%Q) by nra.
    unfold E0, fexp64 in *.
    destruct (Z.max_spec (d + e - 53) (-1074)) as [[Hc Hm]|[Hc Hm]].
    - unfold h. rewrite Hm. change (pow2 (-1074 - 1)) with eta.
      assert (0 < u)%Q by reflexivity. nra.
    - assert (Hpos : 0 < mx).
      { assert (Hmx0 : 0 <= mx) by (rewrite Hmx; apply Z.div_pos; lia).
        destruct (Z.eq_dec mx 0) as [Hz|]; [|lia].
        assert (Hd0 : d = 0) by (unfold d; rewrite Hz; reflexivity).
        lia. }
      pose proof (digits_bounds mx Hpos) as [Hdl _]. fold d in Hdl.
      pose proof (digits_pos mx Hpos) as Hdp. fold d in Hdp.
      assert (Hh2 : (h == inject_Z (2 ^ (d - 1)) * pe * u)%Q).
      { unfold h, u, pe. rewrite Hm.
        replace (d + e - 53 - 1) with ((d - 1) + e + (-53)) by lia.
        rewrite !pow2_add, (pow2_Z (d - 1)) by lia. reflexivity. }
      assert (HmxN : (inject_Z mx * qD <= qN)%Q).
      { unfold qD, qN. rewrite <- inject_Z_mult, <- Zle_Qle.
        rewrite Hmx, Z.mul_comm. apply Z.mul_div_le. lia. }
      assert (Hdq : (inject_Z (2 ^ (d - 1)) <= inject_Z mx)%Q)
        by (now rewrite <- Zle_Qle).
      assert (Hdq0 : (0 < inject_Z (2 ^ (d - 1)))%Q).
      { change 0%Q with (inject_Z 0). rewrite <- Zlt_Qlt.
        apply Z.pow_pos_nonneg; lia. }
      assert (HXm : (inject_Z mx * pe <= X)%Q).
      { assert ((inject_Z mx * pe) * qD <= X * qD)%Q by (rewrite HX; nra).
        nra. }
      assert (Hu : (0 < u)%Q) by reflexivity.
      assert (He : (0 < eta)%Q) by reflexivity.
      assert (HXd : (inject_Z (2 ^ (d - 1)) * pe <= X)%Q) by nra.
      rewrite Hh2. clear - HXd Hu He. nra. }
  lra.
Qed.

Lemma pow2_lt a b : a < b -> (pow2 a < pow2 b)%Q.
Proof.
  intros H. replace b with (a + (b - a - 1) + 1) by lia.
  rewrite !pow2_add. change (pow2 1) with 2%Q.
  pose proof (pow2_pos a). pose proof (pow2_ge1 (b - a - 1) ltac:(lia)).
  nra.
Qed.

Lemma digits_from_val (m e K : Z) :
  0 < m -> (inject_Z m * pow2 e <= pow2 K)%Q -> Zdigits2 m + e <= K + 1.
Proof.
  intros Hm H.
  pose proof (digits_bounds m Hm) as [Hlo _].
  pose proof (digits_pos m Hm) as Hd.
  destruct (Z_le_gt_dec (Zdigits2 m + e) (K + 1)) as [|Hgt]; [assumption|].
  exfalso.
  assert (H1 : (pow2 K < pow2 (Zdigits2 m - 1 + e))%Q) by (apply pow2_lt; lia).
  rewrite pow2_add, (pow2_Z (Zdigits2 m - 1)) in H1 by lia.
  rewrite Zle_Qle in Hlo. pose proof (pow2_pos e). nra.
Qed.

Lemma rec_exact (N : Z) :
  rec_ok N 1 (shr_record_of_loc N loc_Exact).
Proof.
  unfold rec_ok. cbn [shr_record_of_loc shr_m shr_r shr_s].
  rewrite Z.div_1_r, Z.mod_1_r. repeat split.
Qed.

Lemma iter_xO (d m : positive) :
  Zpos (Pos.iter xO m d) = Zpos m * 2 ^ Zpos d.
Proof.
  induction d as [|d IH] using Pos.peano_ind.
  - cbn. lia.
  - rewrite Pos.iter_succ, Pos2Z.inj_xO, IH, Pos2Z.inj_succ, Z.pow_succ_r by lia.
    ring.
Qed.

Lemma shl_align_spec (m : positive) (e e' : Z) :
  exists mz ez,
    shl_align m e e' = (mz, ez)
    /\ ez = Z.min e e' /\ Zpos mz = Zpos m * 2 ^ (e - ez).
Proof.
  unfold shl_align. destruct (e' - e) as [|p|p] eqn:E.
  - exists m, e. split; [reflexivity|]. split; [lia|].
    rewrite Z.sub_diag. lia.
  - exists m, e. split; [reflexivity|]. split; [lia|].
    rewrite Z.sub_diag. lia.
  - exists (Pos.iter xO m p), e'. split; [reflexivity|]. split; [lia|].
    rewrite iter_xO. f_equal. f_equal. lia.
Qed.

Lemma digits_shl (m n : Z) :
  0 < m -> 0 <= n -> Zdigits2 (m * 2 ^ n) = Zdigits2 m + n.
Proof.
  intros Hm Hn. pose proof (digits_bounds m Hm) as [Hlo Hhi].
  pose proof (digits_pos m Hm) as Hd.
  assert (HP : 0 < 2 ^ n) by (apply Z.pow_pos_nonneg; lia).
  apply digits_unique; [lia|].
  replace (Zdigits2 m + n - 1) with (Zdigits2 m - 1 + n) by lia.
  rewrite !Z.pow_add_r by lia. split; nia.
Qed.

(** [binary_round] hands an aligned mantissa to [binary_round_aux]. *)
Lemma binary_round_spec (s : bool) (m : positive) (e : Z) :
  exists mz ez,
    binary_round prec emax s m e
    = binary_round_aux prec emax s (Zpos mz) ez loc_Exact
    /\ ez <= e /\ Zpos mz = Zpos m * 2 ^ (e - ez)
    /\ ez <= fexp64 (Zdigits2 (Zpos mz) + ez)
    /\ ez = Z.min e (fexp64 (Zdigits2 (Zpos m) + e))
    /\ Zdigits2 (Zpos mz) + ez = Zdigits2 (Zpos m) + e.
Proof.
  unfold binary_round.
  change (fexp prec emax (Z.pos (digits2_pos m) + e))
    with (fexp64 (Zdigits2 (Zpos m) + e)).
  destruct (shl_align_spec m e (fexp64 (Zdigits2 (Zpos m) + e)))
    as (mz & ez & Hs & Hez & Hmz).
  rewrite Hs. exists mz, ez. split; [reflexivity|]. split; [lia|].
  split; [exact Hmz|].
  rewrite Hmz, digits_shl by lia.
  replace (Zdigits2 (Z.pos m) + (e - ez) + ez)
    with (Zdigits2 (Zpos m) + e) by lia.
  repeat split; lia.
Qed.

Lemma nonneg_leb (x : f64) : nonneg x = true -> SFleb zero x = true.
Proof. destruct x as [[|]|[|]| |[|] m e]; cbn; congruence. Qed.

Lemma bounded_inv (m : positive) (e : Z) :
  bounded prec emax m e = true ->
  fexp64 (Zdigits2 (Zpos m) + e) = e /\ e <= 971.
Proof.
  unfold bounded, canonical_mantissa. intros H.
  apply andb_prop in H. destruct H as [H1 H2].
  apply Z.eqb_eq in H1. apply Z.leb_le in H2. split; assumption.
Qed.

Lemma u_pos : (0 < u)%Q.
Proof. reflexivity. Qed.

Lemma eta_pos : (0 < eta)%Q.
Proof. reflexivity. Qed.

(** ** Multiplication by a positive number *)

Lemma mul_spec (a : f64) (mb : positive) (eb : Z) (X : Q) :
  nonneg a = true -> bounded prec emax mb eb = true ->
  (X == val a * val (S754_finite false mb eb))%Q ->
  nonneg (mul a (S754_finite false mb eb)) = true
  /\ (is_finite a = true -> (X <= pow2 100)%Q ->
      is_finite (mul a (S754_finite false mb eb)) = true
      /\ (- (u * X + eta) <= val (mul a (S754_finite false mb eb)) - X
          <= u * X + eta)%Q).
Proof.
  intros Ha Hb HX. pose proof u_pos as Hu. pose proof eta_pos as He.
  destruct a as [[|]|[|]| |[|] ma ea]; cbn in Ha; try discriminate.
  - split; [reflexivity|]. intros _ _. split; [reflexivity|].
    change (mul (S754_zero false) (S754_finite false mb eb))
      with (S754_zero false).
    assert (HX0 : (X == 0)%Q) by (rewrite HX; cbn [val]; ring).
    cbn [val]. rewrite HX0. lra.
  - split; [reflexivity|]. intros Hf. discriminate.
  - destruct (bounded_inv ma ea Ha) as [Hca Hea].
    destruct (bounded_inv mb eb Hb) as [Hcb Heb].
    pose proof (digits_mul (Zpos ma) (Zpos mb) ltac:(lia) ltac:(lia)) as Hd.
    change (Z.pos ma * Z.pos mb) with (Zpos (ma * mb)) in Hd.
    assert (HX' : (X * inject_Z 1 == inject_Z (Zpos (ma * mb)) * pow2 (ea + eb))%Q).
    { rewrite HX. cbn [val]. rewrite pow2_add, Pos2Z.inj_mul, inject_Z_mult.
      change (inject_Z 1) with 1%Q. ring. }
    assert (Hn : ea + eb <= fexp64 (Zdigits2 (Zpos (ma * mb)) + (ea + eb))).
    { pose proof (digits_pos (Zpos ma) ltac:(lia)).
      pose proof (digits_pos (Zpos mb) ltac:(lia)).
      unfold fexp64 in *. lia. }
    destruct (bra_val (Zpos (ma * mb)) (ea + eb) loc_Exact
                (Zpos (ma * mb)) 1 X ltac:(lia) ltac:(lia)
                (rec_exact _) Hn HX') as [Hnn Hv].
    change (mul (S754_finite false ma ea) (S754_finite false mb eb))
      with (binary_round_aux prec emax false (Zpos (ma * mb)) (ea + eb)
              loc_Exact).
    split; [exact Hnn|]. intros _ Hsmall. apply Hv.
    assert (Hdv : Zdigits2 (Zpos (ma * mb)) + (ea + eb) <= 100 + 1).
    { apply digits_from_val; [lia|].
      change (inject_Z 1) with 1%Q in HX'. lra. }
    lia.
Qed.

Lemma val_nonneg (x : f64) : nonneg x = true -> (0 <= val x)%Q.
Proof.
  destruct x as [[|]|[|]| |[|] m e]; cbn [nonneg val]; try discriminate;
    intros _; try lra.
  pose proof (pow2_pos e).
  assert (0 < inject_Z (Zpos m))%Q by reflexivity. nra.
Qed.

Lemma err_nonneg (X : Q) : (0 <= X)%Q -> (0 <= u * X + eta)%Q.
Proof. intros H. pose proof u_pos. pose proof eta_pos. nra. Qed.

(** ** Addition *)

Lemma add_finite (ma : positive) (ea : Z) (mb : positive) (eb : Z) (X : Q) :
  (X == val (S754_finite false ma ea) + val (S754_finite false mb eb))%Q ->
  nonneg (add (S754_finite false ma ea) (S754_finite false mb eb)) = true
  /\ ((X <= pow2 100)%Q ->
      is_finite (add (S754_finite false ma ea) (S754_finite false mb eb))
      = true
      /\ (- (u * X + eta)
          <= val (add (S754_finite false ma ea) (S754_finite false mb eb)) - X
          <= u * X + eta)%Q).
Proof.
  intros HX. unfold add. cbn [SFadd cond_Zopp].
  set (ez := Z.min ea eb).
  destruct (shl_align_spec ma ea ez) as (mza & eza & Hsa & Heza & Hmza).
  destruct (shl_align_spec mb eb ez) as (mzb & ezb & Hsb & Hezb & Hmzb).
  rewrite Hsa, Hsb. cbn [fst].
  change (Z.pos mza + Z.pos mzb) with (Zpos (mza + mzb)).
  cbn [binary_normalize].
  destruct (binary_round_spec false (mza + mzb) ez)
    as (mz & ez' & Hr & Hez' & Hmz & Hn & _ & _).
  rewrite Hr.
  assert (Ea : eza = ez) by (unfold ez in *; lia).
  assert (Eb : ezb = ez) by (unfold ez in *; lia).
  rewrite Ea in Hmza. rewrite Eb in Hmzb.
  assert (HX' : (X * inject_Z 1 == inject_Z (Zpos mz) * pow2 ez')%Q).
  { rewrite HX, Hmz, Pos2Z.inj_add, Hmza, Hmzb. cbn [val].
    rewrite !inject_Z_mult, inject_Z_plus, !inject_Z_mult.
    rewrite <- !pow2_Z by (unfold ez; lia).
    change (inject_Z 1) with 1%Q.
    setoid_replace (pow2 ea) with (pow2 (ea - ez) * pow2 (ez - ez') * pow2 ez')%Q.
    - setoid_replace (pow2 eb)
        with (pow2 (eb - ez) * pow2 (ez - ez') * pow2 ez')%Q.
      + ring.
      + rewrite <- !pow2_add. replace (eb - ez + (ez - ez') + ez') with eb by lia.
        reflexivity.
    - rewrite <- !pow2_add. replace (ea - ez + (ez - ez') + ez') with ea by lia.
      reflexivity. }
  destruct (bra_val (Zpos mz) ez' loc_Exact (Zpos mz) 1 X
              ltac:(lia) ltac:(lia) (rec_exact _) Hn HX') as [Hnn Hv].
  split; [exact Hnn|]. intros Hsmall. apply Hv.
  assert (Hdv : Zdigits2 (Zpos mz) + ez' <= 100 + 1).
  { apply digits_from_val; [lia|].
    change (inject_Z 1) with 1%Q in HX'. lra. }
  lia.
Qed.

Lemma add_spec (a b : f64) (X : Q) :
  nonneg a = true -> nonneg b = true ->
  (X == val a + val b)%Q ->
  nonneg (add a b) = true
  /\ (is_finite a = true -> is_finite b = true -> (X <= pow2 100)%Q ->
      is_finite (add a b) = true
      /\ (- (u * X + eta) <= val (add a b) - X <= u * X + eta)%Q).
Proof.
  intros Ha Hb HX.
  pose proof (val_nonneg a Ha) as Hva. pose proof (val_nonneg b Hb) as Hvb.
  assert (HX0 : (0 <= X)%Q) by lra.
  pose proof (err_nonneg X HX0) as Herr.
  destruct a as [[|]|[|]| |[|] ma ea]; cbn in Ha; try discriminate;
    destruct b as [[|]|[|]| |[|] mb eb]; cbn in Hb; try discriminate;
    try (split; [reflexivity|]; intros Hfa Hfb; discriminate).
  - split; [reflexivity|]. intros _ _ _. split; [reflexivity|].
    change (add (S754_zero false) (S754_zero false)) with (S754_zero false).
    cbn [val] in *. lra.
  - change (add (S754_zero false) (S754_finite false mb eb))
      with (S754_finite false mb eb).
    split; [exact Hb|]. intros _ _ _. split; [reflexivity|].
    cbn [val] in *. lra.
  - change (add (S754_finite false ma ea) (S754_zero false))
      with (S754_finite false ma ea).
    split; [exact Ha|]. intros _ _ _. split; [reflexivity|].
    cbn [val] in *. lra.
  - destruct (add_finite ma ea mb eb X HX) as [Hnn Hv].
    split; [exact Hnn|]. intros _ _. exact Hv.
Qed.

(** ** Division *)

Lemma new_location_ok (q D r : Z) :
  0 < D -> 0 <= r < D ->
  rec_ok (D * q + r) D (shr_record_of_loc q (new_location D r)).
Proof.
  intros HD Hr.
  assert (Hq : (D * q + r) / D = q).
  { symmetry. apply Z.div_unique with r; lia. }
  assert (Hm : (D * q + r) mod D = r).
  { symmetry. apply Z.mod_unique with q; lia. }
  unfold rec_ok. rewrite Hq, Hm.
  unfold new_location, new_location_even, new_location_odd.
  destruct (Z.even D) eqn:Ev; destruct (Z.eqb_spec r 0) as [Hz|Hz].
  - cbn [shr_record_of_loc shr_m shr_r shr_s]. subst r.
    destruct (Z.leb_spec D (2 * 0)); [lia|]. repeat split.
  - destruct (Z.compare_spec (2 * r) D) as [Hc|Hc|Hc];
      cbn [shr_record_of_loc shr_m shr_r shr_s];
      destruct (Z.leb_spec D (2 * r)), (Z.eqb_spec (2 * r) D);
      try lia; repeat split.
  - cbn [shr_record_of_loc shr_m shr_r shr_s]. subst r.
    destruct (Z.leb_spec D (2 * 0)); [lia|]. repeat split.
  - assert (Hodd : 2 * r <> D).
    { intros E. rewrite <- E, Z.even_mul in Ev. discriminate. }
    destruct (Z.compare_spec (2 * r + 1) D) as [Hc|Hc|Hc];
      cbn [shr_record_of_loc shr_m shr_r shr_s];
      destruct (Z.leb_spec D (2 * r)), (Z.eqb_spec (2 * r) D);
      try lia; repeat split.
Qed.

Lemma div_core_spec (m1 : positive) (e1 : Z) (m2 : positive) (e2 : Z) :
  exists q e' l s,
    SFdiv_core_binary prec emax (Zpos m1) e1 (Zpos m2) e2 = (q, e', l)
    /\ 0 <= s /\ e' = e1 - e2 - s
    /\ rec_ok (Zpos m1 * 2 ^ s) (Zpos m2) (shr_record_of_loc q l)
    /\ e' <= fexp64 (Zdigits2 q + e')
    /\ (0 < q \/ e' <= -1074).
Proof.
  unfold SFdiv_core_binary.
  change (fexp prec emax (Zdigits2 (Z.pos m1) + e1 - (Zdigits2 (Z.pos m2) + e2)))
    with (fexp64 (Zdigits2 (Z.pos m1) + e1 - (Zdigits2 (Z.pos m2) + e2))).
  set (d1 := Zdigits2 (Zpos m1)). set (d2 := Zdigits2 (Zpos m2)).
  set (e' := Z.min (fexp64 (d1 + e1 - (d2 + e2))) (e1 - e2)).
  set (s := e1 - e2 - e').
  assert (Hs : 0 <= s) by (unfold s, e'; lia).
  assert (HP : 0 < 2 ^ s) by (apply Z.pow_pos_nonneg; lia).
  assert (Hm' : match s with
                | Z.pos _ => Z.shiftl (Zpos m1) s
                | 0 => Zpos m1
                | Z.neg _ => 0
                end = Zpos m1 * 2 ^ s).
  { destruct s as [|p|p] eqn:Es; [|apply Z.shiftl_mul_pow2|]; lia. }
  rewrite Hm'.
  pose proof (Z_div_mod (Zpos m1 * 2 ^ s) (Zpos m2) ltac:(lia)) as Hdm.
  destruct (Z.div_eucl (Z.pos m1 * 2 ^ s) (Z.pos m2)) as [q r].
  destruct Hdm as [Heq Hr].
  exists q, e', (new_location (Zpos m2) r), s.
  split; [reflexivity|]. split; [exact Hs|]. split; [unfold s; lia|].
  split; [rewrite Heq; apply new_location_ok; lia|].
  assert (Hcases : e' <= -1074 \/ 2 ^ 52 <= q).
  { destruct (Z_le_gt_dec e' (-1074)) as [|Hgt]; [now left|right].
    assert (Hq52 : 2 ^ 52 <= q).
    { pose proof (digits_bounds (Zpos m1) ltac:(lia)) as [Hl1 _].
      pose proof (digits_bounds (Zpos m2) ltac:(lia)) as [_ Hh2].
      fold d1 in Hl1. fold d2 in Hh2.
      pose proof (digits_pos (Zpos m1) ltac:(lia)) as Hd1. fold d1 in Hd1.
      pose proof (digits_pos (Zpos m2) ltac:(lia)) as Hd2. fold d2 in Hd2.
      assert (Hs53 : 53 - d1 + d2 <= s) by (unfold s, e', fexp64 in *; lia).
      assert (H1 : 2 ^ (52 + d2) <= Zpos m1 * 2 ^ s).
      { assert (H0 : 0 < 2 ^ (d1 - 1)) by (apply Z.pow_pos_nonneg; lia).
        destruct (Z_le_gt_dec 0 (53 - d1 + d2)) as [Ht|Ht].
        - replace (52 + d2) with ((d1 - 1) + (53 - d1 + d2)) by lia.
          rewrite Z.pow_add_r by lia.
          assert (2 ^ (53 - d1 + d2) <= 2 ^ s)
            by (apply Z.pow_le_mono_r; lia).
          assert (0 < 2 ^ (53 - d1 + d2)) by (apply Z.pow_pos_nonneg; lia).
          nia.
        - assert (2 ^ (52 + d2) <= 2 ^ (d1 - 1))
            by (apply Z.pow_le_mono_r; lia).
          nia. }
      rewrite Z.pow_add_r in H1 by lia.
      assert (Hq0 : 0 <= q).
      { destruct (Z_lt_le_dec q 0); [|assumption]. nia. }
      nia. }
    exact Hq52. }
  destruct Hcases as [Hlow|Hq52].
  - split; [unfold fexp64; lia|now right].
  - split; [|left; lia].
    pose proof (digits_bounds q ltac:(lia)) as [_ Hqh].
    assert (H52 : 2 ^ 52 < 2 ^ Zdigits2 q) by lia.
    apply Z.pow_lt_mono_r_iff in H52; [|lia|apply digits_nonneg].
    unfold e', fexp64 in *. lia.
Qed.

Lemma bra_nonneg (mx e : Z) (lx : location) (N D : Z) :
  0 < D -> 0 <= N ->
  rec_ok N D (shr_record_of_loc mx lx) ->
  e <= fexp64 (Zdigits2 mx + e) ->
  nonneg (binary_round_aux prec emax false mx e lx) = true.
Proof.
  intros HD HN Hrec Hn.
  destruct (bra_spec false mx e lx N D HD HN Hrec Hn)
    as (M & E & Heq & HM & _ & Hcan & _).
  rewrite Heq. now apply nonneg_pack.
Qed.

Lemma div_spec (a : f64) (mb : positive) (eb : Z) (X : Q) :
  nonneg a = true ->
  (X * val (S754_finite false mb eb) == val a)%Q ->
  nonneg (div a (S754_finite false mb eb)) = true
  /\ (is_finite a = true -> (X <= pow2 100)%Q ->
      is_finite (div a (S754_finite false mb eb)) = true
      /\ (- (u * X + eta) <= val (div a (S754_finite false mb eb)) - X
          <= u * X + eta)%Q).
Proof.
  intros Ha HX. pose proof u_pos as Hu. pose proof eta_pos as He.
  pose proof (pow2_pos eb) as Hpb.
  assert (Hmb : (0 < inject_Z (Zpos mb))%Q) by reflexivity.
  destruct a as [[|]|[|]| |[|] ma ea]; cbn in Ha; try discriminate.
  - split; [reflexivity|]. intros _ _. split; [reflexivity|].
    change (div (S754_zero false) (S754_finite false mb eb))
      with (S754_zero false).
    assert (HX0 : (X == 0)%Q).
    { cbn [val] in HX. apply Qmult_integral in HX.
      destruct HX as [HX|HX]; [exact HX|exfalso; nra]. }
    cbn [val]. rewrite HX0. lra.
  - split; [reflexivity|]. intros Hf. discriminate.
  - unfold div. cbn [SFdiv xorb].
    destruct (div_core_spec ma ea mb eb)
      as (q & e' & l & s & Hc & Hs & He' & Hrec & Hn & Hq).
    rewrite Hc.
    assert (HP : 0 < 2 ^ s) by (apply Z.pow_pos_nonneg; lia).
    assert (HX' : (X * inject_Z (Zpos mb)
                   == inject_Z (Zpos ma * 2 ^ s) * pow2 e')%Q).
    { cbn [val] in HX.
      apply (Qmult_inj_r _ _ (pow2 eb)); [lra|].
      rewrite inject_Z_mult, <- (pow2_Z s Hs).
      setoid_replace (inject_Z (Z.pos ma) * pow2 s * pow2 e' * pow2 eb)%Q
        with (inject_Z (Z.pos ma) * (pow2 s * pow2 e' * pow2 eb))%Q by ring.
      rewrite <- !pow2_add. replace (s + e' + eb) with ea by lia.
      rewrite <- HX. ring. }
    destruct (bra_val q e' l (Zpos ma * 2 ^ s) (Zpos mb) X
                ltac:(lia) ltac:(lia) Hrec Hn HX') as [Hnn Hv].
    split; [exact Hnn|]. intros _ Hsmall. apply Hv.
    assert (Hqm : q = Zpos ma * 2 ^ s / Zpos mb).
    { destruct Hrec as [Hm _]. destruct l as [|[| |]]; exact Hm. }
    assert (Hq0 : 0 <= q) by (rewrite Hqm; apply Z.div_pos; lia).
    destruct (Z.eq_dec q 0) as [Hz|Hne].
    + rewrite Hz in *. cbn [Zdigits2]. lia.
    + assert (Hle : (inject_Z q * inject_Z (Zpos mb)
                     <= inject_Z (Zpos ma * 2 ^ s))%Q).
      { rewrite <- inject_Z_mult, <- Zle_Qle, Hqm, Z.mul_comm.
        apply Z.mul_div_le. lia. }
      assert (Hdv : Zdigits2 q + e' <= 100 + 1).
      { apply digits_from_val; [lia|].
        pose proof (pow2_pos e') as Hpe.
        assert (Hqx : (inject_Z q * pow2 e' <= X)%Q).
        { apply (proj1 (Qmult_le_r _ _ (inject_Z (Zpos mb)) Hmb)).
          rewrite HX'. nra. }
        lra. }
      lia.
Qed.

Lemma of_Q_nonneg (q : Q) : (0 <= q)%Q -> nonneg (of_Q q) = true.
Proof.
  intros Hq. destruct q as [n dn]. unfold of_Q. cbn [Qnum Qden].
  destruct n as [|n|n].
  - reflexivity.
  - destruct (div_core_spec n 0 dn 0)
      as (m & e & l & s & Hc & Hs & He & Hrec & Hn & _).
    rewrite Hc.
    apply (bra_nonneg m e l (Zpos n * 2 ^ s) (Zpos dn));
      [lia| |exact Hrec|exact Hn].
    apply Z.mul_nonneg_nonneg; [lia|apply Z.pow_nonneg; lia].
  - exfalso. unfold Qle in Hq. cbn in Hq. lia.
Qed.

(** ** Whole numbers and [Math.round] *)

Lemma of_Z_exact (n : Z) :
  0 < n < 2 ^ 53 ->
  nonneg (of_Z n) = true /\ is_finite (of_Z n) = true
  /\ (val (of_Z n) == inject_Z n)%Q.
Proof.
  intros Hn. destruct n as [|p|p]; try lia.
  unfold of_Z. cbn [binary_normalize].
  destruct (binary_round_spec false p 0)
    as (mz & ez & Hr & Hez & Hmz & Hsh & Hmin & Hdig).
  rewrite Hr.
  pose proof (digits_pos (Zpos p) ltac:(lia)) as Hd1.
  assert (Hd53 : Zdigits2 (Zpos p) <= 53).
  { pose proof (digits_bounds (Zpos p) ltac:(lia)) as [Hlo _].
    destruct (Z_le_gt_dec (Zdigits2 (Zpos p)) 53) as [|Hgt]; [assumption|].
    assert (2 ^ 53 <= 2 ^ (Zdigits2 (Zpos p) - 1))
      by (apply Z.pow_le_mono_r; lia).
    lia. }
  assert (HE0 : fexp64 (Zdigits2 (Zpos mz) + ez) = ez).
  { rewrite Hdig. unfold fexp64 in *. lia. }
  destruct (bra_spec false (Zpos mz) ez loc_Exact (Zpos mz) 1
              ltac:(lia) ltac:(lia) (rec_exact _) Hsh)
    as (M & E & Heq & HM & HE & Hcan & Hnear).
  rewrite Heq. rewrite HE0 in *. rewrite Z.sub_diag in Hnear.
  change (2 ^ 0) with 1 in Hnear.
  assert (HMz : M * 2 ^ (E - ez) = Zpos mz) by lia.
  assert (HE971 : E <= 971) by (unfold fexp64 in *; lia).
  destruct (val_pack M E HM HE971) as [Hfin Hval].
  split; [now apply nonneg_pack|]. split; [exact Hfin|].
  rewrite Hval.
  assert (HpE : (pow2 E == inject_Z (2 ^ (E - ez)) * pow2 ez)%Q).
  { replace E with ((E - ez) + ez) at 1 by lia.
    rewrite pow2_add, pow2_Z by lia. reflexivity. }
  rewrite HpE.
  setoid_replace (inject_Z M * (inject_Z (2 ^ (E - ez)) * pow2 ez))%Q
    with (inject_Z (M * 2 ^ (E - ez)) * pow2 ez)%Q
    by (rewrite inject_Z_mult; ring).
  rewrite HMz, Hmz, inject_Z_mult.
  setoid_replace (inject_Z (Z.pos p) * inject_Z (2 ^ (0 - ez)) * pow2 ez)%Q
    with (inject_Z (Z.pos p) * (pow2 (0 - ez) * pow2 ez))%Q
    by (rewrite (pow2_Z (0 - ez)) by lia; ring).
  rewrite <- pow2_add. replace (0 - ez + ez) with 0 by lia.
  change (pow2 0) with 1%Q. ring.
Qed.

Lemma Math_round_spec (x : f64) :
  nonneg x = true ->
  nonneg (Math_round x) = true
  /\ (is_finite x = true ->
      is_finite (Math_round x) = true
      /\ exists N : Z,
           0 <= N /\ (val (Math_round x) == inject_Z N)%Q
           /\ (inject_Z N <= val x + (1 # 2) < inject_Z N + 1)%Q).
Proof.
  intros Hx.
  destruct x as [[|]|[|]| |[|] m e]; cbn in Hx; try discriminate.
  - split; [reflexivity|]. intros _. split; [reflexivity|].
    exists 0. split; [lia|]. split; [reflexivity|].
    cbn [Math_round val]. change (inject_Z 0) with 0%Q. split; lra.
  - split; [reflexivity|]. discriminate.
  - destruct (bounded_inv m e Hx) as [Hc He].
    cbn [Math_round].
    destruct (Z.leb_spec 0 e) as [Hpos|Hneg].
    + split; [exact Hx|]. intros _. split; [reflexivity|].
      exists (Zpos m * 2 ^ e). split.
      * apply Z.mul_nonneg_nonneg; [lia|apply Z.pow_nonneg; lia].
      * cbn [val]. rewrite inject_Z_mult, <- pow2_Z by lia.
        split; [reflexivity|]. split; lra.
    + set (k := - e). set (n := (2 * Z.pos m + 2 ^ k) / 2 ^ (k + 1)).
      assert (Hk : 0 < k) by (unfold k; lia).
      assert (HP : 0 < 2 ^ k) by (apply Z.pow_pos_nonneg; lia).
      assert (HP1 : 2 ^ (k + 1) = 2 * 2 ^ k)
        by (rewrite Z.pow_add_r by lia; change (2 ^ 1) with 2; ring).
      assert (Hdm : 2 ^ (k + 1) * n <= 2 * Zpos m + 2 ^ k
                    < 2 ^ (k + 1) * (n + 1)).
      { unfold n. split.
        - apply Z.mul_div_le. lia.
        - rewrite Z.mul_add_distr_l, Z.mul_1_r.
          pose proof (Z.mod_pos_bound (2 * Z.pos m + 2 ^ k) (2 ^ (k + 1))
                        ltac:(lia)) as Hb.
          pose proof (Z.div_mod (2 * Z.pos m + 2 ^ k) (2 ^ (k + 1))
                        ltac:(lia)) as Hd.
          lia. }
      assert (Hn0 : 0 <= n) by (unfold n; apply Z.div_pos; lia).
      assert (Hm53 : Zpos m < 2 ^ 53).
      { pose proof (digits_bounds (Zpos m) ltac:(lia)) as [_ Hh].
        pose proof (digits_pos (Zpos m) ltac:(lia)) as Hd.
        assert (Zdigits2 (Zpos m) <= 53) by (unfold fexp64 in Hc; lia).
        assert (2 ^ Zdigits2 (Zpos m) <= 2 ^ 53)
          by (apply Z.pow_le_mono_r; lia).
        lia. }
      assert (Hn53 : n < 2 ^ 53).
      { assert (2 <= 2 ^ k).
        { change 2 with (2 ^ 1) at 1. apply Z.pow_le_mono_r; lia. }
        rewrite HP1 in Hdm. nia. }
      assert (Hv : (val (S754_finite false m e) * inject_Z (2 ^ k)
                    == inject_Z (Zpos m))%Q).
      { cbn [val]. rewrite <- pow2_Z by lia.
        setoid_replace (inject_Z (Z.pos m) * pow2 e * pow2 k)%Q
          with (inject_Z (Z.pos m) * (pow2 e * pow2 k))%Q by ring.
        rewrite <- pow2_add. replace (e + k) with 0 by (unfold k; lia).
        change (pow2 0) with 1%Q. ring. }
      assert (Hbounds : (inject_Z n <= val (S754_finite false m e) + (1 # 2)
                         < inject_Z n + 1)%Q).
      { destruct Hdm as [Hlo Hhi]. rewrite HP1 in Hlo, Hhi.
        rewrite Zle_Qle in Hlo. rewrite Zlt_Qlt in Hhi.
        repeat (rewrite inject_Z_mult in Hlo || rewrite inject_Z_plus in Hlo).
        repeat (rewrite inject_Z_mult in Hhi || rewrite inject_Z_plus in Hhi).
        change (inject_Z 2) with 2%Q in *. change (inject_Z 1) with 1%Q in *.
        assert (Hpk : (0 < inject_Z (2 ^ k))%Q).
        { change 0%Q with (inject_Z 0). now rewrite <- Zlt_Qlt. }
        set (v := val (S754_finite false m e)) in *.
        set (pk := inject_Z (2 ^ k)) in *. set (qn := inject_Z n) in *.
        set (qm := inject_Z (Zpos m)) in *.
        clearbody v pk qn qm.
        split.
        - apply (proj1 (Qmult_le_r _ _ pk Hpk)). nra.
        - apply (proj1 (Qmult_lt_r _ _ pk Hpk)). nra. }
      fold k. fold n.
      destruct (Z.eqb_spec n 0) as [Hz|Hnz].
      * split; [reflexivity|]. intros _. split; [reflexivity|].
        exists 0. split; [lia|]. split; [reflexivity|].
        rewrite Hz in Hbounds. exact Hbounds.
      * destruct (of_Z_exact n ltac:(lia)) as (Hnn & Hfin & Hval).
        split; [exact Hnn|]. intros _. split; [exact Hfin|].
        exists n. split; [lia|]. split; [exact Hval|exact Hbounds].
Qed.

(** ** The constants and the error terms as numbers *)

Lemma err_lin (X : Q) : (0 <= X)%Q -> (u * X + eta <= uq * X + tiny)%Q.
Proof.
  intros HX.
  assert (Hu : (u == uq)%Q) by reflexivity.
  assert (He : (eta <= tiny)%Q).
  { unfold Qle. vm_compute. discriminate. }
  rewrite Hu. lra.
Qed.

Lemma pow2_100 : (100000000000000000000 <= pow2 100)%Q.
Proof. unfold Qle. vm_compute. discriminate. Qed.

Lemma tenth_eq : tenth = S754_finite false 7205759403792794 (-56).
Proof. reflexivity. Qed.

Lemma hundred_eq : hundred = S754_finite false 7036874417766400 (-46).
Proof. reflexivity. Qed.

Lemma tenth_bounded : bounded prec emax 7205759403792794 (-56) = true.
Proof. reflexivity. Qed.

Lemma hundred_bounded : bounded prec emax 7036874417766400 (-46) = true.
Proof. reflexivity. Qed.

Lemma val_tenth : (val tenth == 7205759403792794 # 72057594037927936)%Q.
Proof. reflexivity. Qed.

Lemma val_hundred : (val hundred == 100)%Q.
Proof. reflexivity. Qed.

(** ** Rounding to cents *)

Lemma mul_hundred (x : f64) :
  nonneg x = true ->
  nonneg (mul x hundred) = true
  /\ (is_finite x = true -> (val x <= 100000000000)%Q ->
      is_finite (mul x hundred) = true
      /\ (- (uq * (100 * val x) + tiny)
          <= val (mul x hundred) - 100 * val x
          <= uq * (100 * val x) + tiny)%Q).
Proof.
  intros Hx. rewrite hundred_eq.
  assert (HX : (100 * val x
                == val x * val (S754_finite false 7036874417766400 (-46)))%Q).
  { rewrite <- hundred_eq, val_hundred. ring. }
  destruct (mul_spec x _ _ (100 * val x)%Q Hx hundred_bounded HX) as [Hnn Hv].
  split; [exact Hnn|]. intros Hf Hle.
  pose proof (val_nonneg x Hx) as H0. pose proof pow2_100 as Hp.
  destruct (Hv Hf ltac:(lra)) as [Hfin Hb].
  split; [exact Hfin|].
  pose proof (err_lin (100 * val x) ltac:(lra)). lra.
Qed.

Lemma div_hundred (c : f64) :
  nonneg c = true ->
  nonneg (div c hundred) = true
  /\ (is_finite c = true -> (val c <= 100000000000000)%Q ->
      is_finite (div c hundred) = true
      /\ (- (uq * (val c * (1 # 100)) + tiny)
          <= val (div c hundred) - val c * (1 # 100)
          <= uq * (val c * (1 # 100)) + tiny)%Q).
Proof.
  intros Hc. rewrite hundred_eq.
  assert (HX : (val c * (1 # 100)
                * val (S754_finite false 7036874417766400 (-46))
                == val c)%Q).
  { rewrite <- hundred_eq, val_hundred. field. }
  destruct (div_spec c _ _ (val c * (1 # 100))%Q Hc HX) as [Hnn Hv].
  split; [exact Hnn|]. intros Hf Hle.
  pose proof (val_nonneg c Hc) as H0. pose proof pow2_100 as Hp.
  destruct (Hv Hf ltac:(lra)) as [Hfin Hb].
  split; [exact Hfin|].
  pose proof (err_lin (val c * (1 # 100)) ltac:(lra)). lra.
Qed.

Lemma round2_keeps_sign (x : f64) : nonneg x = true -> nonneg (round2 x) = true.
Proof.
  intros Hx. unfold round2.
  apply div_hundred, Math_round_spec, mul_hundred, Hx.
Qed.

Lemma round2_spec (x : f64) :
  nonneg x = true -> is_finite x = true -> (val x <= 2000000000)%Q ->
  exists (c : f64) (n : Z),
    round2 x = div c hundred
    /\ is_finite c = true /\ (val c == inject_Z n)%Q /\ 0 <= n
    /\ (inject_Z n - (1 # 2) - (1 # 10000)
        <= 100 * val x
        <= inject_Z n + (1 # 2) + (1 # 10000))%Q
    /\ is_finite (round2 x) = true
    /\ (- (1 # 1000000) <= val (round2 x) - inject_Z n * (1 # 100)
        <= 1 # 1000000)%Q.
Proof.
  intros Hx Hf Hle. pose proof (val_nonneg x Hx) as H0.
  destruct (mul_hundred x Hx) as [Hnn1 Hv1].
  destruct (Hv1 Hf ltac:(lra)) as [Hf1 Hb1].
  destruct (Math_round_spec (mul x hundred) Hnn1) as [Hnn2 Hv2].
  destruct (Hv2 Hf1) as (Hf2 & n & Hn & Hval & Hrb).
  destruct (div_hundred (Math_round (mul x hundred)) Hnn2) as [Hnn3 Hv3].
  unfold uq, tiny in *.
  destruct (Hv3 Hf2 ltac:(lra)) as [Hf3 Hb3].
  exists (Math_round (mul x hundred)), n.
  split; [reflexivity|]. split; [exact Hf2|]. split; [exact Hval|].
  split; [exact Hn|]. split; [lra|]. split; [exact Hf3|].
  unfold round2. lra.
Qed.

(** ** Ten percent, and the sum with it *)

Lemma mul_tenth (x : f64) :
  nonneg x = true ->
  nonneg (mul x tenth) = true
  /\ (is_finite x = true -> (val x <= 1000000000)%Q ->
      is_finite (mul x tenth) = true
      /\ (- (1 # 10000000) <= val (mul x tenth) - val x * (1 # 10)
          <= 1 # 10000000)%Q).
Proof.
  intros Hx. rewrite tenth_eq.
  set (c := (7205759403792794 # 72057594037927936)%Q).
  assert (HX : (val x * c
                == val x * val (S754_finite false 7205759403792794 (-56)))%Q).
  { rewrite <- tenth_eq, val_tenth. reflexivity. }
  destruct (mul_spec x _ _ (val x * c)%Q Hx tenth_bounded HX) as [Hnn Hv].
  split; [exact Hnn|]. intros Hf Hle.
  pose proof (val_nonneg x Hx) as H0. pose proof pow2_100 as Hp.
  unfold c in *.
  destruct (Hv Hf ltac:(lra)) as [Hfin Hb].
  split; [exact Hfin|].
  pose proof (err_lin (val x * (7205759403792794 # 72057594037927936))
                ltac:(lra)) as He.
  unfold uq, tiny in He. lra.
Qed.

Lemma add_tenth (x t : f64) :
  nonneg x = true -> nonneg t = true ->
  nonneg (add x t) = true
  /\ (is_finite x = true -> is_finite t = true ->
      (val x <= 1000000000)%Q -> (val t <= 1000000000)%Q ->
      is_finite (add x t) = true
      /\ (- (3 # 10000000) <= val (add x t) - (val x + val t)
          <= 3 # 10000000)%Q).
Proof.
  intros Hx Ht.
  destruct (add_spec x t (val x + val t)%Q Hx Ht ltac:(reflexivity))
    as [Hnn Hv].
  split; [exact Hnn|]. intros Hfx Hft Hlx Hlt.
  pose proof (val_nonneg x Hx) as H0. pose proof (val_nonneg t Ht) as H1.
  pose proof pow2_100 as Hp.
  destruct (Hv Hfx Hft ltac:(lra)) as [Hfin Hb].
  split; [exact Hfin|].
  pose proof (err_lin (val x + val t) ltac:(lra)) as He.
  unfold uq, tiny in He. lra.
Qed.

Lemma totals_nonneg (S : f64) :
  nonneg S = true ->
  nonneg (round2 (mul S tenth)) = true
  /\ nonneg (round2 (add S (mul S tenth))) = true.
Proof.
  intros HS. pose proof (proj1 (mul_tenth S HS)) as Ht.
  split; apply round2_keeps_sign; [exact Ht|].
  exact (proj1 (add_tenth S _ HS Ht)).
Qed.

Lemma totals_spec (S : f64) :
  nonneg S = true -> is_finite S = true -> (val S <= 1000000000)%Q ->
  exists (ct cT : f64) (nt nT : Z),
    round2 (mul S tenth) = div ct hundred
    /\ round2 (add S (mul S tenth)) = div cT hundred
    /\ is_finite ct = true /\ is_finite cT = true
    /\ (val ct == inject_Z nt)%Q /\ (val cT == inject_Z nT)%Q
    /\ 0 <= nt /\ 0 <= nT
    /\ (- ((1 # 2) + (2 # 10000)) <= inject_Z nt - 10 * val S
        <= (1 # 2) + (2 # 10000))%Q
    /\ (- ((1 # 2) + (2 # 10000)) <= inject_Z nT - 110 * val S
        <= (1 # 2) + (2 # 10000))%Q
    /\ is_finite (round2 (mul S tenth)) = true
    /\ is_finite (round2 (add S (mul S tenth))) = true
    /\ (- ((1 # 200) + (1 # 100000))
        <= val (round2 (mul S tenth)) - val S * (1 # 10)
        <= (1 # 200) + (1 # 100000))%Q
    /\ (- ((1 # 200) + (1 # 100000))
        <= val (round2 (add S (mul S tenth))) - val S * (11 # 10)
        <= (1 # 200) + (1 # 100000))%Q.
Proof.
  intros HS Hf Hle. pose proof (val_nonneg S HS) as H0.
  destruct (mul_tenth S HS) as [Hnt Hvt].
  destruct (Hvt Hf Hle) as [Hft Hbt].
  destruct (add_tenth S (mul S tenth) HS Hnt) as [HnU HvU].
  destruct (HvU Hf Hft Hle ltac:(lra)) as [HfU HbU].
  destruct (round2_spec (mul S tenth) Hnt Hft ltac:(lra))
    as (ct & nt & E1 & Hfc1 & Hv1 & Hn1 & Hr1 & Hfr1 & Hb1).
  destruct (round2_spec (add S (mul S tenth)) HnU HfU ltac:(lra))
    as (cT & nT & E2 & Hfc2 & Hv2 & Hn2 & Hr2 & Hfr2 & Hb2).
  exists ct, cT, nt, nT.
  repeat (split; [first [assumption|lra]|]). lra.
Qed.

End Binary64Facts.

(* ================================================================== *)
(** * The totals of the text parser *)
(* ================================================================== *)

Module TotalsProofs.
Import Js Re Json Examples ReFacts.
Import Binary64 Binary64Facts.
#[local] Unset Implicit Arguments.

Lemma parse_unfold clk (t : text) :
  parseReceiptText clk t
  = let items := extractItems (AiService.split_lines t) in
    let subtotal :=
      fold_left (fun sum it => add sum (item_cost it)) items zero in
    mkData (JStr (AiService.extractDate clk t))
           (JStr (AiService.extractCurrency t))
           (JStr (AiService.extractVendorName (AiService.split_lines t)))
           items
           (round2 (mul subtotal tenth))
           (round2 (add subtotal (mul subtotal tenth))).
Proof. reflexivity. Qed.

Lemma sum_nonneg (items : list item) : forall acc,
  nonneg acc = true ->
  Forall (fun it => nonneg (item_cost it) = true) items ->
  nonneg (fold_left (fun sum it => add sum (item_cost it)) items acc) = true.
Proof.
  induction items as [|it items IH]; intros acc Ha Hf; cbn [fold_left].
  - exact Ha.
  - inversion Hf as [|? ? Hit Hrest]; subst. apply IH; [|exact Hrest].
    exact (proj1 (add_spec acc (item_cost it) (val acc + val (item_cost it))
                    Ha Hit (Qeq_refl _))).
Qed.

Lemma extracted_costs_nonneg (lines : list text) :
  Forall (fun it => nonneg (item_cost it) = true) (extractItems lines).
Proof.
  unfold extractItems. apply Forall_map.
  pose proof (ParserProofs.extractItems_nonneg lines) as H.
  induction H as [|it its Hit _ IH]; constructor; [|exact IH].
  cbn [to_number item_cost]. apply of_Q_nonneg. exact Hit.
Qed.


(** C2. For every text the parser returns a record with at least one
    item, a tax and a total that are Numbers not below 0 (never NaN; the
    total may be Infinity), a vendor name that is not empty and a
    currency code that is not empty; and when the sum of the item costs
    is at most 1,000,000,000 the tax and the total are finite and the
    total is within 0.01002 of that sum plus the tax.  The sum is the
    binary64 sum the source computes, from 0 and from left to right. *)
Theorem parseReceiptText_invariants clk (t : text) :
  let p := parseReceiptText clk t in
  let subtotal :=
    fold_left (fun sum it => add sum (item_cost it)) (receipt_items p) zero in
  1 <= length (receipt_items p)
  /\ SFleb zero (tax p) = true
  /\ SFleb zero (total p) = true
  /\ (exists v, vendor_name p = JStr v /\ v <> [])
  /\ (exists c, currency p = JStr c /\ c <> [])
  /\ (is_finite subtotal = true -> (val subtotal <= 1000000000)%Q ->
      is_finite (tax p) = true /\ is_finite (total p) = true
      /\ (- ((1 # 100) + (2 # 100000))
          <= val (total p) - (val subtotal + val (tax p))
          <= (1 # 100) + (2 # 100000))%Q).
Proof.
  cbv zeta. rewrite parse_unfold. cbv zeta.
  cbn [receipt_items tax total vendor_name currency].
  set (items := extractItems (AiService.split_lines t)).
  set (S := fold_left (fun sum it => add sum (item_cost it)) items zero).
  assert (HS : nonneg S = true).
  { apply sum_nonneg; [reflexivity|apply extracted_costs_nonneg]. }
  destruct (totals_nonneg S HS) as [Htax Htotal].
  split.
  { unfold items, extractItems. rewrite length_map.
    apply ParserProofs.extractItems_nonempty. }
  split; [now apply nonneg_leb|]. split; [now apply nonneg_leb|].
  split.
  { eexists. split; [reflexivity|].
    apply ParserProofs.extractVendorName_nonempty. }
  split.
  { eexists. split; [reflexivity|].
    apply ParserProofs.extractCurrency_nonempty. }
  intros Hf Hle.
  destruct (totals_spec S HS Hf Hle)
    as (ct & cT & nt & nT & _ & _ & _ & _ & _ & _ & _ & _ & _ & _
        & Hft & HfT & Hbt & HbT).
  split; [exact Hft|]. split; [exact HfT|]. lra.
Qed.

Lemma parseReceiptText_invariants_witness :
  let p := parseReceiptText clock0 tea_receipt in
  let subtotal :=
    fold_left (fun sum it => add sum (item_cost it)) (receipt_items p) zero in
  is_finite (tax p) = true /\ is_finite (total p) = true
  /\ (- ((1 # 100) + (2 # 100000))
      <= val (total p) - (val subtotal + val (tax p))
      <= (1 # 100) + (2 # 100000))%Q.
Proof.
  apply (proj2 (proj2 (proj2 (proj2 (proj2
           (parseReceiptText_invariants clock0 tea_receipt)))))).
  - vm_compute. reflexivity.
  - unfold Qle. vm_compute. discriminate.
Defined.

(** With an item of 1.45 the total 1.6 is further than one cent from
    1.45 + 0.14, and with a price of 2 followed by 306 zeros the total is
    Infinity while the item cost and the tax are finite. *)
Lemma total_not_within_a_cent :
  ~ within_a_cent (parseReceiptText clock0 tea_receipt)
  /\ ~ within_a_cent (parseReceiptText clock0 huge_price_receipt).
Proof.
  split; intros [Hf H].
  - destruct H as [_ H]. revert H. unfold Qle. vm_compute.
    intros H. apply H. reflexivity.
  - revert Hf. vm_compute. discriminate.
Qed.




(** The figures of the test suite, 10.99 and 5.50, give 1.65 and 18.14;
    and a "Tax:" line with another figure changes nothing. *)
Example totals_of_two_items :
  calculateTotals [mkItem (JStr (str "Item 1:")) (of_Q (1099 # 100));
                   mkItem (JStr (str "Item 2:")) (of_Q (550 # 100))]
  = (of_Q (165 # 100), of_Q (1814 # 100)).
Proof. vm_compute. reflexivity. Qed.

Example explicit_tax_line_is_ignored :
  let p := parseReceiptText clock0 (str "Store
Item 1: $10.00
Tax: $9.99
Total: $19.99") in
  tax p = of_Z 1 /\ total p = of_Z 11.
Proof. vm_compute. split; reflexivity. Qed.

End TotalsProofs.
